(** * RecipeSnapTab: the voice cooking assistant of [RecipeSnapTab.tsx]

    A shallow embedding of the voice turn-taking code of the React component
    [RecipeSnapTab] ([startVoiceCooking], [processVoiceCommand],
    [stopVoiceCooking], [nextStep], [prevStep] and the callbacks they install),
    followed by the properties of the specification that concern them.

    Conventions of the embedding.
    - React state ([useState]) and refs ([useRef]) are fields of one record
      [World]; a setter writes the field.  The values a [useCallback] closure
      reads are the ones of the render that created it: they are kept in a
      separate record [Closure] and never change during a call.
    - The objects of the SDK (microphones, the voice-activity detector, the
      voice pipeline, timers) are part of [World]; what the SDK decides
      (whether a model loads, what the pipeline answers, whether a microphone
      can be started) is an argument of the function that awaits it.
    - An [async] function is cut at the [await] on which other handlers can
      run: [processVoiceCommand] is the part up to [await pipeline.processTurn],
      [processVoiceCommand_settled] the part after it.
    - [exec] is the event loop with the closure of a click given by hand;
      [browse] adds the rule of [useCallback] that decides which closure the
      Start button holds.
    - Every call on an SDK object is also appended to [trace], so that the
      order of calls can be stated.
    - JavaScript numbers that hold integers are [Z]; strings are Rocq
      strings.  [toLowerCase], [trim] and the classes [\s] and [\d] of
      regular expressions are modelled on ASCII text, where they are what the
      engine computes; a statement that depends on them is made for texts
      that satisfy [ascii_text].
    - [startVoiceCooking] is given twice: in one piece, as it runs when every
      promise it awaits settles before another handler runs (the label
      [ClickStart] of [exec]), and cut at each [await] (the labels
      [StartClicked] and [StartResumes] of [page_exec]); [start_stages]
      relates the two.

    The definitions end with the rest of the component: the camera and the
    scan of ingredients, the generation and the parsing of a recipe, the
    reset and the cleanup, with the event loop of the whole page. *)

From Stdlib Require Import ZArith String Ascii Bool Lia.
From Stdlib Require DecimalString DecimalPos.
From stdpp Require Import base tactics option numbers list strings.

Local Open Scope Z_scope.

(** ** Strings as the code uses them *)

Module Js.

(** [c.toLowerCase()] on one ASCII character; a character outside ASCII is
    left as it is, where the engine folds some of them (U+212A to k). *)
Definition lower_ascii (c : ascii) : ascii :=
  let n := N_of_ascii c in
  if ((65 <=? n) && (n <=? 90))%N then ascii_of_N (n + 32) else c.

(** [s.toLowerCase()] for an ASCII text [s]. *)
Fixpoint toLowerCase (s : string) : string :=
  match s with
  | EmptyString => EmptyString
  | String c s' => String (lower_ascii c) (toLowerCase s')
  end.

(** [s.includes(needle)] *)
Fixpoint includes (s needle : string) : bool :=
  String.prefix needle s ||
  match s with
  | EmptyString => false
  | String _ s' => includes s' needle
  end.

(** [`${n}`] for an integer [n]. *)
Definition ofNumber (n : Z) : string :=
  DecimalString.NilZero.string_of_int (Z.to_int n).

(** The double-quote character inside a template literal. *)
Definition dquote : string := String (ascii_of_nat 34) EmptyString.

(** A value caught by [catch (err)]: an [Error] object or anything else. *)
Inductive Thrown :=
| ErrorObject (message : string)
| OtherValue (asString : string).

(** [err instanceof Error ? err.message : String(err)] *)
Definition errorText (err : Thrown) : string :=
  match err with
  | ErrorObject message => message
  | OtherValue s => s
  end.

End Js.

(** ** Data model *)

(** [type RecipeState] *)
Inductive RecipeState :=
| Idle | Scanning | GeneratingRecipe | RecipeReady | CookingVoice.

#[global] Instance RecipeState_eq_dec : EqDecision RecipeState.
Proof. solve_decision. Defined.

Record Ingredient := { ing_name : string; quantity : option string }.

#[global] Instance Ingredient_eq_dec : EqDecision Ingredient.
Proof. solve_decision. Defined.

Record Recipe := {
  name : string;
  ingredients : list Ingredient;
  steps : list string;
  cookTime : option string;
  difficulty : option string;
  nutrition : option string
}.

#[global] Instance Recipe_eq_dec : EqDecision Recipe.
Proof. solve_decision. Defined.

(** A [Float32Array] element, kept as its IEEE-754 bit pattern: the code
    never inspects a sample, only the length of the array. *)
Definition Float32 := Z.

(** [SpeechActivity] of the SDK. *)
Inductive SpeechActivity := Started | Ended.

(** What [VAD.popSpeechSegment()] returns when it returns something. *)
Record SpeechSegment := { samples : list Float32 }.

(** What [pipeline.processTurn] resolves to. *)
Record TurnResult := { transcription : string; response : string }.

(** The values of the render that a [useCallback] closure captured:
    [processVoiceCommand] is [useCallback(.., [recipe, currentStep, state,
    voiceTranscript])], and [nextStep], [prevStep] read a subset of these. *)
Record Closure := {
  c_recipe : option Recipe;
  c_currentStep : Z;
  c_state : RecipeState;
  c_voiceTranscript : string
}.

(** [recipe.steps.length] *)
Definition stepCount (r : Recipe) : Z := Z.of_nat (length (steps r)).

(** [`${recipe.steps[i]}`]: an index outside the array reads [undefined]. *)
Definition stepAt (r : Recipe) (i : Z) : string :=
  if i <? 0 then "undefined"
  else match steps r !! Z.to_nat i with
       | Some s => s
       | None => "undefined"
       end.

(** The step-pointer command that [onResponseComplete] decides on. *)
Inductive NavigationCommand := Next | Previous | NoCommand.

#[global] Instance NavigationCommand_eq_dec : EqDecision NavigationCommand.
Proof. solve_decision. Defined.

(** The test of [onResponseComplete] (source lines 329-333): [text] is the
    final reply, [voiceTranscript] the transcript the closure holds. *)
Definition onResponseComplete_command (text voiceTranscript : string)
  : NavigationCommand :=
  if Js.includes (Js.toLowerCase text) "next step"
     || Js.includes (Js.toLowerCase voiceTranscript) "next"
  then Next
  else if Js.includes (Js.toLowerCase text) "previous"
          || Js.includes (Js.toLowerCase voiceTranscript) "back"
  then Previous
  else NoCommand.

(** A number of JavaScript, kept as the bit pattern of the double: the audio
    level is only stored, and the handlers below only ever write [0]. *)
Definition Float64 := Z.

(** [new VoicePipeline()] *)
Inductive VoicePipeline := NewVoicePipeline.

(** A callback handed to [setTimeout(.., 1000)]. *)
Inductive TimerTask :=
| CallNextStep (c : Closure)
| CallPrevStep (c : Closure).

(** A call on an object of the SDK; [TurnSettled] marks the moment the
    promise of a [processTurn] call settles. *)
Inductive Event :=
| MicStop (mic : nat)
| MicStart (mic : nat)
| VadReset
| VadSubscribe (listener : nat)
| VadUnsubscribe (listener : nat)
| ProcessTurn (turn : nat) (audioLength : nat) (systemPrompt : string)
| TurnSettled (turn : nat)
| Synthesize (text : string)
| Play (audioLength : nat) (sampleRate : Z)
| ConsoleError (err : string).

#[global] Instance Event_eq_dec : EqDecision Event.
Proof. solve_decision. Defined.

(** The component and the SDK objects it talks to. *)
Record World := {
  (* useState *)
  state : RecipeState;
  recipe : option Recipe;
  currentStep : Z;
  error : option string;
  voiceTranscript : string;
  voiceResponse : string;
  audioLevel : Float64;
  (* useRef: the handle of an object, or null *)
  micRef : option nat;
  pipelineRef : option VoicePipeline;
  vadUnsub : option nat;
  (* SDK objects: the capturing flag of every AudioCapture made so far *)
  mics : list bool;
  (* the VAD: samples of the utterance in progress, if any *)
  vad_speech : option (list Float32);
  (* the VAD: the finished utterance that can be popped *)
  vad_segment : option SpeechSegment;
  (* the VAD: the callbacks registered by onSpeechActivity *)
  vad_listeners : list (nat * Closure);
  (* the number of registrations made so far *)
  vad_subscriptions : nat;
  (* processTurn calls that have not settled, with the handler awaiting each *)
  calls : list (nat * Closure);
  (* the number of processTurn calls made so far *)
  turns : nat;
  (* pending setTimeout callbacks, oldest first *)
  timers : list TimerTask;
  (* the calls made on SDK objects, oldest first *)
  trace : list Event
}.

(** Field updates. *)
Definition setState (v : RecipeState) (w : World) : World :=
  Build_World v (recipe w) (currentStep w) (error w) (voiceTranscript w)
    (voiceResponse w) (audioLevel w) (micRef w) (pipelineRef w) (vadUnsub w)
    (mics w) (vad_speech w) (vad_segment w) (vad_listeners w)
    (vad_subscriptions w) (calls w) (turns w) (timers w) (trace w) .
Definition setRecipe (v : option Recipe) (w : World) : World :=
  Build_World (state w) v (currentStep w) (error w) (voiceTranscript w)
    (voiceResponse w) (audioLevel w) (micRef w) (pipelineRef w) (vadUnsub w)
    (mics w) (vad_speech w) (vad_segment w) (vad_listeners w)
    (vad_subscriptions w) (calls w) (turns w) (timers w) (trace w) .
Definition setCurrentStep (v : Z) (w : World) : World :=
  Build_World (state w) (recipe w) v (error w) (voiceTranscript w)
    (voiceResponse w) (audioLevel w) (micRef w) (pipelineRef w) (vadUnsub w)
    (mics w) (vad_speech w) (vad_segment w) (vad_listeners w)
    (vad_subscriptions w) (calls w) (turns w) (timers w) (trace w) .
Definition setError (v : option string) (w : World) : World :=
  Build_World (state w) (recipe w) (currentStep w) v (voiceTranscript w)
    (voiceResponse w) (audioLevel w) (micRef w) (pipelineRef w) (vadUnsub w)
    (mics w) (vad_speech w) (vad_segment w) (vad_listeners w)
    (vad_subscriptions w) (calls w) (turns w) (timers w) (trace w) .
Definition setVoiceTranscript (v : string) (w : World) : World :=
  Build_World (state w) (recipe w) (currentStep w) (error w) v
    (voiceResponse w) (audioLevel w) (micRef w) (pipelineRef w) (vadUnsub w)
    (mics w) (vad_speech w) (vad_segment w) (vad_listeners w)
    (vad_subscriptions w) (calls w) (turns w) (timers w) (trace w) .
Definition setVoiceResponse (v : string) (w : World) : World :=
  Build_World (state w) (recipe w) (currentStep w) (error w)
    (voiceTranscript w) v (audioLevel w) (micRef w) (pipelineRef w)
    (vadUnsub w) (mics w) (vad_speech w) (vad_segment w) (vad_listeners w)
    (vad_subscriptions w) (calls w) (turns w) (timers w) (trace w) .
Definition setAudioLevel (v : Float64) (w : World) : World :=
  Build_World (state w) (recipe w) (currentStep w) (error w)
    (voiceTranscript w) (voiceResponse w) v (micRef w) (pipelineRef w)
    (vadUnsub w) (mics w) (vad_speech w) (vad_segment w) (vad_listeners w)
    (vad_subscriptions w) (calls w) (turns w) (timers w) (trace w) .
Definition set_micRef (v : option nat) (w : World) : World :=
  Build_World (state w) (recipe w) (currentStep w) (error w)
    (voiceTranscript w) (voiceResponse w) (audioLevel w) v (pipelineRef w)
    (vadUnsub w) (mics w) (vad_speech w) (vad_segment w) (vad_listeners w)
    (vad_subscriptions w) (calls w) (turns w) (timers w) (trace w) .
Definition set_pipelineRef (v : option VoicePipeline) (w : World) : World :=
  Build_World (state w) (recipe w) (currentStep w) (error w)
    (voiceTranscript w) (voiceResponse w) (audioLevel w) (micRef w) v
    (vadUnsub w) (mics w) (vad_speech w) (vad_segment w) (vad_listeners w)
    (vad_subscriptions w) (calls w) (turns w) (timers w) (trace w) .
Definition set_vadUnsub (v : option nat) (w : World) : World :=
  Build_World (state w) (recipe w) (currentStep w) (error w)
    (voiceTranscript w) (voiceResponse w) (audioLevel w) (micRef w)
    (pipelineRef w) v (mics w) (vad_speech w) (vad_segment w)
    (vad_listeners w) (vad_subscriptions w) (calls w) (turns w) (timers w)
    (trace w) .
Definition set_mics (v : list bool) (w : World) : World :=
  Build_World (state w) (recipe w) (currentStep w) (error w)
    (voiceTranscript w) (voiceResponse w) (audioLevel w) (micRef w)
    (pipelineRef w) (vadUnsub w) v (vad_speech w) (vad_segment w)
    (vad_listeners w) (vad_subscriptions w) (calls w) (turns w) (timers w)
    (trace w) .
Definition set_vad_speech (v : option (list Float32)) (w : World) : World :=
  Build_World (state w) (recipe w) (currentStep w) (error w)
    (voiceTranscript w) (voiceResponse w) (audioLevel w) (micRef w)
    (pipelineRef w) (vadUnsub w) (mics w) v (vad_segment w) (vad_listeners w)
    (vad_subscriptions w) (calls w) (turns w) (timers w) (trace w) .
Definition set_vad_segment (v : option SpeechSegment) (w : World) : World :=
  Build_World (state w) (recipe w) (currentStep w) (error w)
    (voiceTranscript w) (voiceResponse w) (audioLevel w) (micRef w)
    (pipelineRef w) (vadUnsub w) (mics w) (vad_speech w) v (vad_listeners w)
    (vad_subscriptions w) (calls w) (turns w) (timers w) (trace w) .
Definition set_vad_listeners (v : list (nat * Closure)) (w : World) : World :=
  Build_World (state w) (recipe w) (currentStep w) (error w)
    (voiceTranscript w) (voiceResponse w) (audioLevel w) (micRef w)
    (pipelineRef w) (vadUnsub w) (mics w) (vad_speech w) (vad_segment w) v
    (vad_subscriptions w) (calls w) (turns w) (timers w) (trace w) .
Definition set_vad_subscriptions (v : nat) (w : World) : World :=
  Build_World (state w) (recipe w) (currentStep w) (error w)
    (voiceTranscript w) (voiceResponse w) (audioLevel w) (micRef w)
    (pipelineRef w) (vadUnsub w) (mics w) (vad_speech w) (vad_segment w)
    (vad_listeners w) v (calls w) (turns w) (timers w) (trace w) .
Definition set_calls (v : list (nat * Closure)) (w : World) : World :=
  Build_World (state w) (recipe w) (currentStep w) (error w)
    (voiceTranscript w) (voiceResponse w) (audioLevel w) (micRef w)
    (pipelineRef w) (vadUnsub w) (mics w) (vad_speech w) (vad_segment w)
    (vad_listeners w) (vad_subscriptions w) v (turns w) (timers w) (trace w) .
Definition set_turns (v : nat) (w : World) : World :=
  Build_World (state w) (recipe w) (currentStep w) (error w)
    (voiceTranscript w) (voiceResponse w) (audioLevel w) (micRef w)
    (pipelineRef w) (vadUnsub w) (mics w) (vad_speech w) (vad_segment w)
    (vad_listeners w) (vad_subscriptions w) (calls w) v (timers w) (trace w) .
Definition set_timers (v : list TimerTask) (w : World) : World :=
  Build_World (state w) (recipe w) (currentStep w) (error w)
    (voiceTranscript w) (voiceResponse w) (audioLevel w) (micRef w)
    (pipelineRef w) (vadUnsub w) (mics w) (vad_speech w) (vad_segment w)
    (vad_listeners w) (vad_subscriptions w) (calls w) (turns w) v (trace w) .
Definition set_trace (v : list Event) (w : World) : World :=
  Build_World (state w) (recipe w) (currentStep w) (error w)
    (voiceTranscript w) (voiceResponse w) (audioLevel w) (micRef w)
    (pipelineRef w) (vadUnsub w) (mics w) (vad_speech w) (vad_segment w)
    (vad_listeners w) (vad_subscriptions w) (calls w) (turns w) (timers w) v.

(** Statements in source order: [w |> f |> g] runs [f], then [g]. *)
Notation "w |> f" := (f w) (at level 45, left associativity, only parsing).

(** The values a handler created by the current render would capture. *)
Definition render (w : World) : Closure :=
  {| c_recipe := recipe w; c_currentStep := currentStep w;
     c_state := state w; c_voiceTranscript := voiceTranscript w |}.

Definition log (e : Event) (w : World) : World :=
  set_trace (trace w ++ [e]) w.

(** ** The SDK objects *)

(** Modelled from the spec: the AudioSource of section 4.1 is the
    [AudioCapture] object of the SDK, whose code is not part of the
    repository.  [mic.stop()] on the microphone [m] is idempotent and safe
    whether or not the microphone was started. *)
Definition mic_stop (m : nat) (w : World) : World :=
  w |> set_mics (<[m:=false]> (mics w)) |> log (MicStop m).

(** Modelled from the spec: [await mic.start(onChunk, onLevel)] of the same
    object; [ok] tells whether the device could be acquired.  Nothing
    follows the call in either caller, so a failure only leaves the
    microphone not capturing. *)
Definition mic_start (m : nat) (ok : bool) (w : World) : World :=
  w |> set_mics (<[m:=ok]> (mics w)) |> log (MicStart m).

(** [const mic = new AudioCapture({ sampleRate: 16000 }); micRef.current = mic]:
    the new microphone is the next index of [mics]. *)
Definition new_AudioCapture (w : World) : World :=
  w |> set_micRef (Some (length (mics w))) |> set_mics (mics w ++ [false]).

(** Some microphone is capturing, so chunks reach [VAD.processSamples]. *)
Definition capturing (w : World) : bool := existsb id (mics w).

(** Modelled from the spec: the Segmenter of section 4.2 is the [VAD] object
    of the SDK, whose code is not part of the repository.  [reset()] clears
    all buffered state and returns to Silence. *)
Definition VAD_reset (w : World) : World :=
  w |> set_vad_speech None |> set_vad_segment None |> log VadReset.

(** Modelled from the spec: [VAD.onSpeechActivity(cb)] registers [cb], here the
    callback of [startVoiceCooking] with closure [c], and returns the function
    that removes it; the component stores that function in [vadUnsub]. *)
Definition VAD_onSpeechActivity (c : Closure) (w : World) : World :=
  let l := vad_subscriptions w in
  w |> set_vad_listeners (vad_listeners w ++ [(l, c)])
    |> set_vad_subscriptions (S l)
    |> set_vadUnsub (Some l)
    |> log (VadSubscribe l).

(** Modelled from the spec: the function returned by [VAD.onSpeechActivity]
    removes listener [l]; calling it again changes nothing. *)
Definition VAD_unsubscribe (l : nat) (w : World) : World :=
  w |> set_vad_listeners (filter (λ e, e.1 ≠ l) (vad_listeners w))
    |> log (VadUnsubscribe l).

(** [micRef.current?.stop()] *)
Definition micRef_stop (w : World) : World :=
  match micRef w with
  | Some m => mic_stop m w
  | None => w
  end.

(** [vadUnsub.current?.()] *)
Definition vadUnsub_call (w : World) : World :=
  match vadUnsub w with
  | Some l => VAD_unsubscribe l w
  | None => w
  end.

(** [setTimeout(task, 1000)] *)
Definition setTimeout (task : TimerTask) (w : World) : World :=
  set_timers (timers w ++ [task]) w.

(** ** Step navigation (source lines 369-379) *)

Definition nextStep (c : Closure) (w : World) : World :=
  match c_recipe c with
  | Some r =>
      if c_currentStep c <? stepCount r - 1
      then setCurrentStep (c_currentStep c + 1) w
      else w
  | None => w
  end.

Definition prevStep (c : Closure) (w : World) : World :=
  if 0 <? c_currentStep c
  then setCurrentStep (c_currentStep c - 1) w
  else w.

Definition run_task (task : TimerTask) (w : World) : World :=
  match task with
  | CallNextStep c => nextStep c w
  | CallPrevStep c => prevStep c w
  end.

(** ** A voice turn: [processVoiceCommand] (source lines 309-360) *)

(** The template literal of line 317. *)
Definition systemPrompt (c : Closure) (r : Recipe) : string :=
  "You are a cooking assistant helping someone follow a recipe. They are on step "
  +:+ Js.ofNumber (c_currentStep c + 1) +:+ " of " +:+ Js.ofNumber (stepCount r)
  +:+ ". Current step: " +:+ Js.dquote +:+ stepAt r (c_currentStep c) +:+ Js.dquote
  +:+ ". Available commands: next step, repeat step, ingredient substitution, "
  +:+ "cooking tip. Respond in 1-2 sentences.".

(** [pipeline.processTurn(audioData, {.., systemPrompt}, callbacks)] is called:
    the call is pending until the pipeline settles it. *)
Definition pipeline_processTurn (c : Closure) (audioData : list Float32)
    (prompt : string) (w : World) : World :=
  let t := turns w in
  w |> set_calls (calls w ++ [(t, c)])
    |> set_turns (S t)
    |> log (ProcessTurn t (length audioData) prompt).

(** [processVoiceCommand] up to [await pipeline.processTurn(..)]. *)
Definition processVoiceCommand (c : Closure) (audioData : list Float32)
    (w : World) : World :=
  match pipelineRef w, c_recipe c with
  | Some _, Some r =>
      w |> micRef_stop
        |> vadUnsub_call
        |> pipeline_processTurn c audioData (systemPrompt c r)
  | _, _ => w
  end.

(** The callbacks handed to [processTurn]. *)
Inductive Callback :=
| OnTranscription (text : string)
| OnResponseToken (token accumulated : string)
| OnResponseComplete (text : string)
| OnSynthesisComplete (audio : list Float32) (sampleRate : Z).

Definition callback (c : Closure) (cb : Callback) (w : World) : World :=
  match cb with
  | OnTranscription text => setVoiceTranscript text w
  | OnResponseToken _ accumulated => setVoiceResponse accumulated w
  | OnResponseComplete text =>
      let w := setVoiceResponse text w in
      match onResponseComplete_command text (c_voiceTranscript c) with
      | Next => setTimeout (CallNextStep c) w
      | Previous => setTimeout (CallPrevStep c) w
      | NoCommand => w
      end
  | OnSynthesisComplete audio sampleRate =>
      log (Play (length audio) sampleRate) w
  end.

(** How the promise of [processTurn] settles. *)
Inductive Outcome :=
| Resolved (result : option TurnResult)
| Rejected (err : Js.Thrown).

(** Lines 342-348: the result, or the caught error, is applied. *)
Definition apply_outcome (o : Outcome) (w : World) : World :=
  match o with
  | Resolved (Some result) =>
      w |> setVoiceTranscript (transcription result)
        |> setVoiceResponse (response result)
  | Resolved None => w
  | Rejected err => setError (Some (Js.errorText err)) w
  end.

(** Lines 350-359: [Restart listening]. *)
Definition restart_listening (c : Closure) (mic_ok : bool) (w : World) : World :=
  if decide (c_state c = CookingVoice) then
    let m := length (mics w) in
    w |> new_AudioCapture |> VAD_reset |> mic_start m mic_ok
  else w.

(** [processVoiceCommand] after [await pipeline.processTurn(..)] for the call
    [turn], made by the handler with closure [c]. *)
Definition processVoiceCommand_settled (c : Closure) (turn : nat) (o : Outcome)
    (mic_ok : bool) (w : World) : World :=
  w |> set_calls (filter (λ e, e.1 ≠ turn) (calls w))
    |> log (TurnSettled turn)
    |> apply_outcome o
    |> restart_listening c mic_ok.

(** ** Listening: the callback of [VAD.onSpeechActivity] (source lines 294-301) *)

(** Modelled from the spec: [VAD.popSpeechSegment()] hands out the finished
    utterance once; a second pop returns nothing. *)
Definition VAD_popSpeechSegment (w : World) : option SpeechSegment * World :=
  (vad_segment w, set_vad_segment None w).

Definition onSpeechActivity_callback (c : Closure) (activity : SpeechActivity)
    (w : World) : World :=
  match activity with
  | Ended =>
      let '(segment, w) := VAD_popSpeechSegment w in
      match segment with
      | Some segment =>
          if 1600 <? Z.of_nat (length (samples segment))
          then processVoiceCommand c (samples segment) w
          else w
      | None => w
      end
  | Started => w
  end.

(** The VAD calls every callback registered when the event is raised. *)
Definition VAD_emit (activity : SpeechActivity) (w : World) : World :=
  fold_left (λ w e, onSpeechActivity_callback e.2 activity w) (vad_listeners w) w.

(** Modelled from the spec: [VAD.processSamples(chunk)], the body of the
    [onChunk] callback given to [mic.start].  Whether the chunk starts or ends
    speech is decided by the detector ([verdict]); Silence to Speech raises
    [Started] and begins buffering, Speech to Silence finishes the buffered
    utterance and raises [Ended]. *)
Definition VAD_processSamples (chunk : list Float32)
    (verdict : option SpeechActivity) (w : World) : World :=
  match vad_speech w, verdict with
  | None, Some Started =>
      w |> set_vad_speech (Some chunk) |> VAD_emit Started
  | Some buffered, None =>
      set_vad_speech (Some (buffered ++ chunk)) w
  | Some buffered, Some Ended =>
      w |> set_vad_speech None
        |> set_vad_segment (Some {| samples := buffered ++ chunk |})
        |> VAD_emit Ended
  | _, _ => w
  end.

(** ** Starting and stopping (source lines 248-307 and 362-367) *)

(** What the first [try] block of [startVoiceCooking] runs into. *)
Inductive TtsOutcome :=
| TtsPlayed (audio : list Float32) (sampleRate : Z)
| TtsImportFailed (err : Js.Thrown)
| TtsSynthesizeFailed (err : Js.Thrown)
| TtsPlayFailed (audio : list Float32) (sampleRate : Z) (err : Js.Thrown).

(** Lines 274-282: synthesize and play [stepText]; an exception is logged. *)
Definition speak_step (stepText : string) (tts : TtsOutcome) (w : World) : World :=
  match tts with
  | TtsPlayed audio sampleRate =>
      w |> log (Synthesize stepText) |> log (Play (length audio) sampleRate)
  | TtsImportFailed err =>
      w |> log (ConsoleError (Js.errorText err))
  | TtsSynthesizeFailed err =>
      w |> log (Synthesize stepText) |> log (ConsoleError (Js.errorText err))
  | TtsPlayFailed audio sampleRate err =>
      w |> log (Synthesize stepText) |> log (Play (length audio) sampleRate)
        |> log (ConsoleError (Js.errorText err))
  end.

(** The template literal of line 271. *)
Definition stepText (c : Closure) (r : Recipe) : string :=
  "Step " +:+ Js.ofNumber (c_currentStep c + 1) +:+ ": " +:+ stepAt r (c_currentStep c).

(** [if (!pipelineRef.current) pipelineRef.current = new VoicePipeline()] *)
Definition ensure_pipeline (w : World) : World :=
  match pipelineRef w with
  | Some _ => w
  | None => set_pipelineRef (Some NewVoicePipeline) w
  end.

(** [startVoiceCooking]: [loaded] tells whether [ModelManager] already holds
    the three voice models, [ensure_ok] what [ensureVoiceModels()] answers when
    it is asked, [tts] how the reading of the step goes, [mic_ok] whether the
    microphone can be acquired. *)
Definition startVoiceCooking (c : Closure) (loaded ensure_ok : bool)
    (tts : TtsOutcome) (mic_ok : bool) (w : World) : World :=
  match c_recipe c with
  | None => w
  | Some r =>
      let w := w |> setVoiceTranscript "" |> setVoiceResponse "" |> setError None in
      if negb loaded && negb ensure_ok
      then setError (Some "Failed to load voice models") w
      else
        let w := w |> setState CookingVoice
                   |> setVoiceResponse (stepText c r)
                   |> speak_step (stepText c r) tts in
        let mic := length (mics w) in
        w |> new_AudioCapture
          |> ensure_pipeline
          |> VAD_reset
          |> VAD_onSpeechActivity c
          |> mic_start mic mic_ok
  end.

Definition stopVoiceCooking (w : World) : World :=
  w |> micRef_stop |> vadUnsub_call |> setState RecipeReady |> setAudioLevel 0.

(** ** The event loop

    One [Label] is one handler run by the browser: a click, a chunk or a level
    from a capturing microphone, a callback or the settlement of a pending
    [processTurn] call, or a timer.  [exec] runs the handler when the
    browser can raise it in the given world.  A label [ClickStart] is a
    [startVoiceCooking] whose awaited promises all settle before any other
    handler runs; the event loop of the page, [page_exec], also runs the
    handler one stage at a time, with clicks on Start, Stop or New Recipe in
    between. *)

Inductive Label :=
| ClickStart (c : Closure) (loaded ensure_ok : bool) (tts : TtsOutcome) (mic_ok : bool)
| ClickStop
| ClickNext
| ClickPrevious
| Chunk (chunk : list Float32) (verdict : option SpeechActivity)
| Level (level : Float64)
| PipelineCallback (turn : nat) (cb : Callback)
| PipelineSettles (turn : nat) (o : Outcome) (mic_ok : bool)
| TimerFires.

(** The handler awaiting the pending call [turn]. *)
Fixpoint pending (turn : nat) (l : list (nat * Closure)) : option Closure :=
  match l with
  | [] => None
  | (t, c) :: l' => if decide (t = turn) then Some c else pending turn l'
  end.

Definition exec (l : Label) (w : World) : option World :=
  match l with
  | ClickStart c loaded ensure_ok tts mic_ok =>
      (* the button is rendered for a recipe in state recipe-ready; the
         handler was created by a render with this recipe and step *)
      if decide (state w = RecipeReady ∧ is_Some (recipe w)
                 ∧ c_recipe c = recipe w ∧ c_currentStep c = currentStep w)
      then Some (startVoiceCooking c loaded ensure_ok tts mic_ok w)
      else None
  | ClickStop =>
      if decide (state w = CookingVoice ∧ is_Some (recipe w))
      then Some (stopVoiceCooking w) else None
  | ClickNext =>
      match recipe w with
      | Some r =>
          if decide (state w = RecipeReady ∧ currentStep w ≠ stepCount r - 1)
          then Some (nextStep (render w) w) else None
      | None => None
      end
  | ClickPrevious =>
      if decide (state w = RecipeReady ∧ is_Some (recipe w) ∧ currentStep w ≠ 0)
      then Some (prevStep (render w) w) else None
  | Chunk chunk verdict =>
      if capturing w then
        match vad_speech w, verdict with
        | None, Some Ended | Some _, Some Started => None
        | _, _ => Some (VAD_processSamples chunk verdict w)
        end
      else None
  | Level level =>
      if capturing w then Some (setAudioLevel level w) else None
  | PipelineCallback turn cb =>
      c ← pending turn (calls w); Some (callback c cb w)
  | PipelineSettles turn o mic_ok =>
      c ← pending turn (calls w);
      Some (processVoiceCommand_settled c turn o mic_ok w)
  | TimerFires =>
      match timers w with
      | task :: rest => Some (w |> set_timers rest |> run_task task)
      | [] => None
      end
  end.

Fixpoint run (ls : list Label) (w : World) : option World :=
  match ls with
  | [] => Some w
  | l :: ls' => w' ← exec l w; run ls' w'
  end.

(** The component as mounted, and after [generateRecipe] has stored [r]. *)
Definition mounted : World :=
  {| state := Idle; recipe := None; currentStep := 0; error := None;
     voiceTranscript := ""; voiceResponse := ""; audioLevel := 0;
     micRef := None; pipelineRef := None; vadUnsub := None;
     mics := []; vad_speech := None; vad_segment := None;
     vad_listeners := []; vad_subscriptions := 0;
     calls := []; turns := 0; timers := []; trace := [] |}.

Definition recipe_ready (r : Recipe) : World :=
  mounted |> setRecipe (Some r) |> setError None |> setState RecipeReady.

(** The commands of a list applied in turn, each by the handler of the render
    that follows the previous update. *)
Definition navigate (cmd : NavigationCommand) (w : World) : World :=
  match cmd with
  | Next => nextStep (render w) w
  | Previous => prevStep (render w) w
  | NoCommand => w
  end.

Definition navigate_all (cmds : list NavigationCommand) (w : World) : World :=
  fold_left (λ w cmd, navigate cmd w) cmds w.

(** [s] contains [phrase], whatever the case of the letters of [s]. *)
Definition mentions (s phrase : string) : bool :=
  Js.includes (Js.toLowerCase s) phrase.

(** The step pointer is inside the recipe [r]. *)
Definition in_range (r : Recipe) (i : Z) : Prop := 0 ≤ i ≤ stepCount r - 1.

(** A whole turn in one piece: the handler, the callbacks the pipeline makes
    while the call is pending, and the settlement. *)
Definition run_callbacks (c : Closure) (cbs : list Callback) (w : World) : World :=
  fold_left (λ w cb, callback c cb w) cbs w.

Definition whole_turn (c : Closure) (audioData : list Float32)
    (cbs : list Callback) (o : Outcome) (mic_ok : bool) (w : World) : World :=
  let turn := turns w in
  w |> processVoiceCommand c audioData
    |> run_callbacks c cbs
    |> processVoiceCommand_settled c turn o mic_ok.

(** The log of calls left aside. *)
Definition forget_trace (w : World) : World := set_trace [] w.

(** A processTurn call was made between [w] and [w']. *)
Definition pipeline_invoked (w w' : World) : Prop := turns w' = S (turns w).

(** ** The handler behind the Start button

    [startVoiceCooking] is [useCallback(.., [recipe, currentStep,
    ensureVoiceModels])]: a render keeps the function of the previous render
    when the three dependencies are unchanged, and makes a new one otherwise.
    The function refers to the [processVoiceCommand] of the render that made
    it, so one [Closure] stands for both.  [ensureVoiceModels] depends on the
    objects returned by [useModelLoader], whose code is not part of the
    repository: whether it kept its identity is an argument ([stable]). *)

Record Browser := { world : World; handler : Closure }.

Definition rerender (stable : bool) (h : Closure) (w : World) : Closure :=
  if stable && bool_decide (c_recipe h = recipe w ∧ c_currentStep h = currentStep w)
  then h else render w.

(** A click on Start Voice Cooking runs the handler the button holds. *)
Definition bind_handler (h : Closure) (l : Label) : Label :=
  match l with
  | ClickStart _ loaded ensure_ok tts mic_ok =>
      ClickStart h loaded ensure_ok tts mic_ok
  | _ => l
  end.

(** One handler of the event loop, and the render that follows it. *)
Definition browse (l : Label) (stable : bool) (b : Browser) : option Browser :=
  w' ← exec (bind_handler (handler b) l) (world b);
  Some {| world := w'; handler := rerender stable (handler b) w' |}.

Fixpoint browse_all (ls : list (Label * bool)) (b : Browser) : option Browser :=
  match ls with
  | [] => Some b
  | (l, stable) :: ls' => b' ← browse l stable b; browse_all ls' b'
  end.

(** The page once [generateRecipe] has stored [r]. *)
Definition opened (r : Recipe) : Browser :=
  {| world := recipe_ready r; handler := render (recipe_ready r) |}.

(** The closure was not made by a cooking-voice render. *)
Definition cold (c : Closure) : Prop := c_state c ≠ CookingVoice.

(** Every subscribed or awaiting handler is cold. *)
Definition cold_world (w : World) : Prop :=
  Forall (λ e, cold e.2) (vad_listeners w) ∧ Forall (λ e, cold e.2) (calls w).

(** Up to the end of the first voice session: before it, the state has never
    been cooking-voice and the button holds a cold handler. *)
Definition first_session (b : Browser) : Prop :=
  (vad_subscriptions (world b) = 0%nat →
   state (world b) ≠ CookingVoice ∧ cold (handler b) ∧ cold_world (world b))
  ∧ (vad_subscriptions (world b) = 1%nat → cold_world (world b)).

(** ** Notions used in the statements *)


(** The timer that [onResponseComplete] sets for a command. *)
Definition scheduled (cmd : NavigationCommand) (c : Closure) : list TimerTask :=
  match cmd with
  | Next => [CallNextStep c]
  | Previous => [CallPrevStep c]
  | NoCommand => []
  end.

(** The playback the pipeline asks for once it has synthesized the reply. *)
Definition playback_callbacks (synthesized : option (list Float32 * Z))
  : list Callback :=
  match synthesized with
  | Some (audio, sampleRate) => [OnSynthesisComplete audio sampleRate]
  | None => []
  end.

Definition playback_events (synthesized : option (list Float32 * Z))
  : list Event :=
  match synthesized with
  | Some (audio, sampleRate) => [Play (length audio) sampleRate]
  | None => []
  end.

(** The fields on which the serialization of turns rests. *)
Definition wiring (w : World)
  : option nat * option nat * list bool * list (nat * Closure) * list (nat * Closure) :=
  (micRef w, vadUnsub w, mics w, vad_listeners w, calls w).

(** ** The phases of a session *)

(** Every capturing microphone is the one held in [micRef]. *)
Definition only_mic (w : World) : Prop :=
  ∀ m, mics w !! m = Some true → micRef w = Some m.

(** Where a session stands: no listener and no pending call; one listener,
    the one [vadUnsub] removes, and no pending call; or one pending call, no
    listener and no microphone capturing. *)
Inductive phase (w : World) : Prop :=
| Quiet :
    vad_listeners w = [] → calls w = [] → phase w
| Listening (l : nat) (c : Closure) :
    vad_listeners w = [(l, c)] → vadUnsub w = Some l → calls w = [] → phase w
| Processing (turn : nat) (c : Closure) :
    vad_listeners w = [] → calls w = [(turn, c)] → capturing w = false → phase w.

Definition serialized (w : World) : Prop := only_mic w ∧ phase w.

(** Nothing is capturing, subscribed or pending. *)
Definition quiet (w : World) : Prop :=
  capturing w = false ∧ vad_listeners w = [] ∧ calls w = [].

(** Every handler of the event loop but a new start. *)
Definition session_label (l : Label) : Prop :=
  match l with
  | ClickStart _ _ _ _ _ => False
  | _ => True
  end.

(** What [micRef.current?.stop()] and [vadUnsub.current?.()] add to the log. *)
Definition stop_events (w : World) : list Event :=
  match micRef w with Some m => [MicStop m] | None => [] end
  ++ match vadUnsub w with Some l => [VadUnsubscribe l] | None => [] end.

(** ** Sample data *)

Definition soup : Recipe :=
  {| name := "Soup"; ingredients := [];
     steps := ["Chop the onions"; "Boil the stock"; "Serve"];
     cookTime := None; difficulty := None; nutrition := None |}.

(** The handler of a render made while the state was cooking-voice. *)
Definition cooking_closure (r : Recipe) : Closure :=
  {| c_recipe := Some r; c_currentStep := 0;
     c_state := CookingVoice; c_voiceTranscript := "" |}.

(** A world in which [startVoiceCooking] has run for [soup]. *)
Definition listening_soup : World :=
  startVoiceCooking (cooking_closure soup) true true (TtsPlayed [0; 0; 0] 22050)
    true (recipe_ready soup).

(** A click on Start Voice Cooking with the handler of the current render,
    the models loaded, the step read aloud and the microphone granted. *)
Definition start_click (w : World) : Label :=
  ClickStart (render w) true true (TtsPlayed [0; 0; 0] 22050) true.

(** The same click in [browse]: the closure is the one the button holds. *)
Definition start_button : Label :=
  ClickStart (render mounted) true true (TtsPlayed [0; 0; 0] 22050) true.

(** An utterance of [n] samples as the detector sees it. *)
Definition utterance (n : nat) : list Label :=
  [Chunk [] (Some Started); Chunk (repeat 0 n) None; Chunk [] (Some Ended)].

(** * The rest of the component: scanning, recipe generation, parsing

    The functions of [RecipeSnapTab.tsx] outside the voice session:
    [startCamera], [scanIngredients], [generateRecipe], [parseRecipeText],
    [ensureVoiceModels], [resetRecipe] and the cleanup of the first
    [useEffect].  Strings are byte strings; whitespace and digits are the
    ASCII ones ([trim] and the class [\s] of JavaScript also know the
    Unicode spaces, which the model leaves alone). *)

(** ** More of the string methods the code uses *)

Module JsString.

(** The ASCII members of the class [\s], which are also what [trim] strips:
    tab, line feed, vertical tab, form feed, carriage return, space.  The
    white space outside ASCII that the engine strips as well (U+00A0 and
    others) is not part of the model. *)
Definition is_space (c : ascii) : bool :=
  let n := N_of_ascii c in
  (((9 <=? n) && (n <=? 13)) || (n =? 32))%N.

(** The class [\d]. *)
Definition is_digit (c : ascii) : bool :=
  let n := N_of_ascii c in
  ((48 <=? n) && (n <=? 57))%N.

(** [s.trimStart()] *)
Fixpoint trimStart (s : string) : string :=
  match s with
  | EmptyString => EmptyString
  | String c s' => if is_space c then trimStart s' else s
  end.

(** [s.trimEnd()] *)
Fixpoint trimEnd (s : string) : string :=
  match s with
  | EmptyString => EmptyString
  | String c s' =>
      match trimEnd s' with
      | EmptyString => if is_space c then EmptyString else String c EmptyString
      | t => String c t
      end
  end.

(** [s.trim()] *)
Definition trim (s : string) : string := trimEnd (trimStart s).

(** [s.split(sep)] for a separator of one character. *)
Fixpoint split (sep : ascii) (s : string) : list string :=
  match s with
  | EmptyString => [EmptyString]
  | String c s' =>
      if decide (c = sep) then EmptyString :: split sep s'
      else match split sep s' with
           | piece :: pieces => String c piece :: pieces
           | [] => [String c EmptyString]
           end
  end.

(** [pieces.join(sep)] *)
Fixpoint join (sep : string) (pieces : list string) : string :=
  match pieces with
  | [] => EmptyString
  | [piece] => piece
  | piece :: pieces' => piece +:+ sep +:+ join sep pieces'
  end.

(** [s.startsWith(p)] *)
Definition startsWith (s p : string) : bool := String.prefix p s.

(** [s.slice(n)] *)
Fixpoint slice (n : nat) (s : string) : string :=
  match n, s with
  | O, _ => s
  | S n', String _ s' => slice n' s'
  | S _, EmptyString => EmptyString
  end.

(** [s.replace(pattern, replacement)] for a string pattern: the first
    occurrence only. *)
Fixpoint replace (pattern replacement s : string) : string :=
  if String.prefix pattern s
  then replacement +:+ slice (String.length pattern) s
  else match s with
       | EmptyString => EmptyString
       | String c s' => String c (replace pattern replacement s')
       end.

(** What the greedy [\d+] at the start of [s] leaves. *)
Fixpoint after_digits (s : string) : string :=
  match s with
  | EmptyString => EmptyString
  | String c s' => if is_digit c then after_digits s' else s
  end.

(** What [/^\d+\./] leaves of [s] when it matches. *)
Definition after_number (s : string) : option string :=
  match s with
  | String c _ =>
      if is_digit c
      then match after_digits s with
           | String "."%char rest => Some rest
           | _ => None
           end
      else None
  | EmptyString => None
  end.

(** [/^\d+\./.test(s)] *)
Definition test_number (s : string) : bool :=
  match after_number s with Some _ => true | None => false end.

(** [s.replace(/^\d+\.\s*/, '')] *)
Definition replace_number (s : string) : string :=
  match after_number s with
  | Some rest => trimStart rest
  | None => s
  end.

(** [s.replace(/^-\s*/, '')] *)
Definition replace_dash (s : string) : string :=
  match s with
  | String "-"%char rest => trimStart rest
  | _ => s
  end.

(** The bullet U+2022 as its three bytes. *)
Definition bullet : string :=
  String (ascii_of_nat 226) (String (ascii_of_nat 128)
    (String (ascii_of_nat 162) EmptyString)).

(** [s.replace(/^[-•*]\s*/, '')] *)
Definition replace_bullet (s : string) : string :=
  match s with
  | String "-"%char rest => trimStart rest
  | String "*"%char rest => trimStart rest
  | _ =>
      if String.prefix bullet s then trimStart (slice 3 s) else s
  end.

(** [Boolean(s)] *)
Definition truthy (s : string) : bool :=
  match s with EmptyString => false | _ => true end.

End JsString.

(** ** [parseRecipeText] (source lines 200-233) *)

(** [currentSection] *)
Inductive RecipeSection := NoSection | IngredientsSection | StepsSection.

(** The variables of the loop. *)
Record Parsing := {
  p_name : string;
  p_cookTime : string;
  p_difficulty : string;
  p_nutrition : string;
  p_ingredients : list Ingredient;
  p_steps : list string;
  p_section : RecipeSection
}.

Definition parsing_start : Parsing :=
  {| p_name := "Delicious Recipe"; p_cookTime := "Unknown";
     p_difficulty := "Medium"; p_nutrition := "N/A";
     p_ingredients := []; p_steps := []; p_section := NoSection |}.

(** [line.replace(key, '').trim()] *)
Definition value_after (key line : string) : string :=
  JsString.trim (JsString.replace key "" line).

(** The body of the loop. *)
Definition parse_line (st : Parsing) (line : string) : Parsing :=
  if JsString.startsWith line "RECIPE NAME:" then
    {| p_name := value_after "RECIPE NAME:" line; p_cookTime := p_cookTime st;
       p_difficulty := p_difficulty st; p_nutrition := p_nutrition st;
       p_ingredients := p_ingredients st; p_steps := p_steps st;
       p_section := p_section st |}
  else if JsString.startsWith line "COOK TIME:" then
    {| p_name := p_name st; p_cookTime := value_after "COOK TIME:" line;
       p_difficulty := p_difficulty st; p_nutrition := p_nutrition st;
       p_ingredients := p_ingredients st; p_steps := p_steps st;
       p_section := p_section st |}
  else if JsString.startsWith line "DIFFICULTY:" then
    {| p_name := p_name st; p_cookTime := p_cookTime st;
       p_difficulty := value_after "DIFFICULTY:" line;
       p_nutrition := p_nutrition st;
       p_ingredients := p_ingredients st; p_steps := p_steps st;
       p_section := p_section st |}
  else if JsString.startsWith line "NUTRITION:" then
    {| p_name := p_name st; p_cookTime := p_cookTime st;
       p_difficulty := p_difficulty st;
       p_nutrition := value_after "NUTRITION:" line;
       p_ingredients := p_ingredients st; p_steps := p_steps st;
       p_section := p_section st |}
  else if decide (line = "INGREDIENTS:") then
    {| p_name := p_name st; p_cookTime := p_cookTime st;
       p_difficulty := p_difficulty st; p_nutrition := p_nutrition st;
       p_ingredients := p_ingredients st; p_steps := p_steps st;
       p_section := IngredientsSection |}
  else if decide (line = "STEPS:") then
    {| p_name := p_name st; p_cookTime := p_cookTime st;
       p_difficulty := p_difficulty st; p_nutrition := p_nutrition st;
       p_ingredients := p_ingredients st; p_steps := p_steps st;
       p_section := StepsSection |}
  else
    match p_section st with
    | IngredientsSection =>
        if JsString.startsWith line "-" then
          {| p_name := p_name st; p_cookTime := p_cookTime st;
             p_difficulty := p_difficulty st; p_nutrition := p_nutrition st;
             p_ingredients :=
               p_ingredients st
               ++ [{| ing_name := JsString.replace_dash line; quantity := None |}];
             p_steps := p_steps st; p_section := p_section st |}
        else st
    | StepsSection =>
        if JsString.test_number line then
          {| p_name := p_name st; p_cookTime := p_cookTime st;
             p_difficulty := p_difficulty st; p_nutrition := p_nutrition st;
             p_ingredients := p_ingredients st;
             p_steps := p_steps st ++ [JsString.replace_number line];
             p_section := p_section st |}
        else st
    | NoSection => st
    end.

(** [text.split('\n').map(l => l.trim()).filter(Boolean)] *)
Definition recipe_lines (text : string) : list string :=
  List.filter JsString.truthy
    (map JsString.trim (JsString.split (ascii_of_nat 10) text)).

Definition parseRecipeText (text : string) : Recipe :=
  let st := fold_left parse_line (recipe_lines text) parsing_start in
  {| name := p_name st; ingredients := p_ingredients st; steps := p_steps st;
     cookTime := Some (p_cookTime st); difficulty := Some (p_difficulty st);
     nutrition := Some (p_nutrition st) |}.

(** The line feed, as a character and as a string. *)
Definition LF : ascii := ascii_of_nat 10.
Definition newline : string := String LF EmptyString.

(** [s] holds no line feed. *)
Fixpoint single_line (s : string) : bool :=
  match s with
  | EmptyString => true
  | String c s' => negb (bool_decide (c = LF)) && single_line s'
  end.

(** [s] is what [trim] makes of it: no white space at either end. *)
Definition trimmed (s : string) : Prop := JsString.trim s = s.

(** A text a model can write as one field of a line. *)
Definition field (s : string) : Prop := trimmed s ∧ single_line s = true.

(** The value of the last of [lines] that starts with [key], if there is one. *)
Definition last_value (key : string) (lines : list string) : option string :=
  value_after key <$> last (List.filter (λ l, JsString.startsWith l key) lines).

(** The header fields of the state of the loop. *)
Definition header_fields (st : Parsing) : string * string * string * string :=
  (p_name st, p_cookTime st, p_difficulty st, p_nutrition st).

(** A line of [recipe_lines]: trimmed, not empty, without a line feed. *)
Definition text_line (l : string) : Prop :=
  trimmed l ∧ l ≠ EmptyString ∧ single_line l = true.


(** Every text of the loop state is a field, and no quantity is set. *)
Definition fields_only (st : Parsing) : Prop :=
  field (p_name st) ∧ field (p_cookTime st) ∧ field (p_difficulty st)
  ∧ field (p_nutrition st)
  ∧ Forall (λ i, field (ing_name i) ∧ quantity i = None) (p_ingredients st)
  ∧ Forall field (p_steps st).

(** A reply whose section headers are written as Markdown headings. *)
Definition markdown_reply : string :=
  "RECIPE NAME: Omelette" +:+ newline +:+
  "## INGREDIENTS:" +:+ newline +:+ "- eggs" +:+ newline +:+
  "**STEPS:**" +:+ newline +:+ "1. Beat the eggs" +:+ newline +:+ "2. Fry".

(** A recipe as the parser makes them: every text is a field, the three
    optional texts are present, no ingredient has a quantity. *)
Definition plain_recipe (r : Recipe) : Prop :=
  field (name r)
  ∧ (∃ t, cookTime r = Some t ∧ field t)
  ∧ (∃ d, difficulty r = Some d ∧ field d)
  ∧ (∃ n, nutrition r = Some n ∧ field n)
  ∧ Forall (λ i, field (ing_name i) ∧ quantity i = None) (ingredients r)
  ∧ Forall field (steps r).

(** The numbered lines [k. step], [k+1. step], ... *)
Fixpoint numbered (k : Z) (steps : list string) : list string :=
  match steps with
  | [] => []
  | s :: steps' => (Js.ofNumber k +:+ ". " +:+ s) :: numbered (k + 1) steps'
  end.

(** The reply the prompt of [generateRecipe] asks for (source lines 168-180),
    written for the recipe [r]. *)
Definition requested_lines (r : Recipe) : list string :=
  ["RECIPE NAME: " +:+ name r;
   "COOK TIME: " +:+ default "" (cookTime r);
   "DIFFICULTY: " +:+ default "" (difficulty r);
   "";
   "INGREDIENTS:"]
  ++ map (λ i, "- " +:+ ing_name i) (ingredients r)
  ++ [""; "STEPS:"]
  ++ numbered 1 (steps r)
  ++ [""; "NUTRITION: " +:+ default "" (nutrition r)].

Definition requested_format (r : Recipe) : string :=
  JsString.join newline (requested_lines r).

(** The loop run on the lines [raw], trimmed, the empty ones dropped. *)
Definition feed (st : Parsing) (raw : list string) : Parsing :=
  fold_left parse_line (List.filter JsString.truthy (map JsString.trim raw)) st.

(** [" " + x], or nothing when [x] is empty: what [trimEnd] leaves of it. *)
Definition tail_of (x : string) : string :=
  match x with
  | EmptyString => EmptyString
  | _ => String " " x
  end.

(** Every character is a decimal digit. *)
Fixpoint all_digits (s : string) : bool :=
  match s with
  | EmptyString => true
  | String c s' => JsString.is_digit c && all_digits s'
  end.

(** ** The ingredient lists (source lines 119-123 and 145-153) *)

(** The test of the [filter] of line 123. *)
Definition keeps_ingredient (line : string) : bool :=
  (0 <? String.length line)%nat
  && negb (Js.includes (Js.toLowerCase line) "cannot")
  && negb (Js.includes (Js.toLowerCase line) "unable").

(** The [ingredients] of [scanIngredients]: the reply of the vision model,
    one ingredient per line, bullets removed, refusals dropped. *)
Definition scanned_ingredients (text : string) : list string :=
  List.filter keeps_ingredient
    (map (λ line, JsString.replace_bullet (JsString.trim line))
         (JsString.split LF text)).

(** [allIngredients] of [generateRecipe]. *)
Definition allIngredients (detectedIngredients : list string)
    (customIngredients : string) : list string :=
  detectedIngredients
  ++ List.filter JsString.truthy
       (map JsString.trim (JsString.split ","%char customIngredients)).

(** The [disabled] attribute of the Generate button (source line 464). *)
Definition generate_disabled (st : RecipeState)
    (detectedIngredients : list string) (customIngredients : string) : bool :=
  bool_decide (st = GeneratingRecipe)
  || ((length detectedIngredients =? 0)%nat
      && negb (JsString.truthy (JsString.trim customIngredients))).

(** Every character of [s] passes [f]. *)
Fixpoint every (f : ascii → bool) (s : string) : bool :=
  match s with
  | EmptyString => true
  | String c s' => f c && every f s'
  end.

(** Every character of [s] is ASCII.  On such a text the white space that
    [trim] and the class [\s] strip, the digits of [\d] and the letters that
    [toLowerCase] folds are exactly the ones of this model. *)
Definition ascii_text (s : string) : bool :=
  every (λ c, (N_of_ascii c <? 128)%N) s.

(** [s] is made of white space only. *)
Definition blank (s : string) : bool := every JsString.is_space s.

(** [s] is made of commas and white space only. *)
Definition only_separators (s : string) : bool :=
  every (λ c, JsString.is_space c || bool_decide (c = ","%char)) s.

(** A line the scan keeps as it is: an ASCII field that is not empty, does
    not begin with a bullet and does not read as a refusal. *)
Definition ingredient_name (s : string) : Prop :=
  ascii_text s = true
  ∧ field s ∧ JsString.replace_bullet s = s ∧ keeps_ingredient s = true.

(** ** The page: camera, scan and recipe generation

    The rest of the state of the component and the handlers of the first two
    steps.  [VideoCapture], the vision model and the language model belong to
    the SDK: what they answer ([isCapturing], whether [start] succeeds, the
    reply or the exception of a model) is an argument of the handler.  As for
    the voice turn, an [async] handler is cut at its [await]: the part up to
    it runs at the click and leaves a [Pending] entry, the rest runs when the
    entry settles. *)

(** A call on a [VideoCapture] object or on its video element. *)
Inductive CameraEvent :=
| CameraStart (cam : nat)
| CameraStop (cam : nat)
| AppendChild (cam : nat)
| RemoveChild (cam : nat).

#[global] Instance CameraEvent_eq_dec : EqDecision CameraEvent.
Proof. solve_decision. Defined.

#[global] Instance Closure_eq_dec : EqDecision Closure.
Proof. solve_decision. Defined.

(** The [await]s of [startVoiceCooking] (source lines 248-307) at which
    other handlers can run: [await ensureVoiceModels()] (line 261),
    [await import(..)] (line 275), [await tts.synthesize(..)] (line 276) and
    [await player.play(..)] (line 278).  Nothing follows the last one,
    [await mic.start(..)]. *)
Inductive StartStage :=
| EnsuringModels
| ImportingSpeech
| Synthesizing
| Playing.

#[global] Instance StartStage_eq_dec : EqDecision StartStage.
Proof. solve_decision. Defined.

(** An [async] handler waiting at its [await]; a [startVoiceCooking] waits
    with the values [c] that its render captured. *)
Inductive Pending :=
| AwaitCameraStart (cam : nat)
| AwaitScan (cam : nat)
| AwaitGenerate (prompt : string)
| AwaitStart (stage : StartStage) (c : Closure).

#[global] Instance Pending_eq_dec : EqDecision Pending.
Proof. solve_decision. Defined.

Record Page := {
  (* the state and the objects of the voice session *)
  voice : World;
  (* useState *)
  cameraActive : bool;
  detectedIngredients : list string;
  customIngredients : string;
  (* useRef: the handle of the VideoCapture, or null *)
  captureRef : option nat;
  (* the number of VideoCapture objects made so far *)
  cameras : nat;
  (* the cameras whose video element has a parent node *)
  attached : list nat;
  (* the handlers waiting at an await, oldest first *)
  awaiting : list Pending;
  (* the calls made on cameras and video elements, oldest first *)
  camera_log : list CameraEvent
}.

Definition set_voice (v : World) (p : Page) : Page :=
  Build_Page v (cameraActive p) (detectedIngredients p) (customIngredients p)
    (captureRef p) (cameras p) (attached p) (awaiting p) (camera_log p).
Definition setCameraActive (v : bool) (p : Page) : Page :=
  Build_Page (voice p) v (detectedIngredients p) (customIngredients p)
    (captureRef p) (cameras p) (attached p) (awaiting p) (camera_log p).
Definition setDetectedIngredients (v : list string) (p : Page) : Page :=
  Build_Page (voice p) (cameraActive p) v (customIngredients p)
    (captureRef p) (cameras p) (attached p) (awaiting p) (camera_log p).
Definition setCustomIngredients (v : string) (p : Page) : Page :=
  Build_Page (voice p) (cameraActive p) (detectedIngredients p) v
    (captureRef p) (cameras p) (attached p) (awaiting p) (camera_log p).
Definition set_captureRef (v : option nat) (p : Page) : Page :=
  Build_Page (voice p) (cameraActive p) (detectedIngredients p)
    (customIngredients p) v (cameras p) (attached p) (awaiting p)
    (camera_log p).
Definition set_cameras (v : nat) (p : Page) : Page :=
  Build_Page (voice p) (cameraActive p) (detectedIngredients p)
    (customIngredients p) (captureRef p) v (attached p) (awaiting p)
    (camera_log p).
Definition set_attached (v : list nat) (p : Page) : Page :=
  Build_Page (voice p) (cameraActive p) (detectedIngredients p)
    (customIngredients p) (captureRef p) (cameras p) v (awaiting p)
    (camera_log p).
Definition set_awaiting (v : list Pending) (p : Page) : Page :=
  Build_Page (voice p) (cameraActive p) (detectedIngredients p)
    (customIngredients p) (captureRef p) (cameras p) (attached p) v
    (camera_log p).
Definition set_camera_log (v : list CameraEvent) (p : Page) : Page :=
  Build_Page (voice p) (cameraActive p) (detectedIngredients p)
    (customIngredients p) (captureRef p) (cameras p) (attached p)
    (awaiting p) v.

(** A setter of the voice part run on the page. *)
Definition on_voice (f : World → World) (p : Page) : Page :=
  set_voice (f (voice p)) p.

Definition camera_call (e : CameraEvent) (p : Page) : Page :=
  set_camera_log (camera_log p ++ [e]) p.

Definition await (a : Pending) (p : Page) : Page :=
  set_awaiting (awaiting p ++ [a]) p.

(** [videoMountRef.current]: the [div] that carries the ref is rendered by
    lines 415-428 only when there is no recipe and [cameraActive] is set;
    otherwise the ref is null. *)
Definition videoMountRef (p : Page) : bool :=
  bool_decide (recipe (voice p) = None) && cameraActive p.

(** [cam.videoElement.parentNode?.removeChild(cam.videoElement)] *)
Definition remove_videoElement (cam : nat) (p : Page) : Page :=
  if bool_decide (cam ∈ attached p)
  then p |> set_attached (List.filter (λ c, negb (c =? cam)%nat) (attached p))
         |> camera_call (RemoveChild cam)
  else p.

(** [startCamera] (source lines 68-84) up to [await cam.start()].
    [isCapturing] is what the camera of [captureRef] answers, if there is
    one. *)
Definition startCamera (isCapturing : bool) (p : Page) : Page :=
  if bool_decide (is_Some (captureRef p)) && isCapturing then p
  else
    let cam := cameras p in
    p |> set_cameras (S cam)
      |> camera_call (CameraStart cam)
      |> await (AwaitCameraStart cam).

(** [startCamera] after [await cam.start()]; when the promise is rejected
    the exception leaves the handler and the rest is skipped. *)
Definition startCamera_settled (cam : nat) (started : bool) (p : Page) : Page :=
  if started then
    let p := set_captureRef (Some cam) p in
    let p := if videoMountRef p
             then p |> set_attached (attached p ++ [cam])
                    |> camera_call (AppendChild cam)
             else p in
    setCameraActive true p
  else p.

(** What the [try] block of [scanIngredients] runs into. *)
Inductive ScanOutcome :=
| EnsureFailed (err : Js.Thrown)
| NoFrame
| ModelNotLoaded
| ProcessFailed (err : Js.Thrown)
| Processed (text : string).

(** [scanIngredients] (source lines 86-139) up to its first [await]. *)
Definition scanIngredients (isCapturing : bool) (p : Page) : Page :=
  match captureRef p with
  | Some cam =>
      if isCapturing
      then p |> on_voice (setState Scanning)
             |> on_voice (setError None)
             |> await (AwaitScan cam)
      else startCamera isCapturing p
  | None => startCamera isCapturing p
  end.

(** The message the [catch] of [scanIngredients] shows. *)
Definition scan_error (o : ScanOutcome) : option string :=
  match o with
  | EnsureFailed err => Some (Js.errorText err)
  | NoFrame => Some "Failed to capture frame"
  | ModelNotLoaded => Some "VLM model not loaded"
  | ProcessFailed err => Some (Js.errorText err)
  | Processed _ => None
  end.

(** The rest of [scanIngredients], for the camera [cam] it read at the click. *)
Definition scanIngredients_settled (cam : nat) (o : ScanOutcome) (p : Page)
  : Page :=
  match o with
  | Processed text =>
      p |> setDetectedIngredients (scanned_ingredients text)
        |> on_voice (setState Idle)
        |> camera_call (CameraStop cam)
        |> remove_videoElement cam
        |> set_captureRef None
        |> setCameraActive false
  | _ =>
      p |> on_voice (setError (scan_error o))
        |> on_voice (setState Idle)
  end.

(** The template literal of lines 164-182. *)
Definition recipe_prompt (allIngredients : list string) : string :=
  "You are an expert chef. Given these ingredients: "
  +:+ JsString.join ", " allIngredients +:+ "." +:+ newline
  +:+ newline
  +:+ "Create a delicious recipe using as many of these ingredients as "
  +:+ "possible. Format your response EXACTLY like this:" +:+ newline
  +:+ newline
  +:+ "RECIPE NAME: [name]" +:+ newline
  +:+ "COOK TIME: [time]" +:+ newline
  +:+ "DIFFICULTY: [Easy/Medium/Hard]" +:+ newline
  +:+ newline
  +:+ "INGREDIENTS:" +:+ newline
  +:+ "- [ingredient 1]" +:+ newline
  +:+ "- [ingredient 2]" +:+ newline
  +:+ newline
  +:+ "STEPS:" +:+ newline
  +:+ "1. [step 1]" +:+ newline
  +:+ "2. [step 2]" +:+ newline
  +:+ newline
  +:+ "NUTRITION: [brief nutrition info]" +:+ newline
  +:+ newline
  +:+ "Keep it practical and tasty!".

(** What the [try] block of [generateRecipe] runs into. *)
Inductive GenerateOutcome :=
| GenerateFailed (err : Js.Thrown)
| Generated (text : string).

(** [generateRecipe] (source lines 144-198) up to its first [await]. *)
Definition generateRecipe (p : Page) : Page :=
  let all := allIngredients (detectedIngredients p) (customIngredients p) in
  if (length all =? 0)%nat
  then on_voice (setError (Some "Please scan or add ingredients first")) p
  else p |> on_voice (setState GeneratingRecipe)
         |> on_voice (setError None)
         |> await (AwaitGenerate (recipe_prompt all)).

(** The rest of [generateRecipe]. *)
Definition generateRecipe_settled (o : GenerateOutcome) (p : Page) : Page :=
  match o with
  | Generated text =>
      p |> on_voice (setRecipe (Some (parseRecipeText text)))
        |> on_voice (setState RecipeReady)
  | GenerateFailed err =>
      p |> on_voice (setError (Some (Js.errorText err)))
        |> on_voice (setState Idle)
  end.

(** [resetRecipe] (source lines 381-387) *)
Definition resetRecipe (p : Page) : Page :=
  p |> on_voice (setRecipe None)
    |> setDetectedIngredients []
    |> setCustomIngredients ""
    |> on_voice (setCurrentStep 0)
    |> on_voice (setState Idle).


(** The models [ModelManager] holds, or the answers of the four [ensure]. *)
Record VoiceModels := {
  vad_model : bool;
  stt_model : bool;
  llm_model : bool;
  tts_model : bool
}.

(** [anyMissing] (source lines 256-258) *)
Definition anyMissing (loaded : VoiceModels) : bool :=
  negb (vad_model loaded) || negb (stt_model loaded) || negb (tts_model loaded).

(** [ensureVoiceModels] (source lines 238-246): [results.every(Boolean)]. *)
Definition ensureVoiceModels (results : VoiceModels) : bool :=
  vad_model results && stt_model results && llm_model results
  && tts_model results.

(** [startVoiceCooking] with the models spelled out: [loaded] is what
    [ModelManager.getLoadedModel] finds, [results] what the four loaders
    answer when [ensureVoiceModels] is called. *)
Definition startVoiceCooking_with (c : Closure) (loaded results : VoiceModels)
    (tts : TtsOutcome) (mic_ok : bool) (w : World) : World :=
  startVoiceCooking c (negb (anyMissing loaded)) (ensureVoiceModels results)
    tts mic_ok w.

(** ** [startVoiceCooking] in stages (source lines 248-307)

    The handler as the event loop runs it: the part up to its first [await]
    at the click, and the part between two [await]s when the awaited promise
    settles.  Other handlers can run in between: the Start button is rendered
    until [setState('cooking-voice')] has run, that is until the models are
    there, and Stop and New Recipe can be clicked while the step is read. *)

(** Lines 284-306: the microphone, the pipeline, the segmenter. *)
Definition start_listening (c : Closure) (mic_ok : bool) (w : World) : World :=
  let mic := length (mics w) in
  w |> new_AudioCapture
    |> ensure_pipeline
    |> VAD_reset
    |> VAD_onSpeechActivity c
    |> mic_start mic mic_ok.

(** Lines 268-275: the models are there; up to [await import(..)]. *)
Definition start_cooking (c : Closure) (r : Recipe) (p : Page) : Page :=
  p |> on_voice (setState CookingVoice)
    |> on_voice (setVoiceResponse (stepText c r))
    |> await (AwaitStart ImportingSpeech c).

(** Lines 249-261: the click.  [loaded] tells whether [ModelManager] holds
    the three voice models, that is whether [anyMissing] is false. *)
Definition startVoiceCooking_clicked (c : Closure) (loaded : bool) (p : Page)
  : Page :=
  match c_recipe c with
  | None => p
  | Some r =>
      let p := p |> on_voice (setVoiceTranscript "")
                 |> on_voice (setVoiceResponse "")
                 |> on_voice (setError None) in
      if loaded then start_cooking c r p
      else await (AwaitStart EnsuringModels c) p
  end.

(** How an awaited promise of [startVoiceCooking] settles. *)
Inductive StartOutcome :=
| ModelsEnsured (ok : bool)
| SpeechImported
| Synthesized (audio : list Float32) (sampleRate : Z)
| Played
| Thrown (err : Js.Thrown).

(** Line 281: the [catch] of the first [try] block logs and goes on. *)
Definition start_caught (c : Closure) (err : Js.Thrown) (mic_ok : bool)
    (p : Page) : Page :=
  p |> on_voice (log (ConsoleError (Js.errorText err)))
    |> on_voice (start_listening c mic_ok).

(** The handler resumes after the [await] of [stage].  A promise rejected
    outside the [try] block ends the handler; an outcome that the awaited
    promise cannot have resumes nothing. *)
Definition startVoiceCooking_resumed (stage : StartStage) (c : Closure)
    (o : StartOutcome) (mic_ok : bool) (p : Page) : option Page :=
  match stage, o with
  | EnsuringModels, ModelsEnsured true =>
      match c_recipe c with
      | Some r => Some (start_cooking c r p)
      | None => None
      end
  | EnsuringModels, ModelsEnsured false =>
      Some (on_voice (setError (Some "Failed to load voice models")) p)
  | EnsuringModels, Thrown _ => Some p
  | ImportingSpeech, SpeechImported =>
      match c_recipe c with
      | Some r =>
          Some (p |> on_voice (log (Synthesize (stepText c r)))
                  |> await (AwaitStart Synthesizing c))
      | None => None
      end
  | Synthesizing, Synthesized audio sampleRate =>
      Some (p |> on_voice (log (Play (length audio) sampleRate))
              |> await (AwaitStart Playing c))
  | Playing, Played => Some (on_voice (start_listening c mic_ok) p)
  | ImportingSpeech, Thrown err
  | Synthesizing, Thrown err
  | Playing, Thrown err => Some (start_caught c err mic_ok p)
  | _, _ => None
  end.

(** ** The event loop of the page *)

Inductive PageLabel :=
| Voice (l : Label)
| ClickOpenCamera (isCapturing : bool)
| ClickScan (isCapturing : bool)
| CameraStarts (cam : nat) (started : bool)
| ScanSettles (cam : nat) (o : ScanOutcome)
| TypeIngredients (value : string)
| ClickGenerate
| GenerateSettles (prompt : string) (o : GenerateOutcome)
| ClickNewRecipe
| StartClicked (c : Closure) (loaded : bool)
| StartResumes (stage : StartStage) (c : Closure) (o : StartOutcome)
    (mic_ok : bool).

(** The first occurrence of [a] taken out of [l], when there is one. *)
Fixpoint settle (a : Pending) (l : list Pending) : option (list Pending) :=
  match l with
  | [] => None
  | b :: l' => if decide (b = a) then Some l' else (b ::.) <$> settle a l'
  end.

(** [page_exec] runs a handler when the page shows the button for it
    (source lines 415-469 and 511-520), or when the entry it settles is
    pending.  A label [Voice (ClickStart ..)] is a start whose promises all
    settle before any other handler runs; [StartClicked] and [StartResumes]
    are the same handler with other handlers in between. *)
Definition page_exec (l : PageLabel) (p : Page) : option Page :=
  match l with
  | Voice l =>
      w ← exec l (voice p); Some (set_voice w p)
  | ClickOpenCamera isCapturing =>
      if bool_decide (recipe (voice p) = None) && negb (cameraActive p)
      then Some (startCamera isCapturing p) else None
  | ClickScan isCapturing =>
      if bool_decide (recipe (voice p) = None) && cameraActive p
         && negb (bool_decide (state (voice p) = Scanning))
      then Some (scanIngredients isCapturing p) else None
  | CameraStarts cam started =>
      rest ← settle (AwaitCameraStart cam) (awaiting p);
      Some (p |> set_awaiting rest |> startCamera_settled cam started)
  | ScanSettles cam o =>
      rest ← settle (AwaitScan cam) (awaiting p);
      Some (p |> set_awaiting rest |> scanIngredients_settled cam o)
  | TypeIngredients value =>
      if bool_decide (recipe (voice p) = None)
      then Some (setCustomIngredients value p) else None
  | ClickGenerate =>
      if bool_decide (recipe (voice p) = None)
         && negb (generate_disabled (state (voice p)) (detectedIngredients p)
                    (customIngredients p))
      then Some (generateRecipe p) else None
  | GenerateSettles prompt o =>
      rest ← settle (AwaitGenerate prompt) (awaiting p);
      Some (p |> set_awaiting rest |> generateRecipe_settled o)
  | ClickNewRecipe =>
      if bool_decide (is_Some (recipe (voice p)))
         && bool_decide (state (voice p) = RecipeReady)
      then Some (resetRecipe p) else None
  | StartClicked c loaded =>
      if decide (state (voice p) = RecipeReady ∧ is_Some (recipe (voice p))
                 ∧ c_recipe c = recipe (voice p)
                 ∧ c_currentStep c = currentStep (voice p))
      then Some (startVoiceCooking_clicked c loaded p) else None
  | StartResumes stage c o mic_ok =>
      rest ← settle (AwaitStart stage c) (awaiting p);
      startVoiceCooking_resumed stage c o mic_ok (set_awaiting rest p)
  end.

Fixpoint page_run (ls : list PageLabel) (p : Page) : option Page :=
  match ls with
  | [] => Some p
  | l :: ls' => p' ← page_exec l p; page_run ls' p'
  end.

(** The page as mounted. *)
Definition mounted_page : Page :=
  {| voice := mounted; cameraActive := false; detectedIngredients := [];
     customIngredients := ""; captureRef := None; cameras := 0;
     attached := []; awaiting := []; camera_log := [] |}.

(** ** Notions used in the statements about the page *)

(** The entry is a [startVoiceCooking] waiting at an [await]. *)
Definition awaits_start (a : Pending) : bool :=
  match a with
  | AwaitStart _ _ => true
  | _ => false
  end.

(** Nothing of a recipe or of a voice session is left on the page: no
    recipe, the step pointer on the first step, no timer, no pending turn,
    no microphone capturing and no [startVoiceCooking] waiting. *)
Definition fresh (p : Page) : Prop :=
  recipe (voice p) = None ∧ currentStep (voice p) = 0
  ∧ timers (voice p) = [] ∧ calls (voice p) = []
  ∧ capturing (voice p) = false
  ∧ Forall (λ a, awaits_start a = false) (awaiting p).

(** The label is the arrival of a reply of the language model. *)
Definition delivers (l : PageLabel) : bool :=
  match l with
  | GenerateSettles _ (Generated _) => true
  | _ => false
  end.

(** What every page reached from the mounted one satisfies: the state is
    scanning or generating-recipe only while such a call is awaited, the
    camera view is shown exactly when the page holds a camera, and the state
    is recipe-ready only with a recipe. *)
Definition page_invariant (p : Page) : Prop :=
  (state (voice p) = Scanning → ∃ cam, AwaitScan cam ∈ awaiting p)
  ∧ (state (voice p) = GeneratingRecipe →
     ∃ prompt, AwaitGenerate prompt ∈ awaiting p)
  ∧ (cameraActive p = true ↔ is_Some (captureRef p))
  ∧ (state (voice p) = RecipeReady → is_Some (recipe (voice p))).

(** The label runs the part of [startVoiceCooking] that makes the
    microphone and subscribes to the detector (source lines 284-306). *)
Definition begins_listening (l : PageLabel) : bool :=
  match l with
  | Voice (ClickStart _ loaded ensure_ok _ _) => loaded || ensure_ok
  | StartResumes Playing _ Played _ => true
  | StartResumes ImportingSpeech _ (Thrown _) _
  | StartResumes Synthesizing _ (Thrown _) _
  | StartResumes Playing _ (Thrown _) _ => true
  | _ => false
  end.

(** Along the run, every start begins to listen on a quiet component: no
    microphone capturing, no subscription, no call pending. *)
Fixpoint listens_when_quiet (ls : list PageLabel) (p : Page) : Prop :=
  match ls with
  | [] => True
  | l :: ls' =>
      (begins_listening l = true → quiet (voice p))
      ∧ match page_exec l p with
        | Some p' => listens_when_quiet ls' p'
        | None => True
        end
  end.

(** The label is a camera that has started. *)
Definition camera_started (l : PageLabel) : bool :=
  match l with
  | CameraStarts _ true => true
  | _ => false
  end.

(** The stages of the reading of the step, as [tts] has them end. *)
Definition speech_stages (c : Closure) (tts : TtsOutcome) (mic_ok : bool)
  : list PageLabel :=
  match tts with
  | TtsPlayed audio sampleRate =>
      [StartResumes ImportingSpeech c SpeechImported mic_ok;
       StartResumes Synthesizing c (Synthesized audio sampleRate) mic_ok;
       StartResumes Playing c Played mic_ok]
  | TtsImportFailed err =>
      [StartResumes ImportingSpeech c (Thrown err) mic_ok]
  | TtsSynthesizeFailed err =>
      [StartResumes ImportingSpeech c SpeechImported mic_ok;
       StartResumes Synthesizing c (Thrown err) mic_ok]
  | TtsPlayFailed audio sampleRate err =>
      [StartResumes ImportingSpeech c SpeechImported mic_ok;
       StartResumes Synthesizing c (Synthesized audio sampleRate) mic_ok;
       StartResumes Playing c (Thrown err) mic_ok]
  end.

(** One [startVoiceCooking] from the click to its end, stage after stage,
    with no other handler in between. *)
Definition start_stages (c : Closure) (loaded ensure_ok : bool)
    (tts : TtsOutcome) (mic_ok : bool) : list PageLabel :=
  StartClicked c loaded
  :: if loaded then speech_stages c tts mic_ok
     else StartResumes EnsuringModels c (ModelsEnsured ensure_ok) mic_ok
          :: if ensure_ok then speech_stages c tts mic_ok else [].

(** ** Sample data for the page *)

(** A recipe as a reply can describe it. *)
Definition omelette : Recipe :=
  {| name := "Omelette";
     ingredients := [{| ing_name := "3 eggs"; quantity := None |};
                     {| ing_name := "butter"; quantity := None |}];
     steps := ["Beat the eggs"; "Melt the butter"; "Cook for two minutes"];
     cookTime := Some "5 min"; difficulty := Some "Easy";
     nutrition := Some "High in protein" |}.

(** The handler of the Start button once [omelette] is shown. *)
Definition omelette_closure : Closure :=
  {| c_recipe := Some omelette; c_currentStep := 0;
     c_state := RecipeReady; c_voiceTranscript := "" |}.

(** A recipe is generated from a typed ingredient. *)
Definition omelette_generated : list PageLabel :=
  [TypeIngredients "eggs"; ClickGenerate;
   GenerateSettles (recipe_prompt ["eggs"])
     (Generated (requested_format omelette))].

(** A voice session on that recipe: an utterance is sent to the pipeline,
    Stop is clicked while the turn is pending, and the reply that completes
    afterwards asks for the next step. *)
Definition reply_after_stop : list PageLabel :=
  omelette_generated
  ++ [Voice (ClickStart omelette_closure true true
               (TtsPlayed [0; 0; 0] 22050) true);
      Voice (Chunk [] (Some Started));
      Voice (Chunk (repeat 0 2000) None);
      Voice (Chunk [] (Some Ended));
      Voice ClickStop;
      Voice (PipelineCallback 0
               (OnResponseComplete "Moving on to the next step."))].


(** An utterance of [n] samples on the page. *)
Definition page_utterance (n : nat) : list PageLabel := Voice <$> utterance n.

(** A session started at step 0 of [omelette]; Stop is clicked while the
    turn of an utterance is pending, Next is clicked twice, which puts the
    step pointer on the last step, and the reply that completes afterwards
    asks for the next step. *)
Definition next_at_last_step : list PageLabel :=
  omelette_generated
  ++ start_stages omelette_closure true true (TtsPlayed [0; 0; 0] 22050) true
  ++ page_utterance 2000
  ++ [Voice ClickStop; Voice ClickNext; Voice ClickNext;
      Voice (PipelineCallback 0
               (OnResponseComplete "Moving on to the next step."))].

(** A run of the page with one voice session: the recipe, a start in
    stages, an utterance, the final reply of the turn and its timer. *)
Definition turn_on_page : list PageLabel :=
  omelette_generated
  ++ start_stages omelette_closure true true (TtsPlayed [0; 0; 0] 22050) true
  ++ page_utterance 2000
  ++ [Voice (PipelineCallback 0
               (OnResponseComplete "Moving on to the next step."));
      Voice TimerFires].

(** A reply that describes a recipe of one step. *)
Definition one_step_reply : string :=
  "RECIPE NAME: Toast" +:+ newline +:+
  "STEPS:" +:+ newline +:+ "1. Toast the bread".

(** After [reply_after_stop], New Recipe is clicked before the timer fires,
    and a recipe of one step is generated. *)
Definition next_into_new_recipe : list PageLabel :=
  reply_after_stop
  ++ [ClickNewRecipe; Voice TimerFires; TypeIngredients "bread"; ClickGenerate;
      GenerateSettles (recipe_prompt ["bread"]) (Generated one_step_reply)].

(** Start Voice Cooking is clicked twice while the voice models are being
    loaded; both handlers run to their end. *)
Definition started_twice : list PageLabel :=
  omelette_generated
  ++ [StartClicked omelette_closure false;
      StartClicked omelette_closure false;
      StartResumes EnsuringModels omelette_closure (ModelsEnsured true) true;
      StartResumes EnsuringModels omelette_closure (ModelsEnsured true) true;
      StartResumes ImportingSpeech omelette_closure SpeechImported true;
      StartResumes ImportingSpeech omelette_closure SpeechImported true;
      StartResumes Synthesizing omelette_closure (Synthesized [0; 0; 0] 22050)
        true;
      StartResumes Synthesizing omelette_closure (Synthesized [0; 0; 0] 22050)
        true;
      StartResumes Playing omelette_closure Played true;
      StartResumes Playing omelette_closure Played true].

(** New Recipe is clicked while the voice models are being loaded for a
    start; the models then arrive. *)
Definition start_overtaken_by_reset : list PageLabel :=
  omelette_generated
  ++ [StartClicked omelette_closure false;
      ClickNewRecipe;
      StartResumes EnsuringModels omelette_closure (ModelsEnsured true) true].

(** Open Camera is clicked twice before the first camera has started. *)
Definition camera_opened_twice : list PageLabel :=
  [ClickOpenCamera false; ClickOpenCamera false;
   CameraStarts 0 true; CameraStarts 1 true].

(** * Properties *)

(** Compute the calls and the field updates, innermost first. *)
Ltac compute_world :=
  cbv beta iota zeta delta
    [log mic_stop mic_start new_AudioCapture VAD_reset VAD_onSpeechActivity
     VAD_unsubscribe micRef_stop vadUnsub_call setTimeout ensure_pipeline
     pipeline_processTurn
     setState setRecipe setCurrentStep setError setVoiceTranscript
     setVoiceResponse setAudioLevel set_micRef set_pipelineRef set_vadUnsub
     set_mics set_vad_speech set_vad_segment set_vad_listeners
     set_vad_subscriptions set_calls set_turns set_timers set_trace
     state recipe currentStep error voiceTranscript voiceResponse audioLevel
     micRef pipelineRef vadUnsub mics vad_speech vad_segment vad_listeners
     vad_subscriptions calls turns timers trace] in *.

(** Take the world apart and compute every field. *)
Ltac open_world w :=
  destruct w as [w_state w_recipe w_step w_error w_transcript w_response
                 w_level w_micRef w_pipelineRef w_vadUnsub w_mics w_speech
                 w_segment w_listeners w_subscriptions w_calls w_turns
                 w_timers w_trace];
  compute_world.

(** The same with the two refs that the handlers test taken apart first, so
    that no test is left standing inside a field update. *)
Ltac open_world_refs w :=
  destruct w as [w_state w_recipe w_step w_error w_transcript w_response
                 w_level [w_mic|] w_pipelineRef [w_unsub|] w_mics w_speech
                 w_segment w_listeners w_subscriptions w_calls w_turns
                 w_timers w_trace];
  compute_world.

(** ** Strings *)

Lemma prefix_app_l (a b s : string) :
  String.prefix (a +:+ b) s = true → String.prefix a s = true.
Proof.
  revert s. induction a as [|x a IH]; intros s H.
  - destruct s; reflexivity.
  - destruct s as [|y s]; simpl in *; [discriminate|].
    destruct (ascii_dec x y); [auto | discriminate].
Qed.

Lemma includes_app_l (a b s : string) :
  Js.includes s (a +:+ b) = true → Js.includes s a = true.
Proof.
  induction s as [|y s IH]; cbn [Js.includes]; intros H.
  - apply orb_true_iff in H as [H|H]; [|discriminate].
    apply prefix_app_l in H. rewrite H. reflexivity.
  - apply orb_true_iff in H as [H|H].
    + apply prefix_app_l in H. rewrite H. reflexivity.
    + rewrite (IH H). apply orb_true_r.
Qed.

Lemma mentions_next_step (s : string) :
  mentions s "next" = false → mentions s "next step" = false.
Proof.
  unfold mentions. intros H.
  destruct (Js.includes (Js.toLowerCase s) "next step") eqn:E; [|reflexivity].
  apply (includes_app_l "next" " step") in E. congruence.
Qed.

(** ** Navigation *)

(** C2 (as the code has it), for a reply and a transcript made of ASCII
    characters: the test of [onResponseComplete] is a substring match on the
    lower-cased texts.  It answers Next exactly when the reply contains
    "next step" or the transcript contains "next"; otherwise it answers
    Previous exactly when the reply contains "previous" or the transcript
    contains "back"; when neither text contains "next", "back" or "previous"
    it answers no command; and the answer does not depend on the case of the
    letters. *)
Theorem C2_navigation_phrases (text voiceTranscript : string) :
  ascii_text text = true → ascii_text voiceTranscript = true →
  let cmd := onResponseComplete_command text voiceTranscript in
  (cmd = Next ↔
     mentions text "next step" = true ∨ mentions voiceTranscript "next" = true)
  ∧ (cmd = Previous ↔
       cmd ≠ Next
       ∧ (mentions text "previous" = true ∨ mentions voiceTranscript "back" = true))
  ∧ (mentions voiceTranscript "next" = false →
     mentions voiceTranscript "back" = false →
     mentions text "next" = false →
     mentions text "previous" = false →
     cmd = NoCommand)
  ∧ (∀ text' voiceTranscript',
       ascii_text text' = true → ascii_text voiceTranscript' = true →
       Js.toLowerCase text' = Js.toLowerCase text →
       Js.toLowerCase voiceTranscript' = Js.toLowerCase voiceTranscript →
       onResponseComplete_command text' voiceTranscript' = cmd).
Proof.
  intros _ _. unfold onResponseComplete_command, mentions. cbv zeta.
  set (n := Js.includes (Js.toLowerCase text) "next step"
            || Js.includes (Js.toLowerCase voiceTranscript) "next").
  set (p := Js.includes (Js.toLowerCase text) "previous"
            || Js.includes (Js.toLowerCase voiceTranscript) "back").
  assert (Hn : n = true ↔
            Js.includes (Js.toLowerCase text) "next step" = true
            ∨ Js.includes (Js.toLowerCase voiceTranscript) "next" = true)
    by apply orb_true_iff.
  assert (Hp : p = true ↔
            Js.includes (Js.toLowerCase text) "previous" = true
            ∨ Js.includes (Js.toLowerCase voiceTranscript) "back" = true)
    by apply orb_true_iff.
  split; [|split; [|split]].
  - rewrite <- Hn. destruct n, p; intuition congruence.
  - rewrite <- Hp. destruct n, p; intuition congruence.
  - intros Hvn Hvb Htn Htp.
    pose proof (mentions_next_step text Htn) as Hns. unfold mentions in Hns.
    subst n p. by rewrite Hns, Hvn, Htp, Hvb.
  - intros text' transcript' _ _ -> ->. reflexivity.
Qed.

Lemma C2_navigation_phrases_witness :
  ascii_text "Sure, stir for two minutes." = true
  ∧ ascii_text "say that again" = true
  ∧ onResponseComplete_command "Sure, stir for two minutes." "say that again"
    = NoCommand
  ∧ onResponseComplete_command "SURE, STIR FOR TWO MINUTES." "Say That Again"
    = NoCommand.
Proof.
  destruct (C2_navigation_phrases "Sure, stir for two minutes." "say that again"
              eq_refl eq_refl) as (_ & _ & Hnone & Hcase).
  split; [reflexivity|]. split; [reflexivity|]. split.
  - apply Hnone; reflexivity.
  - rewrite (Hcase "SURE, STIR FOR TWO MINUTES." "Say That Again");
      [apply Hnone | ..]; reflexivity.
Defined.

(** C2 (as the specification words it) fails: a transcript that says
    "previous", with no other phrase in the transcript or in the reply, does
    not make the code answer Previous. *)
Lemma C2_counterexample :
  mentions "previous step" "previous" = true
  ∧ mentions "previous step" "next" = false
  ∧ mentions "Okay." "next" = false
  ∧ onResponseComplete_command "Okay." "previous step" = NoCommand.
Proof. repeat split. Qed.

(** The reply is not checked for the same phrases as the transcript either:
    "next" alone or "back" in the reply is not recognised. *)
Example reply_phrases_differ :
  onResponseComplete_command "On to the next one." "hmm" = NoCommand
  ∧ onResponseComplete_command "Going back." "hmm" = NoCommand
  ∧ onResponseComplete_command "Moving to the NEXT STEP." "hmm" = Next
  ∧ onResponseComplete_command "Hmm." "Go Back" = Previous.
Proof. repeat split. Qed.

(** Where the clamp holds: [nextStep] and [prevStep] test the index that
    their handler captured.  A handler whose index is the last one leaves the
    world as it is on Next, a handler whose index is 0 leaves it as it is on
    Previous; whatever sequence of Next and Previous is applied, each by the
    handler of the latest render, the step pointer stays inside
    [0, stepCount - 1]; it also stays inside when the handler captured an
    older index of the same recipe. *)
Lemma navigation_clamp_of_handler :
  (∀ c r w, c_recipe c = Some r → c_currentStep c = stepCount r - 1 →
            nextStep c w = w)
  ∧ (∀ c w, c_currentStep c = 0 → prevStep c w = w)
  ∧ (∀ r cmds w, recipe w = Some r → in_range r (currentStep w) →
       recipe (navigate_all cmds w) = Some r
       ∧ in_range r (currentStep (navigate_all cmds w)))
  ∧ (∀ c r w, c_recipe c = Some r → in_range r (c_currentStep c) →
       in_range r (currentStep w) →
       in_range r (currentStep (nextStep c w))
       ∧ in_range r (currentStep (prevStep c w))).
Proof.
  split; [|split; [|split]].
  - intros c r w Hr Hc. unfold nextStep. rewrite Hr, Hc.
    by rewrite Z.ltb_irrefl.
  - intros c w Hc. unfold prevStep. by rewrite Hc.
  - intros r cmds. unfold navigate_all.
    induction cmds as [|cmd cmds IH]; intros w Hr Hin; [done|].
    simpl. apply IH.
    + destruct cmd; simpl; unfold nextStep, prevStep; simpl; try done.
      * rewrite Hr. by destruct (_ <? _).
      * by destruct (_ <? _).
    + unfold in_range in *.
      destruct cmd; simpl; unfold nextStep, prevStep; simpl; try done.
      * rewrite Hr. destruct (Z.ltb_spec (currentStep w) (stepCount r - 1));
          simpl; lia.
      * destruct (Z.ltb_spec 0 (currentStep w)); simpl; lia.
  - intros c r w Hr Hc Hw. unfold in_range, nextStep, prevStep in *.
    rewrite Hr.
    destruct (Z.ltb_spec (c_currentStep c) (stepCount r - 1)),
      (Z.ltb_spec 0 (c_currentStep c)); simpl; lia.
Qed.

(** ** Listening *)

Lemma micRef_stop_turns w : turns (micRef_stop w) = turns w.
Proof. unfold micRef_stop. by destruct (micRef w). Qed.

Lemma vadUnsub_call_turns w : turns (vadUnsub_call w) = turns w.
Proof. unfold vadUnsub_call. by destruct (vadUnsub w). Qed.

Lemma processVoiceCommand_invoked c r p audioData w :
  c_recipe c = Some r → pipelineRef w = Some p →
  turns (processVoiceCommand c audioData w) = S (turns w)
  ∧ last (trace (processVoiceCommand c audioData w))
    = Some (ProcessTurn (turns w) (length audioData) (systemPrompt c r)).
Proof.
  intros Hr Hp. unfold processVoiceCommand. rewrite Hr, Hp.
  unfold pipeline_processTurn, log. simpl.
  rewrite vadUnsub_call_turns, micRef_stop_turns. split; [done|].
  apply last_snoc.
Qed.

(** C1 (as the code has it): when the segmenter ends an utterance, the
    callback registered by [startVoiceCooking] hands the popped segment to
    [processVoiceCommand], which calls the pipeline, if and only if the
    segment has more than 1600 samples; a segment of 1600 samples or fewer is
    only popped: nothing else changes, no error is set and nothing is
    called. *)
Theorem C1_segment_threshold (c : Closure) (r : Recipe) (p : VoicePipeline)
    (segment : SpeechSegment) (w : World) :
  c_recipe c = Some r → pipelineRef w = Some p → vad_segment w = Some segment →
  let n := Z.of_nat (length (samples segment)) in
  let w' := onSpeechActivity_callback c Ended w in
  (pipeline_invoked w w' ↔ 1600 < n)
  ∧ (1600 < n →
     w' = processVoiceCommand c (samples segment) (set_vad_segment None w)
     ∧ last (trace w')
       = Some (ProcessTurn (turns w) (length (samples segment)) (systemPrompt c r)))
  ∧ (n ≤ 1600 → w' = set_vad_segment None w).
Proof.
  intros Hr Hp Hs. cbv zeta.
  unfold onSpeechActivity_callback, VAD_popSpeechSegment, pipeline_invoked.
  rewrite Hs.
  destruct (processVoiceCommand_invoked c r p (samples segment)
              (set_vad_segment None w) Hr Hp) as [Ht Hl].
  destruct (Z.ltb_spec 1600 (Z.of_nat (length (samples segment)))) as [Hlt|Hle].
  - split; [|split]; [split; [done | by intros _] | done | lia].
  - split; [|split]; [|lia|done].
    split; [simpl; lia | lia].
Qed.

Lemma C1_segment_threshold_witness :
  pipeline_invoked
    (set_vad_segment (Some {| samples := repeat 0 1601 |})
       (set_pipelineRef (Some NewVoicePipeline) (recipe_ready soup)))
    (onSpeechActivity_callback (render (recipe_ready soup)) Ended
       (set_vad_segment (Some {| samples := repeat 0 1601 |})
          (set_pipelineRef (Some NewVoicePipeline) (recipe_ready soup)))).
Proof.
  apply (C1_segment_threshold (render (recipe_ready soup)) soup NewVoicePipeline
           {| samples := repeat 0 1601 |}); [reflexivity .. | vm_compute; reflexivity].
Defined.

(** C1 (as the specification words it) fails at the boundary: an utterance
    of exactly 1600 samples, delivered to a listening session, is popped and
    dropped; no pipeline call is made. *)
Lemma C1_counterexample :
  Z.of_nat (length (repeat (0 : Float32) 1600)) = 1600
  ∧ (λ w, (turns w, calls w, vad_segment w, error w))
      <$> run (start_click (recipe_ready soup) :: utterance 1600) (recipe_ready soup)
    = Some (0%nat, [], None, None).
Proof. split; vm_compute; reflexivity. Qed.

Example utterance_1601_is_processed :
  (λ w, (turns w, fst <$> calls w, capturing w, fst <$> vad_listeners w))
    <$> run (start_click (recipe_ready soup) :: utterance 1601) (recipe_ready soup)
  = Some (1%nat, [0%nat], false, []).
Proof. vm_compute. reflexivity. Qed.

(** ** Stopping *)


Lemma filter_ne_fst (k : nat) (l : list (nat * Closure)) :
  k ∉ (fst <$> filter (λ e, e.1 ≠ k) l).
Proof.
  intros H. apply list_elem_of_fmap in H as ([k' c] & -> & H).
  apply list_elem_of_filter in H as [H _]. by apply H.
Qed.

Lemma insert_false_not_true (m k : nat) (l : list bool) :
  m = k → <[m:=false]> l !! k ≠ Some true.
Proof.
  intros <- H. apply list_lookup_insert_Some in H as [(_ & ? & _)|[? _]]; done.
Qed.


Example stop_twice_after_start :
  (λ w, (state w, audioLevel w, mics w, vad_listeners w))
    <$> run [start_click (recipe_ready soup); ClickStop] (recipe_ready soup)
  = Some (RecipeReady, 0, [false], [])
  ∧ (λ w, forget_trace (stopVoiceCooking w))
      <$> run [start_click (recipe_ready soup); ClickStop] (recipe_ready soup)
    = forget_trace
      <$> run [start_click (recipe_ready soup); ClickStop] (recipe_ready soup).
Proof. split; vm_compute; reflexivity. Qed.

(** C9 (as the code has it): a stop stops the microphone held in [micRef]
    and removes the subscription held in [vadUnsub], and leaves what the
    segmenter has buffered untouched; the buffer is cleared by the
    [VAD.reset()] of the next [startVoiceCooking] (and of a restart after a
    turn), before any capture begins again. *)
Theorem C9_stop_and_buffer (w : World) :
  (∀ m, micRef w = Some m →
        mics (stopVoiceCooking w) !! m ≠ Some true
        ∧ MicStop m ∈ trace (stopVoiceCooking w))
  ∧ (∀ l, vadUnsub w = Some l →
          (l ∉ fst <$> vad_listeners (stopVoiceCooking w))
          ∧ VadUnsubscribe l ∈ trace (stopVoiceCooking w))
  ∧ vad_speech (stopVoiceCooking w) = vad_speech w
  ∧ vad_segment (stopVoiceCooking w) = vad_segment w
  ∧ (∀ c r loaded ensure_ok tts mic_ok,
       c_recipe c = Some r → loaded || ensure_ok = true →
       vad_speech (startVoiceCooking c loaded ensure_ok tts mic_ok w) = None
       ∧ vad_segment (startVoiceCooking c loaded ensure_ok tts mic_ok w) = None)
  ∧ (∀ c mic_ok, c_state c = CookingVoice →
       vad_speech (restart_listening c mic_ok w) = None
       ∧ vad_segment (restart_listening c mic_ok w) = None).
Proof.
  split; [|split; [|split; [|split; [|split]]]].
  - intros k Hm. unfold stopVoiceCooking.
    open_world_refs w; try done; injection Hm as ->;
      (split; [by apply insert_false_not_true|]);
      rewrite !elem_of_app, !list_elem_of_singleton; auto.
  - intros k Hl. unfold stopVoiceCooking.
    open_world_refs w; try done; injection Hl as ->;
      (split; [apply filter_ne_fst|]);
      rewrite !elem_of_app, !list_elem_of_singleton; auto.
  - unfold stopVoiceCooking. by open_world_refs w.
  - unfold stopVoiceCooking. by open_world_refs w.
  - intros c r loaded ensure_ok tts mic_ok Hr Hok. unfold startVoiceCooking.
    rewrite Hr. destruct loaded, ensure_ok; try discriminate; by cbn.
  - intros c mic_ok Hc. unfold restart_listening. by rewrite decide_True.
Qed.

Lemma C9_stop_and_buffer_witness :
  vad_speech
    (startVoiceCooking (render (recipe_ready soup)) true true
       (TtsPlayed [] 22050) true
       (stopVoiceCooking (set_vad_speech (Some [1; 2; 3]) (recipe_ready soup))))
  = None.
Proof.
  apply (C9_stop_and_buffer
           (stopVoiceCooking (set_vad_speech (Some [1; 2; 3]) (recipe_ready soup)))
           ) with (r := soup); reflexivity.
Defined.

(** C9 (as the specification words it) fails: an utterance in progress when
    the user stops is still in the segmenter's buffer after the stop. *)
Lemma C9_counterexample :
  (λ w, (state w, capturing w, vad_listeners w, vad_speech w))
    <$> run [start_click (recipe_ready soup);
             Chunk [] (Some Started); Chunk [7; 8; 9] None; ClickStop]
          (recipe_ready soup)
  = Some (RecipeReady, false, [], Some [7; 8; 9]).
Proof. vm_compute. reflexivity. Qed.

(** ** Starting *)

(** The calls the first [try] block of [startVoiceCooking] makes. *)
Lemma speak_step_trace (text : string) (tts : TtsOutcome) (w : World) :
  trace (speak_step text tts w)
  = trace w ++
    match tts with
    | TtsPlayed audio sampleRate =>
        [Synthesize text; Play (length audio) sampleRate]
    | TtsImportFailed err => [ConsoleError (Js.errorText err)]
    | TtsSynthesizeFailed err =>
        [Synthesize text; ConsoleError (Js.errorText err)]
    | TtsPlayFailed audio sampleRate err =>
        [Synthesize text; Play (length audio) sampleRate;
         ConsoleError (Js.errorText err)]
    end.
Proof.
  unfold speak_step. open_world w.
  destruct tts; cbn; rewrite <- ?app_assoc; reflexivity.
Qed.




(** When the models are missing and cannot be loaded, nothing is read and
    nothing is started: the error is shown and the state is unchanged. *)
Example start_without_models :
  (λ w, (state w, error w, trace w, mics w))
    (startVoiceCooking (render (recipe_ready soup)) false false
       (TtsPlayed [] 22050) true (recipe_ready soup))
  = (RecipeReady, Some "Failed to load voice models", [], []).
Proof. reflexivity. Qed.

(** ** A turn *)

Lemma run_callbacks_app c cbs1 cbs2 w :
  run_callbacks c (cbs1 ++ cbs2) w = run_callbacks c cbs2 (run_callbacks c cbs1 w).
Proof. apply fold_left_app. Qed.

(** Partial replies only overwrite the displayed reply. *)
Lemma run_callbacks_tokens c (tokens : list (string * string)) w :
  ∃ shown, run_callbacks c (map (λ t, OnResponseToken t.1 t.2) tokens) w
           = setVoiceResponse shown w.
Proof.
  revert w. induction tokens as [|[tok acc] tokens IH]; intros w.
  - exists (voiceResponse w). by destruct w.
  - destruct (IH (setVoiceResponse acc w)) as [shown Hs].
    exists shown. unfold run_callbacks in *. cbn. rewrite Hs. by destruct w.
Qed.

(** A stage failure after the reply.  The pipeline has reported the
    transcript and the final reply, then the synthesis fails
    ([synthesized = None]: no playback is asked for) or the playback fails,
    and [processTurn] rejects.  The transcript and the reply stay on display,
    the timer for the command derived from the reply is set and moves the
    step pointer when it fires, and the error is shown.  Whether capture
    starts again is decided by the state the handler captured: a handler of a
    cooking-voice render makes a new microphone, resets the segmenter and
    starts capturing; any other handler ends with the settlement. *)
Lemma stage_failure_effects (c : Closure) (r : Recipe) (p : VoicePipeline)
    (audioData : list Float32) (transcript reply : string)
    (tokens : list (string * string)) (synthesized : option (list Float32 * Z))
    (err : Js.Thrown) (mic_ok : bool) (w : World) :
  c_recipe c = Some r → pipelineRef w = Some p →
  let cbs := [OnTranscription transcript]
             ++ map (λ t, OnResponseToken t.1 t.2) tokens
             ++ [OnResponseComplete reply]
             ++ playback_callbacks synthesized in
  let cmd := onResponseComplete_command reply (c_voiceTranscript c) in
  let w' := whole_turn c audioData cbs (Rejected err) mic_ok w in
  let mic := length (mics w) in
  voiceTranscript w' = transcript
  ∧ voiceResponse w' = reply
  ∧ error w' = Some (Js.errorText err)
  ∧ timers w' = timers w ++ scheduled cmd c
  ∧ (timers w = [] → cmd = Next →
     exec TimerFires w' = Some (nextStep c (set_timers [] w')))
  ∧ (timers w = [] → cmd = Previous →
     exec TimerFires w' = Some (prevStep c (set_timers [] w')))
  ∧ trace w'
    = trace (processVoiceCommand c audioData w) ++ playback_events synthesized
      ++ [TurnSettled (turns w)]
      ++ (if decide (c_state c = CookingVoice)
          then [VadReset; MicStart mic] else [])
  ∧ (c_state c = CookingVoice →
     micRef w' = Some mic ∧ mics w' !! mic = Some mic_ok)
  ∧ (c_state c ≠ CookingVoice →
     mics w' = mics (processVoiceCommand c audioData w)).
Proof.
  intros Hr Hp. cbv zeta.
  unfold whole_turn, processVoiceCommand. rewrite Hr, Hp.
  rewrite !run_callbacks_app.
  set (w1 := pipeline_processTurn _ _ _ _).
  change (run_callbacks c [OnTranscription transcript] w1)
    with (setVoiceTranscript transcript w1).
  destruct (run_callbacks_tokens c tokens (setVoiceTranscript transcript w1))
    as [shown ->].
  unfold processVoiceCommand_settled, restart_listening, apply_outcome.
  subst w1. clear Hp Hr.
  generalize (systemPrompt c r). intros prompt.
  unfold scheduled.
  destruct (decide (c_state c = CookingVoice)) as [Hc|Hc];
    destruct synthesized as [[audio sampleRate]|];
    cbn [run_callbacks playback_callbacks playback_events fold_left callback];
    destruct (onResponseComplete_command reply (c_voiceTranscript c));
    open_world_refs w;
    (repeat split; rewrite ?length_insert, ?app_nil_r; try done;
     try (by intros -> ?);
     try (by rewrite <- ?app_assoc);
     try (rewrite list_lookup_insert_eq;
          [done | rewrite length_app, ?length_insert; cbn; lia])).
Qed.

Example stage_failure_effects_on_soup :
  let w' := whole_turn (cooking_closure soup) (repeat 0 2000)
              ([OnTranscription "next please"]
               ++ map (λ t, OnResponseToken t.1 t.2) [("Moving", "Moving")]
               ++ [OnResponseComplete "Moving to the next step."]
               ++ playback_callbacks None)
              (Rejected (Js.ErrorObject "SynthesisFailed")) true listening_soup in
  voiceTranscript w' = "next please"
  ∧ voiceResponse w' = "Moving to the next step."
  ∧ error w' = Some "SynthesisFailed"
  ∧ timers w' = [CallNextStep (cooking_closure soup)].
Proof.
  pose proof (stage_failure_effects (cooking_closure soup) soup NewVoicePipeline
                (repeat 0 2000) "next please" "Moving to the next step."
                [("Moving", "Moving")] None (Js.ErrorObject "SynthesisFailed")
                true listening_soup eq_refl eq_refl) as H.
  cbv zeta in H. destruct H as (Ht & Hr & He & Htm & _).
  exact (conj Ht (conj Hr (conj He Htm))).
Qed.

(** The restart of lines 350-359 is skipped by a handler whose captured state
    is not cooking-voice. *)
Lemma restart_needs_cooking_closure (c : Closure) (mic_ok : bool) (w : World) :
  c_state c ≠ CookingVoice → restart_listening c mic_ok w = w.
Proof. intros H. unfold restart_listening. by rewrite decide_False. Qed.

(** With a handler that captured cooking-voice the same failure is followed
    by a restart: the step pointer moves when the timer fires, and a
    microphone is capturing again. *)
Example synthesis_failure_with_cooking_closure :
  (λ w, (currentStep w, error w, capturing w, fst <$> calls w))
    <$> run [ClickStart (cooking_closure soup) true true (TtsPlayed [] 22050) true;
             Chunk [] (Some Started); Chunk (repeat 0 2000) None;
             Chunk [] (Some Ended);
             PipelineCallback 0 (OnTranscription "next please");
             PipelineCallback 0 (OnResponseComplete "Moving to the next step.");
             PipelineSettles 0 (Rejected (Js.ErrorObject "SynthesisFailed")) true;
             TimerFires]
          (recipe_ready soup)
  = Some (1, Some "SynthesisFailed", true, []).
Proof. vm_compute. reflexivity. Qed.

(** ** What each handler leaves alone *)

Lemma callback_wiring c cb w : wiring (callback c cb w) = wiring w.
Proof.
  unfold callback, wiring.
  destruct cb; try done.
  by destruct (onResponseComplete_command _ _).
Qed.

Lemma callback_currentStep c cb w :
  currentStep (callback c cb w) = currentStep w.
Proof.
  unfold callback.
  destruct cb; try done.
  by destruct (onResponseComplete_command _ _).
Qed.

Lemma nextStep_wiring c w : wiring (nextStep c w) = wiring w.
Proof. unfold nextStep. destruct (c_recipe c); [by destruct (_ <? _) | done]. Qed.

Lemma prevStep_wiring c w : wiring (prevStep c w) = wiring w.
Proof. unfold prevStep. by destruct (_ <? _). Qed.

Lemma run_task_wiring task w : wiring (run_task task w) = wiring w.
Proof. destruct task; [apply nextStep_wiring | apply prevStep_wiring]. Qed.

Lemma callback_state c cb w : state (callback c cb w) = state w.
Proof.
  unfold callback.
  destruct cb; try done.
  by destruct (onResponseComplete_command _ _).
Qed.

Lemma nextStep_state c w : state (nextStep c w) = state w.
Proof. unfold nextStep. destruct (c_recipe c); [by destruct (Z.ltb _ _) | done]. Qed.

Lemma prevStep_state c w : state (prevStep c w) = state w.
Proof. unfold prevStep. by destruct (Z.ltb _ _). Qed.

Lemma run_task_state task w : state (run_task task w) = state w.
Proof. destruct task; [apply nextStep_state | apply prevStep_state]. Qed.

Lemma processVoiceCommand_currentStep c audioData w :
  currentStep (processVoiceCommand c audioData w) = currentStep w.
Proof.
  unfold processVoiceCommand.
  destruct (pipelineRef w), (c_recipe c); try done.
  by open_world_refs w.
Qed.

Lemma onSpeechActivity_callback_currentStep c activity w :
  currentStep (onSpeechActivity_callback c activity w) = currentStep w.
Proof.
  unfold onSpeechActivity_callback, VAD_popSpeechSegment.
  destruct activity; [done|].
  destruct (vad_segment w) as [seg|]; [|done].
  destruct (_ <? _); [|done].
  by rewrite processVoiceCommand_currentStep.
Qed.

Lemma VAD_emit_currentStep activity w :
  currentStep (VAD_emit activity w) = currentStep w.
Proof.
  unfold VAD_emit. generalize (vad_listeners w). intros ls.
  revert w. induction ls as [|e ls IH]; intros w; [done|].
  cbn. by rewrite IH, onSpeechActivity_callback_currentStep.
Qed.

Lemma VAD_processSamples_currentStep chunk verdict w :
  currentStep (VAD_processSamples chunk verdict w) = currentStep w.
Proof.
  unfold VAD_processSamples.
  destruct (vad_speech w), verdict as [[]|]; try done;
    by rewrite VAD_emit_currentStep.
Qed.

Lemma startVoiceCooking_currentStep c loaded ensure_ok tts mic_ok w :
  currentStep (startVoiceCooking c loaded ensure_ok tts mic_ok w) = currentStep w.
Proof.
  unfold startVoiceCooking. destruct (c_recipe c); [|done].
  destruct (_ && _); [done|].
  unfold speak_step. open_world w. by destruct tts, w_pipelineRef.
Qed.

Lemma stopVoiceCooking_currentStep w :
  currentStep (stopVoiceCooking w) = currentStep w.
Proof.
  unfold stopVoiceCooking. by open_world_refs w.
Qed.

Lemma processVoiceCommand_settled_currentStep c turn o mic_ok w :
  currentStep (processVoiceCommand_settled c turn o mic_ok w) = currentStep w.
Proof.
  unfold processVoiceCommand_settled, restart_listening, apply_outcome.
  destruct (decide _), o as [[res|]|]; by open_world w.
Qed.

(** ** The first voice session *)

Lemma Forall_filter_ne (P : nat * Closure → Prop) (k : nat) (l : list (nat * Closure)) :
  Forall P l → Forall P (filter (λ e, e.1 ≠ k) l).
Proof.
  rewrite !Forall_forall. intros H e He.
  apply list_elem_of_filter in He as [_ He]. by apply H.
Qed.

Lemma cold_world_wiring (w w' : World) :
  wiring w' = wiring w → cold_world w → cold_world w'.
Proof. unfold wiring, cold_world. intros [= _ _ _ -> ->]. done. Qed.

Lemma stopVoiceCooking_cold (w : World) :
  cold_world w → cold_world (stopVoiceCooking w).
Proof.
  unfold cold_world, stopVoiceCooking. intros [Hl Hc]. revert Hl Hc.
  open_world_refs w; intros; (split; [|done]); try done;
    by apply Forall_filter_ne.
Qed.

Lemma processVoiceCommand_cold c audioData (w : World) :
  cold c → cold_world w → cold_world (processVoiceCommand c audioData w).
Proof.
  intros Hcold [Hl Hc]. unfold processVoiceCommand.
  destruct (pipelineRef w) as [p|], (c_recipe c) as [r|]; try done.
  generalize (systemPrompt c r). intros prompt.
  unfold cold_world. revert Hl Hc.
  open_world_refs w; intros;
    (split; [try done; by apply Forall_filter_ne|]);
    (apply Forall_app; split; [done | by apply Forall_singleton]).
Qed.

Lemma onSpeechActivity_callback_cold c activity (w : World) :
  cold c → cold_world w → cold_world (onSpeechActivity_callback c activity w).
Proof.
  intros Hcold Hw. unfold onSpeechActivity_callback, VAD_popSpeechSegment.
  destruct activity; [done|].
  destruct (vad_segment w) as [seg|]; [|done].
  destruct (Z.ltb _ _); [|done].
  by apply processVoiceCommand_cold.
Qed.

Lemma VAD_emit_cold activity (w : World) :
  cold_world w → cold_world (VAD_emit activity w).
Proof.
  intros Hw. unfold VAD_emit.
  assert (Hls : Forall (λ e, cold e.2) (vad_listeners w)) by apply Hw.
  revert Hls. generalize (vad_listeners w). intros ls. revert w Hw.
  induction ls as [|[l c] ls IH]; intros w Hw Hls; [done|].
  apply Forall_cons in Hls as [Hc Hls]. cbn.
  apply IH; [|done]. by apply onSpeechActivity_callback_cold.
Qed.

Lemma VAD_processSamples_cold chunk verdict (w : World) :
  cold_world w → cold_world (VAD_processSamples chunk verdict w).
Proof.
  intros Hw. unfold VAD_processSamples.
  destruct (vad_speech w), verdict as [[]|]; try done;
    apply VAD_emit_cold; by apply (cold_world_wiring w).
Qed.

Lemma processVoiceCommand_settled_cold c turn o mic_ok (w : World) :
  cold_world w → cold_world (processVoiceCommand_settled c turn o mic_ok w).
Proof.
  unfold cold_world, processVoiceCommand_settled, restart_listening, apply_outcome.
  intros [Hl Hc]. revert Hl Hc.
  destruct (decide _), o as [[res|]|]; open_world w; intros;
    (split; [done | by apply Forall_filter_ne]).
Qed.

(** What a click on Start Voice Cooking changes: nothing that matters here
    when it gives up, and otherwise one more subscription, of its own
    handler, and the state cooking-voice. *)
Lemma startVoiceCooking_subscribes c loaded ensure_ok tts mic_ok (w : World) :
  let w' := startVoiceCooking c loaded ensure_ok tts mic_ok w in
  (vad_subscriptions w' = vad_subscriptions w ∧ state w' = state w
   ∧ wiring w' = wiring w)
  ∨ (vad_subscriptions w' = S (vad_subscriptions w)
     ∧ vad_listeners w' = vad_listeners w ++ [(vad_subscriptions w, c)]
     ∧ calls w' = calls w).
Proof.
  cbv zeta. unfold startVoiceCooking.
  destruct (c_recipe c) as [r|]; [|by left].
  destruct (_ && _); [by left|].
  generalize (stepText c r). intros text. right. unfold speak_step.
  open_world w. by destruct tts, w_pipelineRef.
Qed.

Lemma exec_same_session (l : Label) (w w' : World) :
  session_label l → exec l w = Some w' →
  vad_subscriptions w' = vad_subscriptions w
  ∧ (state w' = CookingVoice → state w = CookingVoice)
  ∧ (cold_world w → cold_world w').
Proof.
  intros Hl Hexec. destruct l; cbn in Hexec; try done.
  - case_decide as Hg; [|done]. injection Hexec as <-.
    split; [|split; [|apply stopVoiceCooking_cold]].
    + unfold stopVoiceCooking. by open_world_refs w.
    + unfold stopVoiceCooking. by open_world_refs w.
  - destruct (recipe w); [|done]. case_decide; [|done]. injection Hexec as <-.
    split; [|split; [by rewrite nextStep_state|]].
    + unfold nextStep. cbn. destruct (recipe w); [by destruct (Z.ltb _ _) | done].
    + apply cold_world_wiring, nextStep_wiring.
  - case_decide; [|done]. injection Hexec as <-.
    split; [|split; [by rewrite prevStep_state|]].
    + unfold prevStep. by destruct (Z.ltb _ _).
    + apply cold_world_wiring, prevStep_wiring.
  - destruct (capturing w); [|done].
    assert (Hsub : ∀ a v, vad_subscriptions (VAD_emit a v) = vad_subscriptions v
                          ∧ state (VAD_emit a v) = state v).
    { intros a v. unfold VAD_emit. generalize (vad_listeners v). intros ls.
      revert v. induction ls as [|[k c] ls IH]; intros v; [done|].
      cbn. destruct (IH (onSpeechActivity_callback c a v)) as [-> ->].
      unfold onSpeechActivity_callback, VAD_popSpeechSegment, processVoiceCommand.
      destruct a; [done|]. destruct (vad_segment v); [|done].
      destruct (Z.ltb _ _); [|done]. cbn.
      destruct (pipelineRef v), (c_recipe c); try done.
      by open_world_refs v. }
    assert (vad_subscriptions (VAD_processSamples chunk verdict w)
            = vad_subscriptions w
            ∧ state (VAD_processSamples chunk verdict w) = state w) as [Hs Hst].
    { unfold VAD_processSamples.
      destruct (vad_speech w), verdict as [[]|]; try done;
        by destruct (Hsub Started (set_vad_speech (Some chunk) w)) as [-> ->]
        || (match goal with |- context [VAD_emit ?a ?v] =>
              by destruct (Hsub a v) as [-> ->] end). }
    destruct (vad_speech w) eqn:Hsp, verdict as [[]|]; try done;
      injection Hexec as <-;
      (split; [done | split; [by rewrite Hst | apply VAD_processSamples_cold]]).
  - destruct (capturing w); [|done]. by injection Hexec as <-.
  - destruct (pending turn (calls w)) as [c|]; [|done].
    cbn in Hexec. injection Hexec as <-.
    split; [|split; [by rewrite callback_state|]].
    + unfold callback. destruct cb; try done.
      by destruct (onResponseComplete_command _ _).
    + apply cold_world_wiring, callback_wiring.
  - destruct (pending turn (calls w)) as [c|] eqn:Hp; [|done].
    cbn in Hexec. injection Hexec as <-.
    split; [|split; [|apply processVoiceCommand_settled_cold]].
    + unfold processVoiceCommand_settled, restart_listening, apply_outcome.
      destruct (decide _), o as [[res|]|]; by open_world w.
    + unfold processVoiceCommand_settled, restart_listening, apply_outcome.
      destruct (decide _), o as [[res|]|]; by open_world w.
  - destruct (timers w) as [|task rest]; [done|]. injection Hexec as <-.
    split; [|split; [by rewrite run_task_state|]].
    + destruct task as [c|c]; cbn; unfold nextStep, prevStep.
      * destruct (c_recipe c); [by destruct (Z.ltb _ _) | done].
      * by destruct (Z.ltb _ _).
    + apply cold_world_wiring. by rewrite run_task_wiring.
Qed.

Lemma rerender_cold stable h (w : World) :
  cold h → state w ≠ CookingVoice → cold (rerender stable h w).
Proof. intros Hh Hw. unfold rerender. by destruct (_ && _). Qed.

Lemma browse_first_session (l : Label) (stable : bool) (b b' : Browser) :
  first_session b → browse l stable b = Some b' → first_session b'.
Proof.
  intros [H0 H1]. unfold browse.
  destruct (exec (bind_handler (handler b) l) (world b)) as [w'|] eqn:Hexec;
    [|done].
  cbn. intros [= <-]. unfold first_session. cbn.
  destruct l as [c loaded ensure_ok tts mic_ok| | | | | | | |];
    try (apply exec_same_session in Hexec as (Hs & Hst & Hcw); [|exact I];
         rewrite Hs; split;
         [ intros Hz; destruct (H0 Hz) as (Hne & Hh & Hc);
           split; [tauto | split; [apply rerender_cold; tauto | tauto]]
         | intros Ho; tauto ]).
  cbn in Hexec. case_decide as Hg; [|done]. injection Hexec as <-.
  pose proof (startVoiceCooking_subscribes (handler b) loaded ensure_ok tts
                mic_ok (world b)) as Hsub.
  cbv zeta in Hsub. destruct Hsub as [(Hs & Hst & Hw)|(Hs & Hl & Hc)].
  - rewrite Hs, Hst. split.
    + intros Hz. destruct (H0 Hz) as (Hne & Hh & Hcw).
      split; [done | split; [by apply rerender_cold; [|rewrite Hst]|]].
      by apply (cold_world_wiring (world b)).
    + intros Ho. by apply (cold_world_wiring (world b)), H1.
  - rewrite Hs. split; [done|]. intros [= Hz].
    destruct (H0 Hz) as (Hne & Hh & [Hcl Hcc]).
    unfold cold_world. rewrite Hl, Hc. split; [|done].
    apply Forall_app. split; [done | by apply Forall_singleton].
Qed.

Lemma browse_all_first_session (ls : list (Label * bool)) (b b' : Browser) :
  first_session b → browse_all ls b = Some b' → first_session b'.
Proof.
  revert b. induction ls as [|[l stable] ls IH]; intros b Hb Hrun.
  - by injection Hrun as <-.
  - cbn in Hrun. destruct (browse l stable b) as [b1|] eqn:Hstep; [|done].
    cbn in Hrun. apply (IH b1); [by apply (browse_first_session l stable b) | done].
Qed.

Lemma opened_first_session (r : Recipe) : first_session (opened r).
Proof.
  split; [|done]. intros _. cbn.
  split; [done | split; [done | split; constructor]].
Qed.

(** In the first voice session of a recipe no turn is followed by a restart:
    the handler awaiting a pending call is cold, so the settlement of the
    call makes and starts no microphone. *)
Lemma first_session_never_restarts (r : Recipe) (ls : list (Label * bool))
    (b : Browser) (turn : nat) (c : Closure) (o : Outcome) (mic_ok : bool) :
  browse_all ls (opened r) = Some b →
  (vad_subscriptions (world b) ≤ 1)%nat →
  pending turn (calls (world b)) = Some c →
  cold c
  ∧ mics (processVoiceCommand_settled c turn o mic_ok (world b)) = mics (world b)
  ∧ trace (processVoiceCommand_settled c turn o mic_ok (world b))
    = trace (world b) ++ [TurnSettled turn].
Proof.
  intros Hrun Hsub Hp.
  pose proof (browse_all_first_session ls (opened r) b
                (opened_first_session r) Hrun) as [H0 H1].
  assert (Hcw : cold_world (world b)).
  { destruct (vad_subscriptions (world b)) as [|[|n]] eqn:E; [|by apply H1|lia].
    by apply H0. }
  assert (Hc : cold c).
  { destruct Hcw as [_ Hcalls]. revert Hcalls Hp. generalize (calls (world b)).
    induction l as [|[t c'] l IH]; intros Hcalls Hp; [done|].
    apply Forall_cons in Hcalls as [Hc' Hcalls]. cbn in Hp.
    case_decide; [by injection Hp as <- | by apply IH]. }
  split; [done|].
  unfold processVoiceCommand_settled. rewrite restart_needs_cooking_closure by done.
  unfold apply_outcome. destruct o as [[res|]|]; by open_world (world b).
Qed.

(** C5 (defect of the code): the first voice session of a recipe, every
    render keeping the memoized handlers it can keep.  The synthesis fails
    after the transcript and the reply were reported.  The transcript and
    the reply stay on display, the timer of the derived command is set, the
    error is shown and nothing is played; but no microphone is started
    again, although the state still says cooking-voice: the handler that
    [startVoiceCooking] subscribed belongs to a render made before its
    [setState('cooking-voice')], and the log ends with the settlement of
    the call. *)
Theorem C5_no_restart_after_failure :
  (λ b, (state (world b), voiceTranscript (world b), voiceResponse (world b),
         error (world b), timers (world b), capturing (world b),
         mics (world b), last (trace (world b))))
    <$> browse_all
          (map (λ l, (l, true))
             (start_button :: utterance 2000
              ++ [PipelineCallback 0 (OnTranscription "next step please");
                  PipelineCallback 0 (OnResponseComplete "Moving to the next step.");
                  PipelineSettles 0 (Rejected (Js.ErrorObject "SynthesisFailed"))
                    true]))
          (opened soup)
  = Some (CookingVoice, "next step please", "Moving to the next step.",
          Some "SynthesisFailed", [CallNextStep (render (recipe_ready soup))],
          false, [false], Some (TurnSettled 0)).
Proof. vm_compute. reflexivity. Qed.

(** ** The step pointer during a turn *)

(** Of the handlers of the voice session, only the Next and Previous buttons
    and a timer write the step pointer. *)
Lemma exec_step_pointer (l : Label) (w w' : World) :
  exec l w = Some w' → currentStep w' ≠ currentStep w →
  l = TimerFires ∨ l = ClickNext ∨ l = ClickPrevious.
Proof.
  intros Hexec Hne.
  destruct l; cbn in Hexec; auto; exfalso; apply Hne; clear Hne.
  - case_decide; [|done]. injection Hexec as <-.
    apply startVoiceCooking_currentStep.
  - case_decide; [|done]. injection Hexec as <-.
    apply stopVoiceCooking_currentStep.
  - destruct (capturing w); [|done].
    destruct (vad_speech w) eqn:Hs, verdict as [[]|]; try done;
      injection Hexec as <-; apply VAD_processSamples_currentStep.
  - destruct (capturing w); [|done]. by injection Hexec as <-.
  - destruct (pending turn (calls w)) as [c|]; [|done].
    cbn in Hexec. injection Hexec as <-. apply callback_currentStep.
  - destruct (pending turn (calls w)) as [c|]; [|done].
    cbn in Hexec. injection Hexec as <-.
    apply processVoiceCommand_settled_currentStep.
Qed.

(** C7 (as the specification words it) fails: the timer set by the final
    reply fires while the call that produced the reply is still pending (it
    has yet to synthesize and play), and moves the step pointer. *)
Lemma C7_counterexample :
  (λ w, (fst <$> calls w, currentStep w))
    <$> run (start_click (recipe_ready soup) :: utterance 2000
             ++ [PipelineCallback 0 (OnTranscription "next step please");
                 PipelineCallback 0 (OnResponseComplete "Moving to the next step.")])
          (recipe_ready soup)
  = Some ([0%nat], 0)
  ∧ (λ w, (fst <$> calls w, currentStep w))
      <$> run (start_click (recipe_ready soup) :: utterance 2000
               ++ [PipelineCallback 0 (OnTranscription "next step please");
                   PipelineCallback 0 (OnResponseComplete "Moving to the next step.");
                   TimerFires])
            (recipe_ready soup)
    = Some ([0%nat], 1).
Proof. split; vm_compute; reflexivity. Qed.

(** ** Stopping during a turn *)

Lemma stopVoiceCooking_calls w : calls (stopVoiceCooking w) = calls w.
Proof.
  unfold stopVoiceCooking. by open_world_refs w.
Qed.

Lemma stopVoiceCooking_effects (w : World) :
  let s := stopVoiceCooking w in
  trace s = trace w ++ stop_events w
  ∧ mics s = match micRef w with
             | Some m => <[m:=false]> (mics w)
             | None => mics w
             end
  ∧ vad_listeners s = match vadUnsub w with
                      | Some l => filter (λ e, e.1 ≠ l) (vad_listeners w)
                      | None => vad_listeners w
                      end
  ∧ state s = RecipeReady ∧ audioLevel s = 0.
Proof.
  cbv zeta. unfold stopVoiceCooking, stop_events.
  open_world_refs w; by rewrite <- ?app_assoc, ?app_nil_r.
Qed.

Lemma stopVoiceCooking_keeps (w : World) :
  let s := stopVoiceCooking w in
  calls s = calls w ∧ timers s = timers w ∧ currentStep s = currentStep w
  ∧ error s = error w ∧ micRef s = micRef w ∧ vadUnsub s = vadUnsub w.
Proof. cbv zeta. unfold stopVoiceCooking. by open_world_refs w. Qed.

(** C6 (as the code has it): a stop while a call is pending calls [stop()]
    on the microphone of [micRef] and the unsubscribe function of [vadUnsub],
    writes recipe-ready and level 0, and leaves the call pending.  The call
    then runs to completion like any other: its callbacks still write the
    transcript and the reply and set the timer of the command, its result is
    still written when it resolves, and the timer of a next-step command
    still moves the step pointer. *)
Theorem C6_stop_during_turn (w : World) (turn : nat) (c : Closure) :
  pending turn (calls w) = Some c →
  let s := stopVoiceCooking w in
  (trace s = trace w ++ stop_events w
   ∧ mics s = match micRef w with
              | Some m => <[m:=false]> (mics w)
              | None => mics w
              end
   ∧ vad_listeners s = match vadUnsub w with
                       | Some l => filter (λ e, e.1 ≠ l) (vad_listeners w)
                       | None => vad_listeners w
                       end
   ∧ state s = RecipeReady ∧ audioLevel s = 0)
  ∧ calls s = calls w
  ∧ (∀ text,
       exec (PipelineCallback turn (OnTranscription text)) s
       = Some (callback c (OnTranscription text) s)
       ∧ voiceTranscript (callback c (OnTranscription text) s) = text)
  ∧ (∀ text,
       exec (PipelineCallback turn (OnResponseComplete text)) s
       = Some (callback c (OnResponseComplete text) s)
       ∧ voiceResponse (callback c (OnResponseComplete text) s) = text
       ∧ (ascii_text text = true → ascii_text (c_voiceTranscript c) = true →
          timers (callback c (OnResponseComplete text) s)
          = timers w
            ++ scheduled (onResponseComplete_command text (c_voiceTranscript c))
                 c))
  ∧ (∀ result mic_ok,
       let s' := processVoiceCommand_settled c turn (Resolved (Some result))
                   mic_ok s in
       exec (PipelineSettles turn (Resolved (Some result)) mic_ok) s = Some s'
       ∧ voiceTranscript s' = transcription result
       ∧ voiceResponse s' = response result
       ∧ state s' = RecipeReady)
  ∧ (∀ text r,
       ascii_text text = true → ascii_text (c_voiceTranscript c) = true →
       onResponseComplete_command text (c_voiceTranscript c) = Next →
       timers w = [] →
       c_recipe c = Some r → c_currentStep c < stepCount r - 1 →
       currentStep
         <$> run [PipelineCallback turn (OnResponseComplete text); TimerFires] s
       = Some (c_currentStep c + 1))
  ∧ (∀ text,
       ascii_text text = true → ascii_text (c_voiceTranscript c) = true →
       onResponseComplete_command text (c_voiceTranscript c) = Previous →
       timers w = [] → 0 < c_currentStep c →
       currentStep
         <$> run [PipelineCallback turn (OnResponseComplete text); TimerFires] s
       = Some (c_currentStep c - 1)).
Proof.
  intros Hp. cbv zeta.
  destruct (stopVoiceCooking_keeps w) as (Hcalls & Htimers & _).
  assert (Hps : pending turn (calls (stopVoiceCooking w)) = Some c)
    by (by rewrite Hcalls).
  split; [apply stopVoiceCooking_effects|].
  split; [done|].
  split; [|split; [|split; [|split]]].
  - intros text. cbn [exec]. rewrite Hps. done.
  - intros text. cbn [exec]. rewrite Hps. split; [done|].
    unfold callback, scheduled. rewrite <- Htimers.
    destruct (onResponseComplete_command _ _); split; try done.
    intros _ _. symmetry. apply app_nil_r.
  - intros result mic_ok. cbn [exec]. rewrite Hps. split; [done|].
    unfold processVoiceCommand_settled, restart_listening, apply_outcome.
    clear Hp Hps Hcalls Htimers. unfold stopVoiceCooking.
    destruct (decide _); by open_world_refs w.
  - intros text r _ _ Hcmd Ht Hr Hlt. apply Z.ltb_lt in Hlt.
    cbn [run exec]. rewrite Hps. cbn [mbind option_bind].
    unfold callback. rewrite Hcmd.
    rewrite Ht in Htimers. clear Hp Hps Hcalls Ht. revert Htimers.
    unfold stopVoiceCooking. open_world_refs w; intros ->; cbn;
      unfold nextStep; rewrite Hr, Hlt; reflexivity.
  - intros text _ _ Hcmd Ht Hlt. apply Z.ltb_lt in Hlt.
    cbn [run exec]. rewrite Hps. cbn [mbind option_bind].
    unfold callback. rewrite Hcmd.
    rewrite Ht in Htimers. clear Hp Hps Hcalls Ht. revert Htimers.
    unfold stopVoiceCooking. open_world_refs w; intros ->; cbn;
      unfold prevStep; rewrite Hlt; reflexivity.
Qed.

Lemma C6_stop_during_turn_witness :
  (λ w, (state w, voiceTranscript w, voiceResponse w))
    (processVoiceCommand_settled (render (recipe_ready soup)) 0
       (Resolved (Some {| transcription := "next step please";
                          response := "Moving to the next step." |}))
       true
       (stopVoiceCooking
          (processVoiceCommand (render (recipe_ready soup)) (repeat 0 2000)
             listening_soup)))
  = (RecipeReady, "next step please", "Moving to the next step.")
  ∧ currentStep
      <$> run [PipelineCallback 0 (OnResponseComplete "Moving to the next step.");
               TimerFires]
            (stopVoiceCooking
               (processVoiceCommand (render (recipe_ready soup)) (repeat 0 2000)
                  listening_soup))
    = Some (0 + 1).
Proof.
  pose proof (C6_stop_during_turn
                (processVoiceCommand (render (recipe_ready soup)) (repeat 0 2000)
                   listening_soup)
                0 (render (recipe_ready soup)) eq_refl) as H.
  cbv zeta in H. destruct H as (_ & _ & _ & _ & H & Hstep & _). split.
  - destruct (H {| transcription := "next step please";
                   response := "Moving to the next step." |} true)
      as (_ & Ht & Hr & Hs).
    by rewrite Ht, Hr, Hs.
  - apply (Hstep "Moving to the next step." soup); reflexivity.
Defined.

(** C6 (as the specification words it) fails: the user stops while call 0 is
    pending; the call completes afterwards, and its transcript and reply are
    shown and its command moves the step pointer. *)
Lemma C6_counterexample :
  (λ w, (state w, fst <$> calls w, voiceTranscript w, voiceResponse w, currentStep w))
    <$> run (start_click (recipe_ready soup) :: utterance 2000 ++ [ClickStop])
          (recipe_ready soup)
  = Some (RecipeReady, [0%nat], "", "Step 1: Chop the onions", 0)
  ∧ (λ w, (state w, fst <$> calls w, voiceTranscript w, voiceResponse w, currentStep w))
      <$> run (start_click (recipe_ready soup) :: utterance 2000
               ++ [ClickStop;
                   PipelineCallback 0 (OnTranscription "next step please");
                   PipelineCallback 0 (OnResponseComplete "Moving to the next step.");
                   PipelineSettles 0
                     (Resolved (Some {| transcription := "next step please";
                                        response := "Moving to the next step." |}))
                     true;
                   TimerFires])
            (recipe_ready soup)
    = Some (RecipeReady, [], "next step please", "Moving to the next step.", 1).
Proof. split; vm_compute; reflexivity. Qed.

(** ** One turn at a time *)

Lemma capturing_false (l : list bool) :
  existsb id l = false ↔ ∀ m, l !! m ≠ Some true.
Proof.
  induction l as [|b l IH]; cbn.
  - split; [by intros _ [] | done].
  - rewrite orb_false_iff, IH. split.
    + intros [-> H] [|m]; cbn; [done | apply H].
    + intros H. split.
      * destruct b; [by destruct (H 0%nat) | done].
      * intros m. apply (H (S m)).
Qed.

Lemma stop_the_only_mic (l : list bool) (m : nat) :
  (∀ k, l !! k = Some true → k = m) → existsb id (<[m:=false]> l) = false.
Proof.
  intros H. apply capturing_false. intros k Hk.
  destruct (decide (m = k)) as [->|Hne].
  - by apply (insert_false_not_true k k l).
  - rewrite list_lookup_insert_ne in Hk by done. apply H in Hk. congruence.
Qed.

Lemma stop_keeps_silence (l : list bool) (m : nat) :
  existsb id l = false → existsb id (<[m:=false]> l) = false.
Proof.
  intros H. apply stop_the_only_mic. intros k Hk.
  by apply capturing_false with (m := k) in H.
Qed.

Lemma new_mic_is_the_only_one (l : list bool) (ok : bool) (k : nat) :
  existsb id l = false →
  <[length l:=ok]> (l ++ [false]) !! k = Some true → k = length l.
Proof.
  intros H Hk. destruct (decide (length l = k)) as [|Hne]; [done|].
  rewrite list_lookup_insert_ne in Hk by done.
  apply lookup_app_Some in Hk as [Hk|[Hge Hk]].
  - by apply capturing_false with (m := k) in H.
  - destruct (k - length l)%nat as [|n] eqn:E; cbn in Hk; [lia | done].
Qed.

Lemma serialized_wiring (w w' : World) :
  wiring w' = wiring w → serialized w → serialized w'.
Proof.
  unfold wiring. intros [= Hr Hu Hm Hl Hc] [Hmic Hph]. split.
  - intros m. unfold only_mic in Hmic. rewrite Hm, Hr. apply Hmic.
  - destruct Hph as [H1 H2|l c H1 H2 H3|t c H1 H2 H3].
    + apply Quiet; congruence.
    + apply (Listening _ l c); congruence.
    + apply (Processing _ t c); try congruence.
      unfold capturing in *. congruence.
Qed.

Lemma stopVoiceCooking_serialized (w : World) :
  serialized w → serialized (stopVoiceCooking w).
Proof.
  intros [Hmic Hph]. unfold stopVoiceCooking. split.
  - unfold only_mic in *. revert Hmic. clear Hph.
    open_world_refs w; intros Hmic k Hk; try by apply Hmic.
    + apply list_lookup_insert_Some in Hk as [(_ & ? & _)|[_ Hk]]; [done|].
      by apply Hmic.
    + apply list_lookup_insert_Some in Hk as [(_ & ? & _)|[_ Hk]]; [done|].
      by apply Hmic.
  - destruct Hph as [H1 H2|l' c H1 H2 H3|t c H1 H2 H3]; revert H1 H2;
      try revert H3; clear Hmic; unfold capturing;
      open_world_refs w; intros; simplify_eq.
    all: try (by apply Quiet).
    all: try (apply Quiet; [|done]; cbn; by rewrite decide_False by (by intros ?)).
    all: try (by apply (Processing _ t c); cbn;
                rewrite ?stop_keeps_silence by done).
Qed.

Lemma processVoiceCommand_serialized c c' l audioData (w : World) :
  only_mic w → vad_listeners w = [(l, c')] → vadUnsub w = Some l →
  calls w = [] →
  serialized (processVoiceCommand c audioData w).
Proof.
  intros Hmic Hl Hu Hc. unfold processVoiceCommand.
  destruct (pipelineRef w) as [p|], (c_recipe c) as [r|];
    try (split; [done | by apply (Listening _ l c')]).
  generalize (systemPrompt c r). intros prompt.
  unfold only_mic, serialized, capturing in *. revert Hmic Hl Hu Hc.
  open_world_refs w; intros; simplify_eq.
  - assert (Hs : existsb id (<[w_mic:=false]> w_mics) = false).
    { apply stop_the_only_mic. intros k Hk. apply Hmic in Hk. congruence. }
    split.
    + intros k Hk. cbn in Hk. by apply capturing_false with (m := k) in Hs.
    + apply (Processing _ w_turns c); cbn; try done.
      by rewrite decide_False by (by intros ?).
  - assert (Hs : existsb id w_mics = false).
    { apply capturing_false. intros k Hk. by apply Hmic in Hk. }
    split.
    + intros k Hk. cbn in Hk. by apply Hmic.
    + apply (Processing _ w_turns c); cbn; try done.
      by rewrite decide_False by (by intros ?).
Qed.

Lemma VAD_emit_serialized activity (w : World) :
  serialized w → serialized (VAD_emit activity w).
Proof.
  intros [Hmic Hph]. unfold VAD_emit.
  destruct Hph as [H1 H2|l c H1 H2 H3|t c H1 H2 H3]; rewrite H1; cbn.
  - split; [done | by apply Quiet].
  - unfold onSpeechActivity_callback, VAD_popSpeechSegment.
    destruct activity; [split; [done | by apply (Listening _ l c)]|].
    assert (Hpop : serialized (set_vad_segment None w)).
    { apply (serialized_wiring w); [done|].
      split; [done | by apply (Listening _ l c)]. }
    destruct (vad_segment w) as [seg|]; [|done].
    destruct (_ <? _); [|done].
    by apply (processVoiceCommand_serialized c c l).
  - split; [done | by apply (Processing _ t c)].
Qed.

Lemma VAD_processSamples_serialized chunk verdict (w : World) :
  serialized w → serialized (VAD_processSamples chunk verdict w).
Proof.
  intros Hs. unfold VAD_processSamples.
  destruct (vad_speech w), verdict as [[]|]; try done.
  - apply VAD_emit_serialized. by apply (serialized_wiring w).
  - by apply (serialized_wiring w).
  - apply VAD_emit_serialized. by apply (serialized_wiring w).
Qed.

Lemma pending_single (turn t : nat) (c c' : Closure) :
  pending turn [(t, c)] = Some c' → t = turn ∧ c = c'.
Proof. cbn. case_decide; [by intros [= ->] | done]. Qed.

Lemma processVoiceCommand_settled_serialized c turn o mic_ok (w : World) :
  serialized w → pending turn (calls w) = Some c →
  serialized (processVoiceCommand_settled c turn o mic_ok w).
Proof.
  intros [Hmic Hph] Hp.
  destruct Hph as [H1 H2|l c' H1 H2 H3|t c' H1 H2 H3];
    try (rewrite H2 in Hp; discriminate); try (rewrite H3 in Hp; discriminate).
  rewrite H2 in Hp. apply pending_single in Hp as [-> ->].
  unfold processVoiceCommand_settled, restart_listening, apply_outcome.
  unfold only_mic, serialized, capturing in *. revert Hmic H1 H2 H3.
  destruct (decide _), o as [[res|]|];
    open_world w; intros; simplify_eq; cbn; rewrite decide_False by (by intros ?);
    (split; [|by apply Quiet]); intros k Hk; cbn in *.
  all: try (by apply new_mic_is_the_only_one in Hk as ->).
  all: by apply capturing_false with (m := k) in H3.
Qed.

Lemma quiet_serialized (w : World) : quiet w → serialized w.
Proof.
  intros (Hc & Hl & Hp). split; [|by apply Quiet].
  intros m Hm. by apply capturing_false with (m := m) in Hc.
Qed.

Lemma startVoiceCooking_serialized c loaded ensure_ok tts mic_ok (w : World) :
  quiet w → serialized (startVoiceCooking c loaded ensure_ok tts mic_ok w).
Proof.
  intros Hq. unfold startVoiceCooking.
  destruct (c_recipe c) as [r|]; [|by apply quiet_serialized].
  destruct (_ && _).
  { apply (serialized_wiring w); [done | by apply quiet_serialized]. }
  generalize (stepText c r). intros text.
  destruct Hq as (Hc & Hl & Hp).
  unfold speak_step, serialized, only_mic, capturing in *.
  revert Hc Hl Hp. open_world w. intros; simplify_eq.
  destruct tts, w_pipelineRef; compute_world;
    (split;
     [ intros k Hk; cbn in Hk; by apply new_mic_is_the_only_one in Hk as ->
     | by apply (Listening _ w_subscriptions c) ]).
Qed.

Lemma exec_serialized (l : Label) (w w' : World) :
  session_label l → serialized w → exec l w = Some w' → serialized w'.
Proof.
  intros Hl Hs Hexec. destruct l; cbn in Hexec; try done.
  - case_decide; [|done]. injection Hexec as <-.
    by apply stopVoiceCooking_serialized.
  - destruct (recipe w); [|done]. case_decide; [|done]. injection Hexec as <-.
    apply (serialized_wiring w); [apply nextStep_wiring | done].
  - case_decide; [|done]. injection Hexec as <-.
    apply (serialized_wiring w); [apply prevStep_wiring | done].
  - destruct (capturing w); [|done].
    destruct (vad_speech w) eqn:Hsp, verdict as [[]|]; try done;
      injection Hexec as <-; by apply VAD_processSamples_serialized.
  - destruct (capturing w); [|done]. injection Hexec as <-.
    by apply (serialized_wiring w).
  - destruct (pending turn (calls w)) as [c|]; [|done].
    cbn in Hexec. injection Hexec as <-.
    apply (serialized_wiring w); [apply callback_wiring | done].
  - destruct (pending turn (calls w)) as [c|] eqn:Hp; [|done].
    cbn in Hexec. injection Hexec as <-.
    by apply processVoiceCommand_settled_serialized.
  - destruct (timers w) as [|task rest]; [done|]. injection Hexec as <-.
    apply (serialized_wiring w); [|done].
    by rewrite run_task_wiring.
Qed.

Lemma run_serialized (ls : list Label) (w w' : World) :
  Forall session_label ls → serialized w → run ls w = Some w' → serialized w'.
Proof.
  revert w. induction ls as [|l ls IH]; intros w Hls Hs Hrun.
  - by injection Hrun as <-.
  - inversion Hls as [|? ? Hl Hls']; subst. cbn in Hrun.
    destruct (exec l w) as [w1|] eqn:Hexec; [|done]. cbn in Hrun.
    apply (IH w1); [done | by apply (exec_serialized l w) | done].
Qed.

(** *** The calls of a turn, in order *)

Lemma processVoiceCommand_order c r p audioData (w : World) :
  c_recipe c = Some r → pipelineRef w = Some p →
  trace (processVoiceCommand c audioData w)
  = trace w ++ stop_events w
    ++ [ProcessTurn (turns w) (length audioData) (systemPrompt c r)]
  ∧ (∀ m, micRef w = Some m →
          mics (processVoiceCommand c audioData w) !! m ≠ Some true)
  ∧ (∀ l, vadUnsub w = Some l →
          l ∉ fst <$> vad_listeners (processVoiceCommand c audioData w)).
Proof.
  intros Hr Hp. unfold processVoiceCommand, stop_events. rewrite Hr, Hp.
  generalize (systemPrompt c r). intros prompt. clear Hr Hp.
  open_world_refs w; (split; [by rewrite <- ?app_assoc|]); split;
    intros k [= <-]; by (apply insert_false_not_true || apply filter_ne_fst).
Qed.

Lemma processVoiceCommand_settled_order c turn o mic_ok (w : World) :
  trace (processVoiceCommand_settled c turn o mic_ok w)
  = trace w ++ [TurnSettled turn]
    ++ (if decide (c_state c = CookingVoice)
        then [VadReset; MicStart (length (mics w))] else [])
  ∧ voiceTranscript (processVoiceCommand_settled c turn o mic_ok w)
    = voiceTranscript (apply_outcome o w)
  ∧ voiceResponse (processVoiceCommand_settled c turn o mic_ok w)
    = voiceResponse (apply_outcome o w)
  ∧ error (processVoiceCommand_settled c turn o mic_ok w)
    = error (apply_outcome o w).
Proof.
  unfold processVoiceCommand_settled, restart_listening, apply_outcome.
  destruct (decide _), o as [[res|]|]; open_world w;
    by rewrite <- ?app_assoc, ?app_nil_r.
Qed.

(** C3 (as the specification words it) fails: the user stops while call 0
    is pending and starts again; capture is running again before call 0 has
    settled, and the next utterance puts call 1 in flight beside it. *)
Lemma C3_counterexample :
  (λ w, (fst <$> calls w, capturing w))
    <$> run (start_click (recipe_ready soup) :: utterance 2000
             ++ [ClickStop; start_click (recipe_ready soup)])
          (recipe_ready soup)
  = Some ([0%nat], true)
  ∧ (λ w, (fst <$> calls w, capturing w))
      <$> run (start_click (recipe_ready soup) :: utterance 2000
               ++ [ClickStop; start_click (recipe_ready soup)]
               ++ utterance 2000)
            (recipe_ready soup)
    = Some ([0%nat; 1%nat], false).
Proof. split; vm_compute; reflexivity. Qed.

(** * Properties of the rest of the component *)

(** ** Trimming and splitting *)

Lemma trimStart_shorter (s : string) :
  (String.length (JsString.trimStart s) ≤ String.length s)%nat.
Proof.
  induction s as [|c s IH]; cbn; [lia|].
  destruct (JsString.is_space c); cbn; lia.
Qed.

(** A string that begins with white space is not what [trimStart] returns. *)
Lemma trimStart_fixed_head (c : ascii) (s : string) :
  JsString.trimStart (String c s) = String c s → JsString.is_space c = false.
Proof.
  cbn [JsString.trimStart]. destruct (JsString.is_space c); [|done].
  intros H. pose proof (trimStart_shorter s) as Hs. rewrite H in Hs.
  cbn in Hs. lia.
Qed.

Lemma trimEnd_idem (s : string) :
  JsString.trimEnd (JsString.trimEnd s) = JsString.trimEnd s.
Proof.
  induction s as [|c s IH]; [reflexivity|]. cbn [JsString.trimEnd].
  destruct (JsString.trimEnd s) as [|d t] eqn:E.
  - destruct (JsString.is_space c) eqn:Ec; [reflexivity|].
    cbn [JsString.trimEnd]. by rewrite Ec.
  - cbn [JsString.trimEnd] in *. by rewrite IH.
Qed.

Lemma trimEnd_tail (c : ascii) (s : string) :
  JsString.trimEnd (String c s) = String c s → JsString.trimEnd s = s.
Proof.
  cbn [JsString.trimEnd]. destruct (JsString.trimEnd s) as [|d t] eqn:E.
  - destruct (JsString.is_space c); [discriminate|]. by intros [= <-].
  - by intros [= <-].
Qed.

Lemma trimEnd_trimStart (s : string) :
  JsString.trimEnd s = s →
  JsString.trimEnd (JsString.trimStart s) = JsString.trimStart s.
Proof.
  induction s as [|c s IH]; [done|]. intros H. cbn [JsString.trimStart].
  destruct (JsString.is_space c); [|done]. apply IH, (trimEnd_tail c), H.
Qed.

Lemma trimStart_idem (s : string) :
  JsString.trimStart (JsString.trimStart s) = JsString.trimStart s.
Proof.
  induction s as [|c s IH]; [done|]. cbn [JsString.trimStart].
  destruct (JsString.is_space c) eqn:E; [done|].
  cbn [JsString.trimStart]. by rewrite E.
Qed.

Lemma trimStart_trimEnd (s : string) :
  JsString.trimStart s = s →
  JsString.trimStart (JsString.trimEnd s) = JsString.trimEnd s.
Proof.
  destruct s as [|c s]; [done|]. intros E%trimStart_fixed_head.
  cbn [JsString.trimEnd].
  destruct (JsString.trimEnd s); rewrite ?E; cbn [JsString.trimStart];
    by rewrite E.
Qed.

Lemma trim_trimmed (s : string) : trimmed (JsString.trim s).
Proof.
  unfold trimmed, JsString.trim.
  rewrite trimStart_trimEnd by apply trimStart_idem.
  apply trimEnd_idem.
Qed.

Lemma trimmed_ends (s : string) :
  trimmed s ↔ JsString.trimStart s = s ∧ JsString.trimEnd s = s.
Proof.
  unfold trimmed, JsString.trim. split.
  - intros H. split.
    + rewrite <- H at 1.
      by rewrite trimStart_trimEnd by apply trimStart_idem.
    + rewrite <- H. apply trimEnd_idem.
  - intros [H1 H2]. by rewrite H1.
Qed.

Lemma trimEnd_app (a b : string) :
  JsString.trimEnd (a +:+ b)
  = match JsString.trimEnd b with
    | EmptyString => JsString.trimEnd a
    | t => a +:+ t
    end.
Proof.
  induction a as [|c a IH].
  - change (EmptyString +:+ b) with b. by destruct (JsString.trimEnd b).
  - change (String c a +:+ b) with (String c (a +:+ b)).
    cbn [JsString.trimEnd]. rewrite IH.
    destruct (JsString.trimEnd b) as [|d t]; [done|].
    by destruct a.
Qed.

Lemma split_nonempty (sep : ascii) (s : string) : JsString.split sep s ≠ [].
Proof.
  destruct s as [|c s]; cbn [JsString.split]; [done|].
  destruct (decide (c = sep)); [done|]. by destruct (JsString.split sep s).
Qed.

Lemma split_single_line (s : string) :
  single_line s = true → JsString.split LF s = [s].
Proof.
  induction s as [|c s IH]; [done|]. cbn [single_line JsString.split].
  intros [Hc Hs]%andb_true_iff. rewrite (IH Hs).
  destruct (decide (c = LF)) as [->|]; [|done].
  by rewrite bool_decide_eq_true_2 in Hc.
Qed.

Lemma split_app_newline (a b : string) :
  single_line a = true →
  JsString.split LF (a +:+ newline +:+ b) = a :: JsString.split LF b.
Proof.
  induction a as [|c a IH]; intros H.
  - change (EmptyString +:+ newline +:+ b) with (String LF b).
    cbn [JsString.split]. by rewrite decide_True.
  - change (String c a +:+ newline +:+ b) with (String c (a +:+ newline +:+ b)).
    cbn [single_line] in H. apply andb_true_iff in H as [Hc Ha].
    cbn [JsString.split]. rewrite (IH Ha).
    destruct (decide (c = LF)) as [->|]; [|done].
    by rewrite bool_decide_eq_true_2 in Hc.
Qed.

Lemma split_join (lines : list string) :
  Forall (λ l, single_line l = true) lines → lines ≠ [] →
  JsString.split LF (JsString.join newline lines) = lines.
Proof.
  induction 1 as [|l lines Hl Hls IH]; [done|]. intros _.
  destruct lines as [|l' lines].
  - by apply split_single_line.
  - cbn [JsString.join]. rewrite split_app_newline by done.
    f_equal. by apply IH.
Qed.

Lemma split_single_lines (s : string) :
  Forall (λ l, single_line l = true) (JsString.split LF s).
Proof.
  induction s as [|c s IH]; cbn [JsString.split].
  - by constructor.
  - destruct (decide (c = LF)) as [->|Hc]; [by constructor|].
    destruct (JsString.split LF s) as [|l ls]; inversion IH; subst.
    + constructor; [|done]. cbn. by rewrite bool_decide_eq_false_2.
    + constructor; [|done]. cbn. rewrite bool_decide_eq_false_2 by done. done.
Qed.

Lemma single_line_trimStart (s : string) :
  single_line s = true → single_line (JsString.trimStart s) = true.
Proof.
  induction s as [|c s IH]; [done|]. cbn [JsString.trimStart].
  destruct (JsString.is_space c); [|done].
  cbn [single_line]. intros [_ H]%andb_true_iff. auto.
Qed.

Lemma single_line_trimEnd (s : string) :
  single_line s = true → single_line (JsString.trimEnd s) = true.
Proof.
  induction s as [|c s IH]; [done|]. cbn [single_line JsString.trimEnd].
  intros [Hc Hs]%andb_true_iff. specialize (IH Hs).
  destruct (JsString.trimEnd s).
  - destruct (JsString.is_space c); [done|]. cbn. by rewrite Hc.
  - cbn [single_line] in *. by rewrite Hc.
Qed.

Lemma single_line_trim (s : string) :
  single_line s = true → single_line (JsString.trim s) = true.
Proof. intros H. by apply single_line_trimEnd, single_line_trimStart. Qed.

Lemma single_line_app (a b : string) :
  single_line (a +:+ b) = single_line a && single_line b.
Proof.
  induction a as [|c a IH]; [done|].
  change (String c a +:+ b) with (String c (a +:+ b)).
  cbn [single_line]. rewrite IH. by rewrite andb_assoc.
Qed.

Lemma single_line_slice (n : nat) (s : string) :
  single_line s = true → single_line (JsString.slice n s) = true.
Proof.
  revert s. induction n as [|n IH]; intros [|c s]; cbn; try done.
  intros [_ H]%andb_true_iff. auto.
Qed.

Lemma truthy_nonempty (s : string) : JsString.truthy s = true ↔ s ≠ EmptyString.
Proof. by destruct s. Qed.

Lemma recipe_lines_text_lines (text : string) :
  Forall text_line (recipe_lines text).
Proof.
  unfold recipe_lines. apply Forall_forall. intros l Hl.
  apply list_elem_of_In, filter_In in Hl as [Hl Ht].
  apply in_map_iff in Hl as (l0 & <- & Hl0).
  split; [apply trim_trimmed|]. split; [by apply truthy_nonempty|].
  apply single_line_trim.
  pose proof (split_single_lines text) as H.
  rewrite Forall_forall in H. apply H. by apply list_elem_of_In.
Qed.

Lemma recipe_lines_join (lines : list string) :
  Forall (λ l, single_line l = true) lines →
  recipe_lines (JsString.join newline lines)
  = List.filter JsString.truthy (map JsString.trim lines).
Proof.
  intros H. unfold recipe_lines. destruct lines as [|l lines]; [done|].
  by rewrite split_join.
Qed.

(** ** The recipe parser *)

Lemma startsWith_head (l : string) (k : ascii) (p : string) :
  JsString.startsWith l (String k p) = true → ∃ l', l = String k l'.
Proof.
  unfold JsString.startsWith. destruct l as [|c l]; cbn; [done|].
  destruct (ascii_dec k c) as [->|]; [eauto | done].
Qed.

Lemma last_value_snoc (key : string) (lines : list string) (l : string) :
  last_value key (lines ++ [l])
  = if JsString.startsWith l key then Some (value_after key l)
    else last_value key lines.
Proof.
  unfold last_value. rewrite List.filter_app. cbn [List.filter].
  destruct (JsString.startsWith l key).
  - by rewrite last_snoc.
  - by rewrite app_nil_r.
Qed.

Lemma parse_line_header (st : Parsing) (l : string) :
  header_fields (parse_line st l)
  = (if JsString.startsWith l "RECIPE NAME:"
     then value_after "RECIPE NAME:" l else p_name st,
     if JsString.startsWith l "COOK TIME:"
     then value_after "COOK TIME:" l else p_cookTime st,
     if JsString.startsWith l "DIFFICULTY:"
     then value_after "DIFFICULTY:" l else p_difficulty st,
     if JsString.startsWith l "NUTRITION:"
     then value_after "NUTRITION:" l else p_nutrition st).
Proof.
  unfold parse_line, header_fields.
  destruct (JsString.startsWith l "RECIPE NAME:") eqn:E1;
    [apply startsWith_head in E1 as [l' ->]; reflexivity|].
  destruct (JsString.startsWith l "COOK TIME:") eqn:E2;
    [apply startsWith_head in E2 as [l' ->]; reflexivity|].
  destruct (JsString.startsWith l "DIFFICULTY:") eqn:E3;
    [apply startsWith_head in E3 as [l' ->]; reflexivity|].
  destruct (JsString.startsWith l "NUTRITION:") eqn:E4; [reflexivity|].
  destruct (decide (l = "INGREDIENTS:")); [reflexivity|].
  destruct (decide (l = "STEPS:")); [reflexivity|].
  destruct (p_section st); [reflexivity| |].
  - by destruct (JsString.startsWith l "-").
  - by destruct (JsString.test_number l).
Qed.

Lemma parse_lines_header (lines : list string) :
  header_fields (fold_left parse_line lines parsing_start)
  = (default "Delicious Recipe" (last_value "RECIPE NAME:" lines),
     default "Unknown" (last_value "COOK TIME:" lines),
     default "Medium" (last_value "DIFFICULTY:" lines),
     default "N/A" (last_value "NUTRITION:" lines)).
Proof.
  induction lines as [|l lines IH] using rev_ind; [reflexivity|].
  rewrite fold_left_app. cbn [fold_left]. rewrite parse_line_header.
  rewrite !last_value_snoc.
  unfold header_fields in IH. injection IH as -> -> -> ->.
  by repeat destruct (JsString.startsWith l _).
Qed.

(** X1: the four header fields of the recipe parsed from an ASCII reply.
    Each one is the text after the key of the last line that starts with that
    key, trimmed; when no line starts with the key the field keeps its
    default: "Delicious Recipe", "Unknown", "Medium", "N/A". *)
Theorem X1_parse_header_last_wins (text : string) :
  ascii_text text = true →
  let r := parseRecipeText text in
  let lines := recipe_lines text in
  name r = default "Delicious Recipe" (last_value "RECIPE NAME:" lines)
  ∧ cookTime r = Some (default "Unknown" (last_value "COOK TIME:" lines))
  ∧ difficulty r = Some (default "Medium" (last_value "DIFFICULTY:" lines))
  ∧ nutrition r = Some (default "N/A" (last_value "NUTRITION:" lines)).
Proof.
  intros _.
  cbv zeta. unfold parseRecipeText. cbn [name cookTime difficulty nutrition].
  pose proof (parse_lines_header (recipe_lines text)) as H.
  unfold header_fields in H. injection H as -> -> -> ->. done.
Qed.

Lemma X1_parse_header_last_wins_witness :
  let text := "RECIPE NAME: Soup" +:+ newline +:+ "  RECIPE NAME:  Stew  " in
  ascii_text text = true
  ∧ name (parseRecipeText text) = "Stew"
  ∧ cookTime (parseRecipeText text) = Some "Unknown".
Proof.
  cbv zeta.
  destruct (X1_parse_header_last_wins
              ("RECIPE NAME: Soup" +:+ newline +:+ "  RECIPE NAME:  Stew  ")
              eq_refl) as (Hn & Hc & _).
  split; [reflexivity|]. split; [rewrite Hn | rewrite Hc]; reflexivity.
Defined.

Lemma parse_line_sections (st : Parsing) (l : string) :
  let st' := parse_line st l in
  (l ≠ "INGREDIENTS:" →
   (p_section st ≠ IngredientsSection ∧ p_ingredients st = []) →
   p_section st' ≠ IngredientsSection ∧ p_ingredients st' = [])
  ∧ (l ≠ "STEPS:" →
     (p_section st ≠ StepsSection ∧ p_steps st = []) →
     p_section st' ≠ StepsSection ∧ p_steps st' = []).
Proof.
  cbv zeta. unfold parse_line.
  repeat case_match; subst; split; intros ? [? ?]; cbn in *; split; congruence.
Qed.

Lemma parse_lines_sections (lines : list string) :
  let st := fold_left parse_line lines parsing_start in
  ("INGREDIENTS:" ∉ lines →
   p_section st ≠ IngredientsSection ∧ p_ingredients st = [])
  ∧ ("STEPS:" ∉ lines → p_section st ≠ StepsSection ∧ p_steps st = []).
Proof.
  cbv zeta. induction lines as [|l lines [IHi IHs]] using rev_ind; [done|].
  rewrite fold_left_app. cbn [fold_left].
  destruct (parse_line_sections (fold_left parse_line lines parsing_start) l)
    as [Hi Hs].
  split; intros Hnot; rewrite elem_of_app, list_elem_of_singleton in Hnot.
  - apply Hi; [intros ->; apply Hnot; by right|].
    apply IHi. intros H. apply Hnot. by left.
  - apply Hs; [intros ->; apply Hnot; by right|].
    apply IHs. intros H. apply Hnot. by left.
Qed.

(** X2: a section is only entered by a line that is exactly its header.  When
    no line of an ASCII reply is [INGREDIENTS:] once trimmed, the parsed
    recipe has no ingredient, and when none is [STEPS:] it has no step,
    whatever else the reply holds. *)
Theorem X2_parse_needs_exact_headers (text : string) :
  ascii_text text = true →
  ("INGREDIENTS:" ∉ recipe_lines text → ingredients (parseRecipeText text) = [])
  ∧ ("STEPS:" ∉ recipe_lines text → steps (parseRecipeText text) = []).
Proof.
  intros _. unfold parseRecipeText. cbn [ingredients steps].
  destruct (parse_lines_sections (recipe_lines text)) as [Hi Hs].
  split; intros H; [apply Hi, H | apply Hs, H].
Qed.

Lemma X2_parse_needs_exact_headers_witness :
  ascii_text markdown_reply = true
  ∧ name (parseRecipeText markdown_reply) = "Omelette"
  ∧ ingredients (parseRecipeText markdown_reply) = []
  ∧ steps (parseRecipeText markdown_reply) = [].
Proof.
  split; [reflexivity|]. split; [reflexivity|].
  destruct (X2_parse_needs_exact_headers markdown_reply eq_refl) as [Hi Hs].
  split; [apply Hi | apply Hs]; apply (bool_decide_unpack _); vm_compute;
    exact I.
Defined.

Lemma single_line_replace (pattern replacement s : string) :
  single_line replacement = true → single_line s = true →
  single_line (JsString.replace pattern replacement s) = true.
Proof.
  intros Hr. induction s as [|c s IH]; intros Hs.
  - cbn [JsString.replace]. destruct (String.prefix pattern ""); [|done].
    rewrite single_line_app, Hr. by destruct (String.length pattern).
  - cbn [JsString.replace]. destruct (String.prefix pattern (String c s)).
    + rewrite single_line_app, Hr. by apply single_line_slice.
    + cbn [single_line] in *. apply andb_true_iff in Hs as [-> Hs]. auto.
Qed.

Lemma field_value_after (key l : string) :
  single_line l = true → field (value_after key l).
Proof.
  intros H. split; [apply trim_trimmed|].
  by apply single_line_trim, single_line_replace.
Qed.

Lemma trimEnd_after_digits (s : string) :
  JsString.trimEnd s = s →
  JsString.trimEnd (JsString.after_digits s) = JsString.after_digits s.
Proof.
  induction s as [|c s IH]; [done|]. intros H. cbn [JsString.after_digits].
  destruct (JsString.is_digit c); [|done]. apply IH, (trimEnd_tail c), H.
Qed.

Lemma single_line_after_digits (s : string) :
  single_line s = true → single_line (JsString.after_digits s) = true.
Proof.
  induction s as [|c s IH]; [done|]. intros H. cbn [JsString.after_digits].
  destruct (JsString.is_digit c); [|done].
  cbn [single_line] in H. apply andb_true_iff in H as [_ H]. auto.
Qed.

(** What is left of a trimmed line once its head is cut and the white space
    that follows is skipped is a field. *)
Lemma field_trimStart (s : string) :
  JsString.trimEnd s = s → single_line s = true → field (JsString.trimStart s).
Proof.
  intros Ht Hs. split; [|by apply single_line_trimStart].
  apply trimmed_ends. split; [apply trimStart_idem | by apply trimEnd_trimStart].
Qed.

Lemma text_line_field (l : string) : text_line l → field l.
Proof. by intros (? & _ & ?). Qed.

Lemma field_replace_number (l : string) :
  text_line l → field (JsString.replace_number l).
Proof.
  intros Hl. pose proof (text_line_field l Hl) as Hf.
  destruct Hl as (Ht & _ & Hs). apply trimmed_ends in Ht as [_ Ht].
  unfold JsString.replace_number, JsString.after_number.
  destruct l as [|c l]; [done|]. destruct (JsString.is_digit c); [|done].
  pose proof (trimEnd_after_digits _ Ht) as Ht'.
  pose proof (single_line_after_digits _ Hs) as Hs'.
  destruct (JsString.after_digits (String c l)) as [|d rest]; [done|].
  destruct (decide (d = "."%char)) as [->|Hd].
  - apply field_trimStart; [by apply (trimEnd_tail "."%char)|].
    cbn [single_line] in Hs'. by apply andb_true_iff in Hs' as [_ ?].
  - destruct d as [[] [] [] [] [] [] [] []]; done.
Qed.

Lemma field_replace_dash (l : string) :
  text_line l → field (JsString.replace_dash l).
Proof.
  intros Hl. pose proof (text_line_field l Hl) as Hf.
  destruct Hl as (Ht & _ & Hs). apply trimmed_ends in Ht as [_ Ht].
  unfold JsString.replace_dash. destruct l as [|c l]; [done|].
  destruct (decide (c = "-"%char)) as [->|Hc].
  - apply field_trimStart; [by apply (trimEnd_tail "-"%char)|].
    cbn [single_line] in Hs. by apply andb_true_iff in Hs as [_ ?].
  - destruct c as [[] [] [] [] [] [] [] []]; done.
Qed.

Lemma parse_line_fields (st : Parsing) (l : string) :
  text_line l → fields_only st → fields_only (parse_line st l).
Proof.
  intros Hl (Hn & Hc & Hd & Hu & Hi & Hs).
  pose proof (λ key, field_value_after key l (proj2 (text_line_field l Hl))) as Hv.
  unfold parse_line, fields_only.
  repeat case_match; cbn; (split; [|split; [|split; [|split; [|split]]]]);
    try done; try apply Hv.
  - apply Forall_app. split; [done|]. constructor; [|done].
    cbn. split; [by apply field_replace_dash | done].
  - apply Forall_app. split; [done|]. constructor; [|done].
    by apply field_replace_number.
Qed.

Lemma parse_lines_fields (lines : list string) (st : Parsing) :
  Forall text_line lines → fields_only st →
  fields_only (fold_left parse_line lines st).
Proof.
  intros H. revert st. induction H as [|l lines Hl _ IH]; intros st Hst; [done|].
  cbn [fold_left]. by apply IH, parse_line_fields.
Qed.

(** X3: every text of a parsed recipe (title, cook time, difficulty,
    nutrition, each ingredient name, each step) is free of ASCII white space
    at both ends and holds no line feed, whatever the reply was; the three
    optional texts are always present and no ingredient has a quantity. *)
Theorem X3_parsed_recipe_is_plain (text : string) :
  plain_recipe (parseRecipeText text).
Proof.
  unfold parseRecipeText, plain_recipe.
  cbn [name cookTime difficulty nutrition ingredients steps].
  destruct (parse_lines_fields (recipe_lines text) parsing_start)
    as (Hn & Hc & Hd & Hu & Hi & Hs).
  - apply recipe_lines_text_lines.
  - unfold fields_only, field, trimmed. cbn.
    repeat split; try (by constructor).
  - split; [done|]. split; [by eexists|]. split; [by eexists|].
    split; [by eexists|]. done.
Qed.

(** ** Reading back the requested format *)

Lemma append_nil_r (s : string) : s +:+ EmptyString = s.
Proof.
  induction s as [|c s IH]; [done|].
  change (String c s +:+ EmptyString) with (String c (s +:+ EmptyString)).
  by rewrite IH.
Qed.

Lemma append_assoc (a b c : string) : (a +:+ b) +:+ c = a +:+ (b +:+ c).
Proof.
  induction a as [|x a IH]; [done|].
  change ((String x a +:+ b) +:+ c) with (String x ((a +:+ b) +:+ c)).
  by rewrite IH.
Qed.

Lemma trimStart_app (a b : string) :
  a ≠ EmptyString → JsString.trimStart a = a →
  JsString.trimStart (a +:+ b) = a +:+ b.
Proof.
  destruct a as [|c a]; [done|]. intros _ E%trimStart_fixed_head.
  change (String c a +:+ b) with (String c (a +:+ b)).
  cbn [JsString.trimStart]. by rewrite E.
Qed.

Lemma trimEnd_tail_of (x : string) :
  JsString.trimEnd x = x → JsString.trimEnd (String " " x) = tail_of x.
Proof.
  intros H. cbn [JsString.trimEnd]. rewrite H. by destruct x.
Qed.

Lemma trimStart_tail_of (x : string) :
  JsString.trimStart x = x → JsString.trimStart (tail_of x) = x.
Proof. intros H. by destruct x. Qed.

Lemma trim_tail_of (x : string) : trimmed x → JsString.trim (tail_of x) = x.
Proof.
  intros H. unfold JsString.trim.
  rewrite trimStart_tail_of by (by apply trimmed_ends). by apply trimmed_ends.
Qed.

(** A line made of a head, a space and a field, once trimmed. *)
Lemma trim_head_field (head x : string) :
  head ≠ EmptyString → trimmed head → trimmed x →
  JsString.trim (head +:+ String " " x) = head +:+ tail_of x.
Proof.
  intros Hne [Hs He]%trimmed_ends [_ Hx]%trimmed_ends. unfold JsString.trim.
  rewrite trimStart_app by done. rewrite trimEnd_app, trimEnd_tail_of by done.
  destruct x; cbn [tail_of]; [by rewrite append_nil_r, He | done].
Qed.

Lemma feed_app (st : Parsing) (a b : list string) :
  feed st (a ++ b) = feed (feed st a) b.
Proof. unfold feed. by rewrite map_app, List.filter_app, fold_left_app. Qed.

Lemma feed_cons (st : Parsing) (l : string) (raw : list string) :
  feed st (l :: raw)
  = feed (if JsString.truthy (JsString.trim l)
          then parse_line st (JsString.trim l) else st) raw.
Proof. unfold feed. cbn. by destruct (JsString.truthy (JsString.trim l)). Qed.

Lemma truthy_head_tail (head x : string) :
  head ≠ EmptyString → JsString.truthy (head +:+ tail_of x) = true.
Proof. by destruct head. Qed.

(** The decimal digits of a number. *)
Lemma all_digits_of_uint (d : Decimal.uint) :
  all_digits (DecimalString.NilEmpty.string_of_uint d) = true.
Proof. induction d; cbn; done. Qed.

Lemma ofNumber_digits (k : Z) :
  0 ≤ k →
  ∃ c rest, Js.ofNumber k = String c rest
            ∧ JsString.is_digit c = true ∧ all_digits rest = true.
Proof.
  intros Hk. unfold Js.ofNumber. destruct k as [|p|p]; [by eexists _, _| |lia].
  cbn. pose proof (DecimalPos.Unsigned.to_uint_nonnil p) as Hnil.
  pose proof (all_digits_of_uint (Pos.to_uint p)) as Hd.
  destruct (Pos.to_uint p); [done|..]; by eexists _, _.
Qed.

Lemma after_digits_app (a b : string) :
  all_digits a = true →
  JsString.after_digits (a +:+ b) = JsString.after_digits b.
Proof.
  induction a as [|c a IH]; [done|]. cbn [all_digits].
  intros [Hc Ha]%andb_true_iff.
  change (String c a +:+ b) with (String c (a +:+ b)).
  cbn [JsString.after_digits]. rewrite Hc. auto.
Qed.

Lemma digit_not_space (c : ascii) :
  JsString.is_digit c = true → JsString.is_space c = false ∧ c ≠ LF.
Proof. destruct c as [[] [] [] [] [] [] [] []]; done. Qed.

Lemma all_digits_solid (s : string) :
  all_digits s = true →
  JsString.trimEnd s = s ∧ JsString.trimStart s = s ∧ single_line s = true.
Proof.
  induction s as [|c s IH]; [done|]. cbn [all_digits].
  intros [Hc Hs]%andb_true_iff. destruct (IH Hs) as (He & _ & Hl).
  apply digit_not_space in Hc as [Hc Hlf].
  cbn [JsString.trimEnd JsString.trimStart single_line].
  rewrite He, Hc, Hl, bool_decide_eq_false_2 by done. by destruct s.
Qed.

Lemma prefix_append (a b : string) : String.prefix a (a +:+ b) = true.
Proof.
  induction a as [|c a IH]; [by destruct b|].
  change (String c a +:+ b) with (String c (a +:+ b)). cbn [String.prefix].
  by destruct (ascii_dec c c).
Qed.

Lemma slice_append (a b : string) :
  JsString.slice (String.length a) (a +:+ b) = b.
Proof. induction a as [|c a IH]; [done|]. exact IH. Qed.

Lemma replace_prefix (a r b : string) :
  JsString.replace a r (a +:+ b) = r +:+ b.
Proof.
  assert (E : ∀ s, JsString.replace a r s
                   = if String.prefix a s
                     then r +:+ JsString.slice (String.length a) s
                     else match s with
                          | EmptyString => EmptyString
                          | String c s' => String c (JsString.replace a r s')
                          end) by (by intros []).
  by rewrite E, prefix_append, slice_append.
Qed.

Lemma value_after_key (key t : string) :
  value_after key (key +:+ t) = JsString.trim t.
Proof. unfold value_after. by rewrite replace_prefix. Qed.

Lemma parse_line_name (st : Parsing) (t : string) :
  parse_line st ("RECIPE NAME:" +:+ t)
  = {| p_name := JsString.trim t; p_cookTime := p_cookTime st;
       p_difficulty := p_difficulty st; p_nutrition := p_nutrition st;
       p_ingredients := p_ingredients st; p_steps := p_steps st;
       p_section := p_section st |}.
Proof.
  unfold parse_line, JsString.startsWith.
  by rewrite ?prefix_append, ?value_after_key.
Qed.

Lemma parse_line_cookTime (st : Parsing) (t : string) :
  parse_line st ("COOK TIME:" +:+ t)
  = {| p_name := p_name st; p_cookTime := JsString.trim t;
       p_difficulty := p_difficulty st; p_nutrition := p_nutrition st;
       p_ingredients := p_ingredients st; p_steps := p_steps st;
       p_section := p_section st |}.
Proof.
  unfold parse_line, JsString.startsWith.
  by rewrite ?prefix_append, ?value_after_key.
Qed.

Lemma parse_line_difficulty (st : Parsing) (t : string) :
  parse_line st ("DIFFICULTY:" +:+ t)
  = {| p_name := p_name st; p_cookTime := p_cookTime st;
       p_difficulty := JsString.trim t; p_nutrition := p_nutrition st;
       p_ingredients := p_ingredients st; p_steps := p_steps st;
       p_section := p_section st |}.
Proof.
  unfold parse_line, JsString.startsWith.
  by rewrite ?prefix_append, ?value_after_key.
Qed.

Lemma parse_line_nutrition (st : Parsing) (t : string) :
  parse_line st ("NUTRITION:" +:+ t)
  = {| p_name := p_name st; p_cookTime := p_cookTime st;
       p_difficulty := p_difficulty st; p_nutrition := JsString.trim t;
       p_ingredients := p_ingredients st; p_steps := p_steps st;
       p_section := p_section st |}.
Proof.
  unfold parse_line, JsString.startsWith.
  by rewrite ?prefix_append, ?value_after_key.
Qed.

Lemma parse_line_dash (st : Parsing) (t : string) :
  p_section st = IngredientsSection →
  parse_line st ("-" +:+ t)
  = {| p_name := p_name st; p_cookTime := p_cookTime st;
       p_difficulty := p_difficulty st; p_nutrition := p_nutrition st;
       p_ingredients :=
         p_ingredients st
         ++ [{| ing_name := JsString.trimStart t; quantity := None |}];
       p_steps := p_steps st; p_section := p_section st |}.
Proof.
  intros H. unfold parse_line. rewrite H.
  change (JsString.startsWith ("-" +:+ t) "RECIPE NAME:") with false.
  change (JsString.startsWith ("-" +:+ t) "COOK TIME:") with false.
  change (JsString.startsWith ("-" +:+ t) "DIFFICULTY:") with false.
  change (JsString.startsWith ("-" +:+ t) "NUTRITION:") with false.
  cbv iota. do 2 (destruct (decide _) as [E|_]; [discriminate E|]).
  unfold JsString.startsWith. by rewrite (prefix_append "-" t).
Qed.

Lemma parse_line_number (st : Parsing) (k : Z) (t : string) :
  0 ≤ k → p_section st = StepsSection →
  parse_line st (Js.ofNumber k +:+ String "." t)
  = {| p_name := p_name st; p_cookTime := p_cookTime st;
       p_difficulty := p_difficulty st; p_nutrition := p_nutrition st;
       p_ingredients := p_ingredients st;
       p_steps := p_steps st ++ [JsString.trimStart t];
       p_section := p_section st |}.
Proof.
  intros Hk H. destruct (ofNumber_digits k Hk) as (c & rest & -> & Hc & Hrest).
  change (String c rest +:+ String "." t) with (String c (rest +:+ String "." t)).
  assert (Hnum : JsString.after_number (String c (rest +:+ String "." t)) = Some t).
  { unfold JsString.after_number. rewrite Hc. cbn [JsString.after_digits].
    rewrite Hc, after_digits_app by done. reflexivity. }
  unfold parse_line, JsString.test_number, JsString.replace_number.
  rewrite H, Hnum.
  assert (Hkey : ∀ key, JsString.is_digit key = false → ∀ p,
            JsString.startsWith (String c (rest +:+ String "." t)) (String key p)
            = false).
  { intros key Hkey p. unfold JsString.startsWith. cbn [String.prefix].
    destruct (ascii_dec key c) as [->|]; [congruence | done]. }
  rewrite !Hkey by reflexivity.
  do 2 (destruct (decide _) as [E|_];
        [injection E as -> _; discriminate Hc|]).
  reflexivity.
Qed.

Lemma feed_blank (st : Parsing) (raw : list string) :
  feed st (EmptyString :: raw) = feed st raw.
Proof. by rewrite feed_cons. Qed.

(** A line [key value] read by the loop: [key] followed by what [trimEnd]
    leaves of the value. *)
Lemma feed_head_field (st : Parsing) (head x : string) (raw : list string) :
  head ≠ EmptyString → trimmed head → field x →
  feed st ((head +:+ String " " x) :: raw)
  = feed (parse_line st (head +:+ tail_of x)) raw.
Proof.
  intros Hne Hh [Hx _]. rewrite feed_cons, trim_head_field by done.
  by rewrite truthy_head_tail.
Qed.

Lemma feed_ingredient_lines (st : Parsing) (ings : list Ingredient) :
  p_section st = IngredientsSection →
  Forall (λ i, field (ing_name i) ∧ quantity i = None) ings →
  feed st (map (λ i, "- " +:+ ing_name i) ings)
  = {| p_name := p_name st; p_cookTime := p_cookTime st;
       p_difficulty := p_difficulty st; p_nutrition := p_nutrition st;
       p_ingredients := p_ingredients st ++ ings;
       p_steps := p_steps st; p_section := p_section st |}.
Proof.
  intros Hsec H. revert st Hsec.
  induction H as [|[i q] ings [Hi Hq] _ IH]; intros st Hsec.
  - cbn [map]. rewrite app_nil_r. by destruct st.
  - cbn [map ing_name quantity] in *. subst q.
    change ("- " +:+ i) with ("-" +:+ String " " i).
    rewrite feed_head_field by done.
    rewrite parse_line_dash by done.
    rewrite trimStart_tail_of by (by apply trimmed_ends, Hi).
    rewrite IH by done. cbn. by rewrite <- app_assoc.
Qed.

Lemma trimmed_number_dot (k : Z) : 0 ≤ k → trimmed (Js.ofNumber k +:+ ".").
Proof.
  intros Hk. destruct (ofNumber_digits k Hk) as (c & rest & E & Hc & Hrest).
  assert (Hall : all_digits (Js.ofNumber k) = true)
    by (rewrite E; cbn; by rewrite Hc).
  destruct (all_digits_solid _ Hall) as (He & Hs & _).
  apply trimmed_ends. split.
  - apply trimStart_app; [by rewrite E | done].
  - by rewrite trimEnd_app.
Qed.

Lemma feed_numbered_lines (st : Parsing) (k : Z) (steps : list string) :
  0 ≤ k → p_section st = StepsSection → Forall field steps →
  feed st (numbered k steps)
  = {| p_name := p_name st; p_cookTime := p_cookTime st;
       p_difficulty := p_difficulty st; p_nutrition := p_nutrition st;
       p_ingredients := p_ingredients st;
       p_steps := p_steps st ++ steps; p_section := p_section st |}.
Proof.
  intros Hk Hsec H. revert st k Hk Hsec.
  induction H as [|s steps Hs _ IH]; intros st k Hk Hsec.
  - cbn [numbered]. rewrite app_nil_r. by destruct st.
  - cbn [numbered].
    change (Js.ofNumber k +:+ ". " +:+ s)
      with (Js.ofNumber k +:+ "." +:+ String " " s).
    rewrite <- append_assoc.
    rewrite feed_head_field; [|by destruct (Js.ofNumber k)
                              |by apply trimmed_number_dot|done].
    rewrite append_assoc.
    change ("." +:+ tail_of s) with (String "." (tail_of s)).
    rewrite parse_line_number by done.
    rewrite trimStart_tail_of by (by apply trimmed_ends, Hs).
    rewrite IH by (done || lia). cbn. by rewrite <- app_assoc.
Qed.

Lemma single_line_number (k : Z) : 0 ≤ k → single_line (Js.ofNumber k) = true.
Proof.
  intros Hk. destruct (ofNumber_digits k Hk) as (c & rest & E & Hc & Hrest).
  apply all_digits_solid. rewrite E. cbn. by rewrite Hc.
Qed.

Lemma single_line_numbered (k : Z) (steps : list string) :
  0 ≤ k → Forall field steps →
  Forall (λ l, single_line l = true) (numbered k steps).
Proof.
  intros Hk H. revert k Hk. induction H as [|s steps [_ Hs] _ IH]; intros k Hk.
  - constructor.
  - cbn [numbered]. constructor; [|apply IH; lia].
    rewrite !single_line_app, single_line_number, Hs by done. done.
Qed.

Lemma single_line_requested (r : Recipe) :
  plain_recipe r → Forall (λ l, single_line l = true) (requested_lines r).
Proof.
  intros ([_ Hn] & (t & Et & _ & Ht) & (d & Ed & _ & Hd) & (n & En & _ & Hu)
          & Hi & Hs).
  unfold requested_lines. rewrite Et, Ed, En. cbn [default].
  repeat (apply Forall_app; split); repeat constructor;
    rewrite ?single_line_app, ?Hn, ?Ht, ?Hd, ?Hu; try done.
  - apply Forall_forall. intros l (i & -> & Hin)%list_elem_of_fmap.
    rewrite Forall_forall in Hi. destruct (Hi i Hin) as [[_ Hl] _].
    by rewrite single_line_app, Hl.
  - by apply single_line_numbered.
Qed.

Lemma feed_requested_lines (r : Recipe) (t d n : string) :
  field (name r) → field t → field d → field n →
  cookTime r = Some t → difficulty r = Some d → nutrition r = Some n →
  Forall (λ i, field (ing_name i) ∧ quantity i = None) (ingredients r) →
  Forall field (steps r) →
  feed parsing_start (requested_lines r)
  = {| p_name := name r; p_cookTime := t; p_difficulty := d; p_nutrition := n;
       p_ingredients := ingredients r; p_steps := steps r;
       p_section := StepsSection |}.
Proof.
  intros Hn Ht Hd Hu Et Ed En Hi Hs.
  unfold requested_lines. rewrite Et, Ed, En. cbn [default from_option id app].
  change ("RECIPE NAME: " +:+ name r) with ("RECIPE NAME:" +:+ String " " (name r)).
  change ("COOK TIME: " +:+ t) with ("COOK TIME:" +:+ String " " t).
  change ("DIFFICULTY: " +:+ d) with ("DIFFICULTY:" +:+ String " " d).
  change ("NUTRITION: " +:+ n) with ("NUTRITION:" +:+ String " " n).
  rewrite !feed_head_field by done.
  rewrite parse_line_name, parse_line_cookTime, parse_line_difficulty.
  rewrite !trim_tail_of by (by destruct Hn, Ht, Hd).
  rewrite feed_blank, feed_cons.
  change (JsString.trim "INGREDIENTS:") with "INGREDIENTS:".
  cbn [JsString.truthy parse_line].
  rewrite feed_app, feed_ingredient_lines by done.
  rewrite feed_blank, feed_cons.
  change (JsString.trim "STEPS:") with "STEPS:".
  cbn [JsString.truthy parse_line].
  rewrite feed_app, feed_numbered_lines by done.
  rewrite feed_blank, feed_head_field by done.
  rewrite parse_line_nutrition, trim_tail_of by (by destruct Hu).
  reflexivity.
Qed.

(** X4: the parser reads back the format the prompt asks for.  For a recipe
    whose texts are ASCII fields (trimmed, on one line), written as RECIPE
    NAME, COOK TIME, DIFFICULTY, a blank line, INGREDIENTS: with one dash line
    per ingredient, a blank line, STEPS: with the steps numbered from 1, a
    blank line and NUTRITION, [parseRecipeText] returns exactly that recipe. *)
Theorem X4_parse_requested_format (r : Recipe) :
  plain_recipe r → ascii_text (requested_format r) = true →
  parseRecipeText (requested_format r) = r.
Proof.
  intros Hr _. pose proof (single_line_requested r Hr) as Hlines.
  destruct Hr as (Hn & (t & Et & Ht) & (d & Ed & Hd) & (n & En & Hu) & Hi & Hs).
  unfold parseRecipeText, requested_format.
  rewrite recipe_lines_join by done.
  change (fold_left parse_line
            (List.filter JsString.truthy (map JsString.trim (requested_lines r)))
            parsing_start)
    with (feed parsing_start (requested_lines r)).
  rewrite (feed_requested_lines r t d n) by done.
  destruct r; cbn in *. by subst.
Qed.

Lemma X4_parse_requested_format_witness :
  ascii_text (requested_format omelette) = true
  ∧ parseRecipeText (requested_format omelette) = omelette.
Proof.
  split; [reflexivity|].
  apply (X4_parse_requested_format omelette); [|reflexivity].
  unfold plain_recipe, field, trimmed. cbn.
  repeat split; eauto; repeat constructor; reflexivity.
Defined.

(** ** The ingredient lists *)

Lemma trimEnd_slice (n : nat) (s : string) :
  JsString.trimEnd s = s → JsString.trimEnd (JsString.slice n s) = JsString.slice n s.
Proof.
  revert s. induction n as [|n IH]; intros [|c s] H; try done.
  cbn [JsString.slice]. apply IH, (trimEnd_tail c), H.
Qed.

Lemma field_replace_bullet (l : string) :
  field l → field (JsString.replace_bullet l).
Proof.
  intros Hf. pose proof Hf as [Htr Hs]. apply trimmed_ends in Htr as [_ Ht].
  assert (Htail : ∀ c rest, l = String c rest → field (JsString.trimStart rest)).
  { intros c rest ->. apply field_trimStart; [by apply (trimEnd_tail c)|].
    cbn [single_line] in Hs. by apply andb_true_iff in Hs as [_ ?]. }
  unfold JsString.replace_bullet.
  assert (Hb : field (if String.prefix JsString.bullet l
                      then JsString.trimStart (JsString.slice 3 l) else l)).
  { destruct (String.prefix JsString.bullet l); [|done].
    apply field_trimStart; [by apply trimEnd_slice | by apply single_line_slice]. }
  destruct l as [|c rest]; [done|].
  destruct (decide (c = "-"%char)) as [->|H1]; [by eapply Htail|].
  destruct (decide (c = "*"%char)) as [->|H2]; [by eapply Htail|].
  destruct c as [[] [] [] [] [] [] [] []]; done.
Qed.

(** X5: what a scan keeps.  Every detected ingredient is a line of the
    reply with its bullet removed: it is not empty, has no ASCII white space
    at either end and no line feed, and contains neither "cannot" nor "unable"
    in any letter case. *)
Theorem X5_scanned_ingredients_clean (text : string) :
  Forall (λ i, i ≠ EmptyString ∧ field i
               ∧ mentions i "cannot" = false ∧ mentions i "unable" = false)
         (scanned_ingredients text).
Proof.
  unfold scanned_ingredients. apply Forall_forall. intros i Hi.
  apply list_elem_of_In, filter_In in Hi as [Hi Hk].
  apply in_map_iff in Hi as (l & <- & Hl).
  unfold keeps_ingredient, mentions in *.
  apply andb_true_iff in Hk as [[Hlen Hc]%andb_true_iff Hu].
  apply negb_true_iff in Hc, Hu. repeat split; try done.
  - intros E. rewrite E in Hlen. done.
  - apply field_replace_bullet. split; [apply trim_trimmed|].
    apply single_line_trim.
    pose proof (split_single_lines text) as H. rewrite Forall_forall in H.
    apply H. by apply list_elem_of_In.
  - apply field_replace_bullet. split; [apply trim_trimmed|].
    apply single_line_trim.
    pose proof (split_single_lines text) as H. rewrite Forall_forall in H.
    apply H. by apply list_elem_of_In.
Qed.

Lemma filter_all (f : string → bool) (l : list string) :
  Forall (λ x, f x = true) l → List.filter f l = l.
Proof. induction 1 as [|x l Hx _ IH]; cbn; [done|]. by rewrite Hx, IH. Qed.

Lemma ingredient_name_single_line (names : list string) :
  Forall ingredient_name names → Forall (λ l, single_line l = true) names.
Proof.
  intros H. eapply Forall_impl; [exact H|]. by intros i (_ & [_ ?] & _).
Qed.

Lemma scan_line_plain (i : string) :
  ingredient_name i → JsString.replace_bullet (JsString.trim i) = i.
Proof. intros (_ & [Ht _] & Hb & _). by rewrite Ht. Qed.

Lemma scan_line_dash (i : string) :
  ingredient_name i → JsString.replace_bullet (JsString.trim ("- " +:+ i)) = i.
Proof.
  intros (_ & [Ht _] & _). change ("- " +:+ i) with ("-" +:+ String " " i).
  rewrite trim_head_field by done.
  change ("-" +:+ tail_of i) with (String "-" (tail_of i)).
  cbn [JsString.replace_bullet]. by apply trimStart_tail_of, trimmed_ends.
Qed.

Lemma scanned_lines (f : string → string) (names : list string) :
  Forall ingredient_name names →
  Forall (λ i, single_line (f i) = true) names →
  (∀ i, ingredient_name i → JsString.replace_bullet (JsString.trim (f i)) = i) →
  scanned_ingredients (JsString.join newline (map f names)) = names.
Proof.
  intros Hn Hs Hf. unfold scanned_ingredients.
  destruct names as [|i names]; [done|].
  rewrite split_join; [| |done].
  - rewrite map_map. rewrite (map_ext_Forall _ id).
    + rewrite map_id. apply filter_all. eapply Forall_impl; [exact Hn|].
      by intros x (_ & _ & _ & ?).
    + eapply Forall_impl; [exact Hn|]. intros x Hx. by apply Hf.
  - apply Forall_forall. intros l (x & -> & Hx)%list_elem_of_fmap.
    rewrite Forall_forall in Hs. by apply Hs.
Qed.

(** X6: a scan reads a list back.  When the vision model answers with one
    ingredient per line, bare or behind a dash, and every name is an ASCII
    field that neither begins with a bullet nor contains "cannot" or
    "unable", the detected ingredients are exactly these names, in order. *)
Theorem X6_scan_reads_list (names : list string) :
  Forall ingredient_name names →
  scanned_ingredients (JsString.join newline names) = names
  ∧ scanned_ingredients
      (JsString.join newline (map (λ i, "- " +:+ i) names)) = names.
Proof.
  intros Hn. pose proof (ingredient_name_single_line names Hn) as Hs. split.
  - rewrite <- (map_id names) at 1.
    apply (scanned_lines id names Hn Hs). intros i Hi. by apply scan_line_plain.
  - apply (scanned_lines (λ i, "- " +:+ i) names Hn).
    + eapply Forall_impl; [exact Hs|]. intros i Hi.
      by rewrite single_line_app, Hi.
    + intros i Hi. by apply scan_line_dash.
Qed.

Lemma X6_scan_reads_list_witness :
  scanned_ingredients (JsString.join newline ["eggs"; "olive oil"])
  = ["eggs"; "olive oil"]
  ∧ scanned_ingredients (JsString.join newline ["- eggs"; "- olive oil"])
    = ["eggs"; "olive oil"].
Proof.
  apply (X6_scan_reads_list ["eggs"; "olive oil"]).
  repeat constructor; reflexivity.
Defined.

Lemma trimStart_blank (s : string) :
  JsString.trimStart s = EmptyString ↔ blank s = true.
Proof.
  unfold blank. induction s as [|c s IH]; [done|].
  cbn [JsString.trimStart every]. destruct (JsString.is_space c); [done|].
  split; intros H; discriminate H.
Qed.

Lemma trim_blank (s : string) : JsString.trim s = EmptyString ↔ blank s = true.
Proof.
  rewrite <- trimStart_blank. unfold JsString.trim. split; [|by intros ->].
  intros H. pose proof (trimStart_idem s) as Hi.
  destruct (JsString.trimStart s) as [|c t]; [done|].
  apply trimStart_fixed_head in Hi. cbn [JsString.trimEnd] in H.
  rewrite Hi in H. by destruct (JsString.trimEnd t).
Qed.

Lemma truthy_trim (s : string) :
  JsString.truthy (JsString.trim s) = negb (blank s).
Proof.
  destruct (blank s) eqn:E.
  - apply trim_blank in E. by rewrite E.
  - destruct (JsString.trim s) eqn:Et; [|done].
    apply trim_blank in Et. congruence.
Qed.

(** No piece between the commas of [s] is left by [trim] and [filter]. *)
Lemma pieces_empty (s : string) :
  List.filter JsString.truthy (map JsString.trim (JsString.split ","%char s)) = []
  ↔ only_separators s = true.
Proof.
  unfold only_separators.
  assert (G : ∀ s,
    match JsString.split ","%char s with
    | [] => False
    | piece :: pieces =>
        (blank piece = true
         ∧ List.filter JsString.truthy (map JsString.trim pieces) = [])
        ↔ every (λ c, JsString.is_space c || bool_decide (c = ","%char)) s = true
    end).
  { clear s. induction s as [|c s IH]; [done|]. cbn [JsString.split every].
    destruct (JsString.split ","%char s) as [|piece pieces]; [done|].
    destruct (decide (c = ","%char)) as [->|Hc].
    - rewrite bool_decide_eq_true_2, orb_true_r by done. cbn [andb map List.filter].
      rewrite truthy_trim. rewrite <- IH.
      destruct (blank piece); cbn; split; try done; intros [? ?]; done.
    - rewrite bool_decide_eq_false_2, orb_false_r by done.
      rewrite andb_true_iff, <- IH. unfold blank at 1. cbn [every].
      rewrite andb_true_iff. fold (blank piece). tauto. }
  specialize (G s). destruct (JsString.split ","%char s) as [|piece pieces];
    [done|].
  rewrite <- G. cbn [map List.filter]. rewrite truthy_trim.
  destruct (blank piece); cbn; split; try done; intros [? ?]; done.
Qed.

Lemma allIngredients_empty (detected : list string) (custom : string) :
  allIngredients detected custom = []
  ↔ detected = [] ∧ only_separators custom = true.
Proof.
  unfold allIngredients. rewrite <- pieces_empty. split.
  - by intros [-> ->]%app_eq_nil.
  - by intros [-> ->].
Qed.

Lemma blank_only_separators (s : string) :
  blank s = true → only_separators s = true.
Proof.
  unfold blank, only_separators. induction s as [|c s IH]; [done|].
  cbn [every]. intros [-> Hs]%andb_true_iff. cbn. auto.
Qed.

(** ** The page *)

(** Compute the handlers of the page down to the field updates. *)
Ltac compute_page :=
  cbv beta iota zeta delta
    [on_voice camera_call await
     set_voice setCameraActive setDetectedIngredients setCustomIngredients
     set_captureRef set_cameras set_attached set_awaiting set_camera_log
     voice cameraActive detectedIngredients customIngredients captureRef
     cameras attached awaiting camera_log
     log mic_stop mic_start new_AudioCapture VAD_reset VAD_onSpeechActivity
     VAD_unsubscribe micRef_stop vadUnsub_call setTimeout ensure_pipeline
     pipeline_processTurn
     setState setRecipe setCurrentStep setError setVoiceTranscript
     setVoiceResponse setAudioLevel set_micRef set_pipelineRef set_vadUnsub
     set_mics set_vad_speech set_vad_segment set_vad_listeners
     set_vad_subscriptions set_calls set_turns set_timers set_trace
     state recipe currentStep error voiceTranscript voiceResponse audioLevel
     micRef pipelineRef vadUnsub mics vad_speech vad_segment vad_listeners
     vad_subscriptions calls turns timers trace] in *.

(** Take the page and its voice part apart and compute every field. *)
Ltac open_page p :=
  destruct p as [p_voice p_cameraActive p_detected p_custom p_captureRef
                 p_cameras p_attached p_awaiting p_log];
  open_world p_voice; compute_page.

(** X7: when the typed text is ASCII and the Generate button can be
    clicked, [generateRecipe] answers with "Please scan or add ingredients
    first" exactly when nothing was detected and the typed text, though not
    blank, holds only commas and white space; it then leaves the page as it
    was but for the message.  In every other case it enters
    generating-recipe, clears the message and asks the model with the prompt
    built from the ingredients. *)
Theorem X7_generate_refuses_separators (p p' : Page) :
  ascii_text (customIngredients p) = true →
  page_exec ClickGenerate p = Some p' →
  let refused :=
    detectedIngredients p = [] ∧ only_separators (customIngredients p) = true in
  (refused →
   blank (customIngredients p) = false
   ∧ p' = on_voice (setError (Some "Please scan or add ingredients first")) p)
  ∧ (¬ refused →
     state (voice p') = GeneratingRecipe ∧ error (voice p') = None
     ∧ awaiting p'
       = awaiting p
         ++ [AwaitGenerate
               (recipe_prompt
                  (allIngredients (detectedIngredients p) (customIngredients p)))]).
Proof.
  cbv zeta. unfold page_exec. intros _ H.
  destruct (bool_decide _ && negb _) eqn:Hclick; [|done].
  injection H as <-. apply andb_true_iff in Hclick as [_ Hen].
  apply negb_true_iff in Hen. unfold generate_disabled in Hen.
  apply orb_false_iff in Hen as [_ Hen]. rewrite truthy_trim, negb_involutive in Hen.
  unfold generateRecipe.
  pose proof (allIngredients_empty (detectedIngredients p) (customIngredients p))
    as Hall.
  destruct (allIngredients (detectedIngredients p) (customIngredients p))
    as [|i all] eqn:E.
  - cbn [length Nat.eqb]. split; [|intros Hno; exfalso; apply Hno; by apply Hall].
    intros [Hd Hs]. split; [|done]. rewrite Hd in Hen. cbn in Hen. done.
  - cbn [length Nat.eqb]. split.
    + intros Hr. apply Hall in Hr. done.
    + intros _. by open_page p.
Qed.

Lemma X7_generate_refuses_separators_witness :
  blank ", ," = false
  ∧ generateRecipe (setCustomIngredients ", ," mounted_page)
    = on_voice (setError (Some "Please scan or add ingredients first"))
        (setCustomIngredients ", ," mounted_page).
Proof.
  apply (X7_generate_refuses_separators (setCustomIngredients ", ," mounted_page)
           (generateRecipe (setCustomIngredients ", ," mounted_page)));
    [reflexivity | reflexivity | split; reflexivity].
Defined.

Lemma page_exec_camera_off (l : PageLabel) (p p' : Page) :
  cameraActive p = false → camera_started l = false →
  page_exec l p = Some p' → cameraActive p' = false.
Proof.
  intros Hoff Hl.
  destruct l as [l|b|b|cam started|cam o|value| |prompt o| |c loaded
                |stage c o mic_ok];
    cbn [page_exec]; intros H.
  - destruct (exec l (voice p)); [|done]. cbn in H. injection H as <-.
    by destruct p.
  - destruct (_ && _); [|done]. injection H as <-. unfold startCamera.
    destruct (_ && b); [done|]. by destruct p.
  - destruct (_ && _); [|done]. injection H as <-.
    unfold scanIngredients, startCamera.
    by destruct p as [v ca d cu [cam|] n att pe lg], b.
  - destruct (settle _ _); [|done]. injection H as <-.
    destruct started; [done|]. by destruct p.
  - destruct (settle _ _); [|done]. injection H as <-.
    unfold scanIngredients_settled, remove_videoElement.
    destruct o; by destruct p.
  - destruct (bool_decide _); [|done]. injection H as <-. by destruct p.
  - destruct (_ && _); [|done]. injection H as <-. unfold generateRecipe.
    destruct (length _ =? 0)%nat; by destruct p.
  - destruct (settle _ _); [|done]. injection H as <-.
    destruct o; by destruct p.
  - destruct (_ && _); [|done]. injection H as <-. by destruct p.
  - case_decide; [|done]. injection H as <-.
    unfold startVoiceCooking_clicked, start_cooking.
    destruct (c_recipe c); [|done]. destruct loaded; by destruct p.
  - destruct (settle _ _); [|done]. cbn in H.
    unfold startVoiceCooking_resumed, start_caught, start_cooking in H.
    destruct stage, o as [[]| | | |err]; try done;
      try destruct (c_recipe c); try done;
      injection H as <-; by destruct p.
Qed.

Lemma page_run_camera_off (ls : list PageLabel) (p p' : Page) :
  cameraActive p = false → Forall (λ l, camera_started l = false) ls →
  page_run ls p = Some p' → cameraActive p' = false.
Proof.
  intros Hoff Hls. revert p Hoff.
  induction Hls as [|l ls Hl _ IH]; intros p Hoff H.
  - by injection H as <-.
  - cbn [page_run] in H. destruct (page_exec l p) as [p1|] eqn:E; [|done].
    cbn in H. by eapply IH, H; eapply page_exec_camera_off.
Qed.

(** X8: the first camera that starts is not shown.  The [div] that carries
    [videoMountRef] is rendered only while [cameraActive] is set, and only a
    camera that has started sets it: whatever is clicked, typed or answered
    on a page without camera view, the next camera that starts finds no mount
    point, so its video element is not attached although the camera runs and
    the Scan button appears. *)
Theorem X8_first_camera_is_not_shown (ls : list PageLabel) (p p1 p2 : Page)
    (cam : nat) :
  cameraActive p = false →
  Forall (λ l, camera_started l = false) ls →
  page_run ls p = Some p1 →
  page_exec (CameraStarts cam true) p1 = Some p2 →
  attached p2 = attached p1 ∧ camera_log p2 = camera_log p1
  ∧ cameraActive p2 = true ∧ captureRef p2 = Some cam.
Proof.
  intros Hoff Hls Hrun H.
  pose proof (page_run_camera_off ls p p1 Hoff Hls Hrun) as Hoff1.
  cbn [page_exec] in H. destruct (settle _ _) as [rest|]; [|done].
  cbn in H. injection H as <-.
  unfold startCamera_settled, videoMountRef.
  destruct p1 as [v ca d cu cr n att pe lg]. cbn in Hoff1. subst ca.
  compute_page. rewrite andb_false_r. done.
Qed.

Lemma X8_first_camera_is_not_shown_witness :
  (λ p, (attached p, camera_log p, cameraActive p, captureRef p))
    <$> page_run [ClickOpenCamera false; ClickOpenCamera false;
                  CameraStarts 0 true] mounted_page
  = Some ([], [CameraStart 0; CameraStart 1], true, Some 0%nat).
Proof.
  destruct (X8_first_camera_is_not_shown
              [ClickOpenCamera false; ClickOpenCamera false] mounted_page
              (default mounted_page
                 (page_run [ClickOpenCamera false; ClickOpenCamera false]
                    mounted_page))
              (default mounted_page
                 (page_run [ClickOpenCamera false; ClickOpenCamera false;
                            CameraStarts 0 true] mounted_page))
              0 eq_refl)
    as (Ha & Hl & Hc & Hr);
    [repeat constructor | reflexivity | reflexivity |].
  reflexivity.
Defined.

(** A camera that starts while the view is shown is attached: after two
    clicks on Open Camera the second camera to start finds the mount point. *)
Example second_camera_is_shown :
  (λ p, (attached p, camera_log p, captureRef p))
    <$> page_run camera_opened_twice mounted_page
  = Some ([1%nat], [CameraStart 0; CameraStart 1; AppendChild 1], Some 1%nat).
Proof. vm_compute. reflexivity. Qed.

Lemma allIngredients_not_blank (custom : string) :
  allIngredients [] custom ≠ [] → blank custom = false.
Proof.
  intros H. destruct (blank custom) eqn:E; [|done]. exfalso. apply H.
  apply allIngredients_empty. split; [done|]. by apply blank_only_separators.
Qed.

(** Replace the page of the run by its computed form. *)
Ltac flatten_page :=
  match goal with
  | |- context [page_run _ ?p] =>
      let p' := eval vm_compute in p in
      replace p with p' by (vm_compute; reflexivity)
  | |- context [Some ?p = Some _] =>
      let p' := eval vm_compute in p in
      replace p with p' by (vm_compute; reflexivity)
  end.

Lemma page_run_cons (l : PageLabel) (ls : list PageLabel) (p p1 : Page) :
  page_exec l p = Some p1 → page_run (l :: ls) p = page_run ls p1.
Proof. intros H. cbn [page_run]. by rewrite H. Qed.

Lemma settle_head (a : Pending) (l : list Pending) : settle a (a :: l) = Some l.
Proof. cbn [settle]. by rewrite decide_True. Qed.

Lemma settle_next (a b : Pending) (l : list Pending) :
  b ≠ a → settle a (b :: l) = (b ::.) <$> settle a l.
Proof. intros H. cbn [settle]. by rewrite decide_False. Qed.

(** X9: a scan overtaken by a recipe leaves a dead page.  The Generate button
    stays enabled while a scan is running.  Whatever is typed, as long as it
    names an ingredient, whatever the model replies and however the scan
    ends: when the recipe arrives before the scan settles, the scan puts the
    state back to idle over the stored recipe.  Neither the scan section
    (shown without a recipe) nor the recipe (shown in recipe-ready or
    cooking-voice) is rendered then, nothing is pending, and no handler of
    the page can run any more. *)
Theorem X9_scan_overtaken_by_recipe (custom text : string) (o : ScanOutcome) :
  allIngredients [] custom ≠ [] →
  ∃ p,
    page_run
      [TypeIngredients custom; ClickOpenCamera false; CameraStarts 0 true;
       ClickScan true; ClickGenerate;
       GenerateSettles (recipe_prompt (allIngredients [] custom)) (Generated text);
       ScanSettles 0 o]
      mounted_page = Some p
    ∧ recipe (voice p) = Some (parseRecipeText text)
    ∧ state (voice p) = Idle
    ∧ ∀ l, page_exec l p = None.
Proof.
  intros Hall. pose proof (allIngredients_not_blank custom Hall) as Hblank.
  assert (Hgen : generate_disabled Scanning [] custom = false).
  { unfold generate_disabled. rewrite truthy_trim, Hblank. done. }
  do 4 (erewrite page_run_cons by reflexivity). flatten_page.
  erewrite page_run_cons;
    [|unfold page_exec; compute_page; rewrite Hgen; reflexivity].
  unfold generateRecipe. compute_page.
  destruct (allIngredients [] custom) as [|i all] eqn:E; [done|].
  cbn [length Nat.eqb]. generalize (recipe_prompt (i :: all)). intros prompt.
  flatten_page.
  erewrite page_run_cons;
    [|unfold page_exec; compute_page;
      rewrite settle_next, settle_head by done; reflexivity].
  unfold generateRecipe_settled. generalize (parseRecipeText text). intros r.
  flatten_page.
  cbn [page_run]. unfold page_exec at 1. compute_page. rewrite settle_head.
  cbn [mbind option_bind]. unfold scanIngredients_settled, scan_error.
  destruct o as [err| | |err|reply]; try generalize (scanned_ingredients reply);
    intros; flatten_page;
    (eexists; split; [reflexivity|]);
    (split; [reflexivity|]); (split; [reflexivity|]);
    intros [[]| | | | | | | | | |]; reflexivity.
Qed.

Lemma X9_scan_overtaken_by_recipe_witness :
  ∃ p,
    page_run
      [TypeIngredients "eggs"; ClickOpenCamera false; CameraStarts 0 true;
       ClickScan true; ClickGenerate;
       GenerateSettles (recipe_prompt (allIngredients [] "eggs"))
         (Generated (requested_format omelette));
       ScanSettles 0 NoFrame]
      mounted_page = Some p
    ∧ recipe (voice p) = Some (parseRecipeText (requested_format omelette))
    ∧ state (voice p) = Idle
    ∧ ∀ l, page_exec l p = None.
Proof.
  apply (X9_scan_overtaken_by_recipe "eggs" (requested_format omelette) NoFrame).
  vm_compute. discriminate.
Defined.

Lemma settle_snoc (a : Pending) (l : list Pending) :
  is_Some (settle a (l ++ [a])).
Proof.
  induction l as [|b l IH]; cbn [app settle].
  - rewrite decide_True by done. by eexists.
  - destruct (decide (b = a)); [by eexists|]. destruct IH as [rest ->].
    by eexists.
Qed.

Lemma exec_without_recipe (l : Label) (w : World) :
  recipe w = None → timers w = [] → calls w = [] → capturing w = false →
  exec l w = None.
Proof.
  intros Hr Ht Hc Hm. destruct l; cbn [exec]; rewrite ?Hr, ?Ht, ?Hc, ?Hm; try done.
  - destruct (decide _) as [(_ & [r Hs] & _)|]; [congruence | done].
  - destruct (decide _) as [(_ & [r Hs])|]; [congruence | done].
  - destruct (decide _) as [(_ & [r Hs] & _)|]; [congruence | done].
Qed.

Lemma settle_Forall (P : Pending → Prop) (a : Pending)
    (l rest : list Pending) :
  settle a l = Some rest → Forall P l → Forall P rest.
Proof.
  revert rest. induction l as [|b l IH]; intros rest; cbn [settle]; [done|].
  destruct (decide (b = a)).
  - intros [= <-] H. by apply Forall_cons in H as [_ ?].
  - destruct (settle a l) as [rest'|]; [|done]. cbn. intros [= <-] H.
    apply Forall_cons in H as [? ?]. constructor; auto.
Qed.

Lemma settle_elem_of (a : Pending) (l rest : list Pending) :
  settle a l = Some rest → a ∈ l.
Proof.
  revert rest. induction l as [|b l IH]; intros rest; cbn [settle]; [done|].
  destruct (decide (b = a)) as [->|]; [by left|].
  destruct (settle a l) as [rest'|]; [|done]. right. by eapply IH.
Qed.

Lemma settle_no_start (stage : StartStage) (c : Closure) (l : list Pending) :
  Forall (λ a, awaits_start a = false) l → settle (AwaitStart stage c) l = None.
Proof.
  intros H. destruct (settle _ l) as [rest|] eqn:E; [|done].
  apply settle_elem_of in E. rewrite Forall_forall in H. by apply H in E.
Qed.

Lemma fresh_intro (p : Page) :
  recipe (voice p) = None ∧ currentStep (voice p) = 0
  ∧ timers (voice p) = [] ∧ calls (voice p) = []
  ∧ capturing (voice p) = false →
  Forall (λ a, awaits_start a = false) (awaiting p) →
  fresh p.
Proof. intros (? & ? & ? & ? & ?) ?. by repeat split. Qed.

Lemma page_exec_fresh (l : PageLabel) (p p' : Page) :
  fresh p → delivers l = false → page_exec l p = Some p' → fresh p'.
Proof.
  intros (Hr & Hs & Ht & Hc & Hm & Ha) Hl.
  destruct l as [l|b|b|cam started|cam o|value| |prompt o| |c loaded
                |stage c o mic_ok];
    cbn [page_exec]; intros H.
  - by rewrite exec_without_recipe in H.
  - destruct (_ && _); [|done]. injection H as <-. unfold startCamera.
    destruct (_ && b); [by repeat split|]. apply fresh_intro.
    + revert Hr Hs Ht Hc Hm. unfold capturing. by open_page p.
    + revert Ha. destruct p. compute_page. intros.
      apply Forall_app. split; [done | by constructor].
  - destruct (_ && _); [|done]. injection H as <-.
    unfold scanIngredients, startCamera. apply fresh_intro.
    + revert Hr Hs Ht Hc Hm.
      unfold capturing. open_page p.
      by destruct p_captureRef, b.
    + revert Ha. destruct p as [v ca d cu [cam|] n att pe lg], b;
        compute_page; intros; try done;
        apply Forall_app; (split; [done | by constructor]).
  - destruct (settle _ _) as [rest|] eqn:E; [|done]. injection H as <-.
    pose proof (settle_Forall _ _ _ _ E Ha) as Ha'.
    unfold startCamera_settled, videoMountRef. apply fresh_intro.
    + revert Hr Hs Ht Hc Hm.
      unfold capturing. open_page p. intros. destruct started; [|done].
      by destruct (bool_decide _ && _).
    + revert Ha'. destruct p. compute_page. intros. destruct started; [|done].
      by destruct (bool_decide _ && _).
  - destruct (settle _ _) as [rest|] eqn:E; [|done]. injection H as <-.
    pose proof (settle_Forall _ _ _ _ E Ha) as Ha'.
    unfold scanIngredients_settled, remove_videoElement. apply fresh_intro.
    + revert Hr Hs Ht Hc Hm.
      unfold capturing. open_page p. intros.
      destruct o; try done. compute_page. by destruct (bool_decide _).
    + revert Ha'. destruct p. compute_page. intros.
      destruct o; try done. compute_page. by destruct (bool_decide _).
  - destruct (bool_decide _); [|done]. injection H as <-. apply fresh_intro.
    + revert Hr Hs Ht Hc Hm. unfold capturing. by open_page p.
    + revert Ha. destruct p. by compute_page.
  - destruct (_ && _); [|done]. injection H as <-. unfold generateRecipe.
    generalize (recipe_prompt (allIngredients (detectedIngredients p)
                                 (customIngredients p))). intros prompt.
    apply fresh_intro.
    + revert Hr Hs Ht Hc Hm. unfold capturing.
      destruct (length _ =? 0)%nat; by open_page p.
    + revert Ha. destruct (length _ =? 0)%nat; destruct p; compute_page;
        intros; [done|]. apply Forall_app. split; [done | by constructor].
  - destruct (settle _ _) as [rest|] eqn:E; [|done]. injection H as <-.
    pose proof (settle_Forall _ _ _ _ E Ha) as Ha'.
    destruct o as [err|text]; [|done]. unfold generateRecipe_settled.
    apply fresh_intro.
    + revert Hr Hs Ht Hc Hm. unfold capturing. by open_page p.
    + revert Ha'. destruct p. by compute_page.
  - rewrite Hr in H. done.
  - case_decide as Hg; [|done]. destruct Hg as (_ & [r Hsome] & _). congruence.
  - by rewrite settle_no_start in H.
Qed.

Lemma page_run_fresh (ls : list PageLabel) (p p' : Page) :
  fresh p → Forall (λ l, delivers l = false) ls → page_run ls p = Some p' →
  fresh p'.
Proof.
  intros Hp Hls. revert p Hp. induction Hls as [|l ls Hl _ IH]; intros p Hp H.
  - by injection H as <-.
  - cbn [page_run] in H. destruct (page_exec l p) as [p1|] eqn:E; [|done].
    cbn in H. by eapply IH, H; eapply page_exec_fresh.
Qed.

(** X10: the first recipe opens on its first step.  From a page on which
    nothing of a recipe or of a voice session is left and no start of voice
    cooking is waiting (as the mounted page is), whatever is clicked, typed,
    scanned or fails before the language model answers, the page stays so;
    and when the reply arrives the recipe is the parsed reply, in
    recipe-ready, with the step pointer at 0. *)
Theorem X10_first_recipe_opens_on_first_step (ls : list PageLabel) (p p' p'' : Page)
    (prompt text : string) :
  fresh p →
  Forall (λ l, delivers l = false) ls →
  page_run ls p = Some p' →
  page_exec (GenerateSettles prompt (Generated text)) p' = Some p'' →
  fresh p'
  ∧ recipe (voice p'') = Some (parseRecipeText text)
  ∧ state (voice p'') = RecipeReady
  ∧ currentStep (voice p'') = 0.
Proof.
  intros Hp Hls Hrun Hgen.
  pose proof (page_run_fresh ls p p' Hp Hls Hrun) as Hp'. split; [done|].
  destruct Hp' as (_ & Hs & _). cbn [page_exec] in Hgen.
  destruct (settle _ _); [|done]. injection Hgen as <-.
  unfold generateRecipe_settled. revert Hs. by open_page p'.
Qed.

Lemma X10_first_recipe_opens_on_first_step_witness :
  let asked := generateRecipe
                 (startCamera false (setCustomIngredients "eggs" mounted_page)) in
  let answered := generateRecipe_settled (Generated (requested_format omelette))
                    (set_awaiting [AwaitCameraStart 0] asked) in
  fresh asked
  ∧ recipe (voice answered) = Some (parseRecipeText (requested_format omelette))
  ∧ state (voice answered) = RecipeReady
  ∧ currentStep (voice answered) = 0.
Proof.
  cbv zeta.
  apply (X10_first_recipe_opens_on_first_step
           [TypeIngredients "eggs"; ClickOpenCamera false; ClickGenerate]
           mounted_page
           (generateRecipe
              (startCamera false (setCustomIngredients "eggs" mounted_page)))
           (generateRecipe_settled (Generated (requested_format omelette))
              (set_awaiting [AwaitCameraStart 0]
                 (generateRecipe
                    (startCamera false
                       (setCustomIngredients "eggs" mounted_page)))))
           (recipe_prompt ["eggs"]) (requested_format omelette)).
  - repeat split; try reflexivity. constructor.
  - repeat constructor.
  - reflexivity.
  - reflexivity.
Defined.

(** X11: New Recipe does not cancel what a voice session left behind.  When
    a reply of the assistant has set the timer of a "next step" and New
    Recipe is clicked before it fires, the timer still runs the [nextStep] of
    the old recipe: the step pointer leaves 0 while there is no recipe, and
    the next recipe that is generated opens on that step. *)
Theorem X11_new_recipe_inherits_timer (p : Page) (c : Closure) (r : Recipe)
    (rest : list TimerTask) (custom text : string) :
  is_Some (recipe (voice p)) → state (voice p) = RecipeReady →
  timers (voice p) = CallNextStep c :: rest →
  c_recipe c = Some r → c_currentStep c < stepCount r - 1 →
  allIngredients [] custom ≠ [] →
  ∃ p',
    page_run
      [ClickNewRecipe; Voice TimerFires; TypeIngredients custom; ClickGenerate;
       GenerateSettles (recipe_prompt (allIngredients [] custom)) (Generated text)]
      p = Some p'
    ∧ recipe (voice p') = Some (parseRecipeText text)
    ∧ state (voice p') = RecipeReady
    ∧ currentStep (voice p') = c_currentStep c + 1.
Proof.
  intros [r0 Hr0] Hst Ht Hc Hlt Hall.
  pose proof (allIngredients_not_blank custom Hall) as Hblank.
  assert (Hgen : generate_disabled Idle [] custom = false).
  { unfold generate_disabled. rewrite truthy_trim, Hblank. done. }
  apply Z.ltb_lt in Hlt.
  revert Hr0 Hst Ht. open_page p. intros -> -> ->.
  erewrite page_run_cons by reflexivity. unfold resetRecipe. compute_page.
  erewrite page_run_cons;
    [|cbn [page_exec exec]; compute_page; cbn [mbind option_bind run_task];
      unfold nextStep; rewrite Hc, Hlt; compute_page; reflexivity].
  erewrite page_run_cons by reflexivity. compute_page.
  erewrite page_run_cons;
    [|unfold page_exec; compute_page; rewrite Hgen; reflexivity].
  unfold generateRecipe. compute_page.
  destruct (allIngredients [] custom) as [|i all] eqn:E; [done|].
  cbn [length Nat.eqb]. generalize (recipe_prompt (i :: all)). intros prompt.
  compute_page. cbn [page_run page_exec]. compute_page.
  destruct (settle_snoc (AwaitGenerate prompt) p_awaiting) as [left ->].
  cbn [mbind option_bind]. unfold generateRecipe_settled. compute_page.
  by eexists.
Qed.

Lemma X11_new_recipe_inherits_timer_witness :
  ∃ p, page_run reply_after_stop mounted_page = Some p
       ∧ ∃ p',
           page_run
             [ClickNewRecipe; Voice TimerFires; TypeIngredients "flour";
              ClickGenerate;
              GenerateSettles (recipe_prompt (allIngredients [] "flour"))
                (Generated "RECIPE NAME: Bread")]
             p = Some p'
           ∧ recipe (voice p') = Some (parseRecipeText "RECIPE NAME: Bread")
           ∧ state (voice p') = RecipeReady
           ∧ currentStep (voice p') = 0 + 1.
Proof.
  exists (default mounted_page (page_run reply_after_stop mounted_page)).
  split; [vm_compute; reflexivity|].
  apply (X11_new_recipe_inherits_timer
           (default mounted_page (page_run reply_after_stop mounted_page))
           omelette_closure omelette [] "flour" "RECIPE NAME: Bread").
  - vm_compute. by eexists.
  - vm_compute. reflexivity.
  - vm_compute. reflexivity.
  - reflexivity.
  - vm_compute. reflexivity.
  - vm_compute. discriminate.
Defined.

Lemma stepAt_no_steps (r : Recipe) (i : Z) : steps r = [] → stepAt r i = "undefined".
Proof. unfold stepAt. intros ->. by destruct (i <? 0). Qed.

Lemma startVoiceCooking_announces (c : Closure) (r : Recipe)
    (loaded ensure_ok : bool) (tts : TtsOutcome) (mic_ok : bool) (w : World) :
  c_recipe c = Some r → loaded || ensure_ok = true →
  voiceResponse (startVoiceCooking c loaded ensure_ok tts mic_ok w)
  = stepText c r.
Proof.
  intros Hr Hok.
  assert (Hgate : negb loaded && negb ensure_ok = false)
    by (destruct loaded, ensure_ok; done).
  unfold startVoiceCooking, speak_step. rewrite Hr, Hgate.
  generalize (stepText c r). intros announced.
  open_world w. by destruct tts, w_pipelineRef.
Qed.

(** X12: [generateRecipe] accepts a reply without steps.  When no line of an
    ASCII reply is [STEPS:], the page still enters recipe-ready with a recipe that
    has no step: the step pointer is outside it, the Next button is enabled
    but leaves the pointer where it is, and Start Voice Cooking announces
    the step as "undefined". *)
Theorem X12_reply_without_steps_is_accepted (p p' : Page) (prompt text : string)
    (loaded ensure_ok : bool) (tts : TtsOutcome) (mic_ok : bool) :
  ascii_text text = true →
  "STEPS:" ∉ recipe_lines text →
  0 ≤ currentStep (voice p) →
  page_exec (GenerateSettles prompt (Generated text)) p = Some p' →
  loaded || ensure_ok = true →
  let w := voice p' in
  state w = RecipeReady
  ∧ (∃ r, recipe w = Some r ∧ steps r = [] ∧ ¬ in_range r (currentStep w))
  ∧ exec ClickNext w = Some w
  ∧ voiceResponse (startVoiceCooking (render w) loaded ensure_ok tts mic_ok w)
    = "Step " +:+ Js.ofNumber (currentStep w + 1) +:+ ": undefined".
Proof.
  intros _ Hno Hpos Hexec Hok. cbv zeta.
  assert (Hsteps : steps (parseRecipeText text) = []).
  { unfold parseRecipeText. cbn [steps].
    by apply (parse_lines_sections (recipe_lines text)). }
  cbn [page_exec] in Hexec. destruct (settle _ _); [|done].
  injection Hexec as <-. unfold generateRecipe_settled.
  revert Hsteps. generalize (parseRecipeText text). intros r Hsteps.
  assert (Hw : ∃ w, voice (p |> set_awaiting l |> on_voice (setRecipe (Some r))
                             |> on_voice (setState RecipeReady)) = w
                    ∧ state w = RecipeReady ∧ recipe w = Some r
                    ∧ 0 ≤ currentStep w).
  { eexists. split; [reflexivity|]. revert Hpos. by open_page p. }
  destruct Hw as (w & -> & Hst & Hr & Hp). clear Hpos.
  split; [done|]. split; [|split].
  - exists r. repeat split; try done. unfold in_range, stepCount.
    rewrite Hsteps. cbn. lia.
  - cbn [exec]. rewrite Hr. unfold stepCount. rewrite Hsteps. cbn [length].
    rewrite decide_True by (split; [done | lia]).
    unfold nextStep, render. cbn [c_recipe c_currentStep]. rewrite Hr.
    unfold stepCount. rewrite Hsteps. cbn [length].
    by destruct (Z.ltb_spec (currentStep w) (Z.of_nat 0 - 1)); [lia|].
  - rewrite (startVoiceCooking_announces _ r) by done.
    unfold stepText, render. cbn [c_currentStep].
    by rewrite stepAt_no_steps.
Qed.

Lemma X12_reply_without_steps_is_accepted_witness :
  let w := voice (generateRecipe_settled (Generated markdown_reply)
                    (set_awaiting [] (generateRecipe
                                        (setCustomIngredients "eggs" mounted_page)))) in
  state w = RecipeReady
  ∧ (∃ r, recipe w = Some r ∧ steps r = [] ∧ ¬ in_range r (currentStep w))
  ∧ exec ClickNext w = Some w
  ∧ voiceResponse
      (startVoiceCooking (render w) true true (TtsPlayed [0; 0; 0] 22050) true w)
    = "Step " +:+ Js.ofNumber (currentStep w + 1) +:+ ": undefined".
Proof.
  cbv zeta.
  apply (X12_reply_without_steps_is_accepted
           (generateRecipe (setCustomIngredients "eggs" mounted_page))
           (generateRecipe_settled (Generated markdown_reply)
              (set_awaiting [] (generateRecipe
                                  (setCustomIngredients "eggs" mounted_page))))
           (recipe_prompt ["eggs"]) markdown_reply
           true true (TtsPlayed [0; 0; 0] 22050) true).
  - reflexivity.
  - apply (bool_decide_unpack _). vm_compute. exact I.
  - vm_compute. discriminate.
  - reflexivity.
  - reflexivity.
Defined.

Lemma startVoiceCooking_gives_up (c : Closure) (r : Recipe) (tts : TtsOutcome)
    (mic_ok : bool) (w : World) :
  c_recipe c = Some r →
  let w' := startVoiceCooking c false false tts mic_ok w in
  error w' = Some "Failed to load voice models"
  ∧ state w' = state w ∧ mics w' = mics w ∧ trace w' = trace w.
Proof.
  intros Hr. cbv zeta. unfold startVoiceCooking. rewrite Hr. cbn [negb andb].
  by open_world w.
Qed.

Lemma startVoiceCooking_starts (c : Closure) (r : Recipe)
    (loaded ensure_ok : bool) (tts : TtsOutcome) (mic_ok : bool) (w : World) :
  c_recipe c = Some r → loaded || ensure_ok = true →
  let w' := startVoiceCooking c loaded ensure_ok tts mic_ok w in
  error w' = None ∧ state w' = CookingVoice.
Proof.
  intros Hr Hok. cbv zeta.
  assert (Hgate : negb loaded && negb ensure_ok = false)
    by (destruct loaded, ensure_ok; done).
  unfold startVoiceCooking, speak_step. rewrite Hr, Hgate.
  generalize (stepText c r). intros announced.
  open_world w. by destruct tts, w_pipelineRef.
Qed.

(** X13: which models [startVoiceCooking] asks for.  It gives up with
    "Failed to load voice models" exactly when one of the VAD, speech
    recognition and speech synthesis models is missing and one of the four
    loaders then fails; giving up changes the state, the microphones and the
    calls on the SDK in nothing.  Whether the language model is loaded is
    never looked at: when the three others are, the session starts and no
    loader is asked. *)
Theorem X13_start_checks_three_models (c : Closure) (r : Recipe)
    (loaded results : VoiceModels) (tts : TtsOutcome) (mic_ok : bool)
    (w : World) :
  c_recipe c = Some r →
  let w' := startVoiceCooking_with c loaded results tts mic_ok w in
  (error w' = Some "Failed to load voice models"
   ↔ anyMissing loaded = true ∧ ensureVoiceModels results = false)
  ∧ (error w' = Some "Failed to load voice models" →
     state w' = state w ∧ mics w' = mics w ∧ trace w' = trace w)
  ∧ (vad_model loaded && stt_model loaded && tts_model loaded = true →
     state w' = CookingVoice
     ∧ ∀ llm results',
         startVoiceCooking_with c
           {| vad_model := true; stt_model := true; llm_model := llm;
              tts_model := true |} results' tts mic_ok w = w').
Proof.
  intros Hr. cbv zeta. unfold startVoiceCooking_with.
  pose proof (startVoiceCooking_gives_up c r tts mic_ok w Hr) as Hfail.
  pose proof (startVoiceCooking_starts c r) as Hstart.
  cbv zeta in Hfail, Hstart.
  destruct (anyMissing loaded) eqn:Hmiss, (ensureVoiceModels results) eqn:Hens;
    cbn [negb].
  - destruct (Hstart false true tts mic_ok w Hr eq_refl) as [He Hs].
    rewrite He. split; [split; [done | by intros [_ ?]]|]. split; [done|].
    intros H3. exfalso. unfold anyMissing in Hmiss. revert H3 Hmiss.
    by destruct loaded as [[] [] ? []].
  - destruct Hfail as (He & Hs & Hm & Ht). split; [done|]. split; [done|].
    intros H3. exfalso. unfold anyMissing in Hmiss. revert H3 Hmiss.
    by destruct loaded as [[] [] ? []].
  - destruct (Hstart true true tts mic_ok w Hr eq_refl) as [He Hs].
    rewrite He. split; [split; [done | by intros [? _]]|]. split; [done|].
    intros _. split; [done|]. intros llm results'. unfold anyMissing.
    cbn [vad_model stt_model tts_model negb orb].
    unfold startVoiceCooking. rewrite Hr. done.
  - destruct (Hstart true false tts mic_ok w Hr eq_refl) as [He Hs].
    rewrite He. split; [split; [done | by intros [? _]]|]. split; [done|].
    intros _. split; [done|]. intros llm results'. unfold anyMissing.
    cbn [vad_model stt_model tts_model negb orb].
    unfold startVoiceCooking. rewrite Hr. done.
Qed.

Lemma X13_start_checks_three_models_witness :
  let w' := startVoiceCooking_with (render (recipe_ready soup))
              {| vad_model := true; stt_model := true; llm_model := false;
                 tts_model := true |}
              {| vad_model := true; stt_model := true; llm_model := false;
                 tts_model := true |}
              (TtsPlayed [0; 0; 0] 22050) true (recipe_ready soup) in
  error w' ≠ Some "Failed to load voice models" ∧ state w' = CookingVoice.
Proof.
  cbv zeta.
  destruct (X13_start_checks_three_models (render (recipe_ready soup)) soup
              {| vad_model := true; stt_model := true; llm_model := false;
                 tts_model := true |}
              {| vad_model := true; stt_model := true; llm_model := false;
                 tts_model := true |}
              (TtsPlayed [0; 0; 0] 22050) true (recipe_ready soup) eq_refl)
    as (Herr & _ & Hstart).
  split.
  - intros H. apply Herr in H as [H _]. discriminate H.
  - apply Hstart. reflexivity.
Defined.







(** ** Invariants of the page *)

Lemma VAD_emit_shows activity (w : World) :
  state (VAD_emit activity w) = state w ∧ recipe (VAD_emit activity w) = recipe w.
Proof.
  unfold VAD_emit. generalize (vad_listeners w). intros ls.
  revert w. induction ls as [|[k c] ls IH]; intros w; [done|].
  cbn. destruct (IH (onSpeechActivity_callback c activity w)) as [-> ->].
  unfold onSpeechActivity_callback, VAD_popSpeechSegment, processVoiceCommand.
  destruct activity; [done|]. destruct (vad_segment w); [|done].
  destruct (Z.ltb _ _); [|done]. cbn.
  destruct (pipelineRef w), (c_recipe c); try done.
  by open_world_refs w.
Qed.

(** A handler of the voice session keeps the recipe, and changes the state
    only to recipe-ready or cooking-voice, and only when there is a recipe. *)
Lemma exec_shows (l : Label) (w w' : World) :
  exec l w = Some w' →
  recipe w' = recipe w
  ∧ (state w' = state w
     ∨ is_Some (recipe w) ∧ (state w' = RecipeReady ∨ state w' = CookingVoice)).
Proof.
  intros Hexec. destruct l; cbn in Hexec.
  - case_decide as Hg; [|done]. injection Hexec as <-.
    destruct Hg as (_ & Hr & Hc & _). unfold startVoiceCooking, speak_step.
    rewrite Hc. destruct Hr as [r Hr]. rewrite Hr.
    destruct (_ && _).
    + split; [|left]; by open_world w.
    + generalize (stepText c r). intros announced. clear Hc. revert Hr.
      open_world w. intros ->.
      split; [|right; split; [by eexists | right]];
        by destruct tts, w_pipelineRef.
  - case_decide as Hg; [|done]. injection Hexec as <-. destruct Hg as [_ Hr].
    unfold stopVoiceCooking. split; [|right; split; [done | left]];
      by open_world_refs w.
  - destruct (recipe w) eqn:Hr; [|done]. case_decide; [|done].
    injection Hexec as <-. rewrite nextStep_state. split; [|by left].
    unfold nextStep. destruct (c_recipe _); [|done].
    destruct (Z.ltb _ _); [|done]. revert Hr. by open_world w.
  - case_decide; [|done]. injection Hexec as <-. rewrite prevStep_state.
    split; [|by left]. unfold prevStep. destruct (Z.ltb _ _); [|done].
    by open_world w.
  - destruct (capturing w); [|done].
    assert (state (VAD_processSamples chunk verdict w) = state w
            ∧ recipe (VAD_processSamples chunk verdict w) = recipe w) as [Hs Hr].
    { unfold VAD_processSamples.
      destruct (vad_speech w), verdict as [[]|]; try done;
        match goal with |- context [VAD_emit ?a ?v] =>
          by destruct (VAD_emit_shows a v) as [-> ->] end. }
    destruct (vad_speech w), verdict as [[]|]; try done;
      injection Hexec as <-; by split; [|left].
  - destruct (capturing w); [|done]. injection Hexec as <-.
    split; [|left]; by open_world w.
  - destruct (pending turn (calls w)) as [c|]; [|done].
    cbn in Hexec. injection Hexec as <-. rewrite callback_state.
    split; [|by left]. unfold callback. destruct cb; try by open_world w.
    destruct (onResponseComplete_command _ _); by open_world w.
  - destruct (pending turn (calls w)) as [c|]; [|done].
    cbn in Hexec. injection Hexec as <-.
    unfold processVoiceCommand_settled, restart_listening, apply_outcome.
    split; [|left]; destruct (decide _), o as [[res|]|]; by open_world w.
  - destruct (timers w) as [|task rest] eqn:Ht; [done|]. injection Hexec as <-.
    rewrite run_task_state. split; [|left; by open_world w].
    destruct task as [c|c]; cbn; unfold nextStep, prevStep.
    + destruct (c_recipe c); [|by open_world w].
      destruct (Z.ltb _ _); by open_world w.
    + destruct (Z.ltb _ _); by open_world w.
Qed.

Lemma settle_keeps (a b : Pending) (l rest : list Pending) :
  settle a l = Some rest → b ≠ a → b ∈ l → b ∈ rest.
Proof.
  revert rest. induction l as [|x l IH]; intros rest; cbn [settle]; [done|].
  destruct (decide (x = a)) as [->|Hx].
  - intros [= <-] Hb Hin. apply elem_of_cons in Hin as [->|]; done.
  - destruct (settle a l) as [rest'|]; [|done]. cbn. intros [= <-] Hb Hin.
    apply elem_of_cons in Hin as [->|Hin]; [by left|]. right. by apply IH.
Qed.

Lemma page_exec_invariant (l : PageLabel) (p p' : Page) :
  page_invariant p → page_exec l p = Some p' → page_invariant p'.
Proof.
  intros (Hscan & Hgen & Hcam & Hrec).
  destruct l as [l|b|b|cam started|cam o|value| |prompt o| |c loaded
                |stage c o mic_ok];
    cbn [page_exec]; intros H.
  - destruct (exec l (voice p)) as [w|] eqn:E; [|done]. cbn in H.
    injection H as <-. apply exec_shows in E as [Hr Hs].
    unfold page_invariant. revert Hscan Hgen Hcam Hrec Hr Hs.
    destruct p. compute_page. intros. rewrite Hr in *.
    destruct Hs as [->|[[r Hsome] Hs]]; [done|].
    repeat split; try apply Hcam; try (intros; destruct Hs; congruence).
    intros _. by eexists.
  - destruct (_ && _); [|done]. injection H as <-. unfold startCamera.
    destruct (_ && b); [done|]. unfold page_invariant.
    revert Hscan Hgen Hcam Hrec. destruct p. compute_page. intros.
    repeat split; try apply Hcam; try (by apply Hrec).
    + intros Hs. destruct (Hscan Hs) as [c Hc]. exists c.
      apply elem_of_app. by left.
    + intros Hs. destruct (Hgen Hs) as [c Hc]. exists c.
      apply elem_of_app. by left.
  - destruct (_ && _); [|done]. injection H as <-.
    unfold page_invariant, scanIngredients, startCamera.
    revert Hscan Hgen Hcam Hrec. destruct p as [w ca d cu [cam|] n att pe lg];
      destruct b; open_world w; intros; repeat split;
      try apply Hcam; try (by apply Hrec); try done.
    all: try (intros Hs; destruct (Hscan Hs) as [c Hc]; exists c;
              apply elem_of_app; by left).
    all: try (intros Hs; destruct (Hgen Hs) as [c Hc]; exists c;
              apply elem_of_app; by left).
    intros _. exists cam. apply elem_of_app. right. by left.
  - destruct (settle _ _) as [rest|] eqn:E; [|done]. injection H as <-.
    unfold page_invariant, startCamera_settled, videoMountRef.
    revert Hscan Hgen Hcam Hrec E. destruct p as [w ca d cu cr n att pe lg].
    compute_page. intros. destruct started.
    + destruct (bool_decide _ && ca); compute_page; repeat split;
        try (by apply Hrec); try done.
      all: try (intros Hs; destruct (Hscan Hs) as [c Hc]; exists c;
                by eapply settle_keeps).
      all: try (intros Hs; destruct (Hgen Hs) as [c Hc]; exists c;
                by eapply settle_keeps).
    + repeat split; try apply Hcam; try (by apply Hrec).
      * intros Hs; destruct (Hscan Hs) as [c Hc]; exists c;
          by eapply settle_keeps.
      * intros Hs; destruct (Hgen Hs) as [c Hc]; exists c;
          by eapply settle_keeps.
  - destruct (settle _ _) as [rest|] eqn:E; [|done]. injection H as <-.
    unfold page_invariant, scanIngredients_settled, remove_videoElement.
    revert Hscan Hgen Hcam Hrec E. destruct p as [w ca d cu cr n att pe lg].
    open_world w. intros.
    destruct o; compute_page; try destruct (bool_decide _); compute_page;
      repeat split; try apply Hcam; try done; by intros [? ?].
  - destruct (bool_decide _); [|done]. injection H as <-.
    unfold page_invariant. revert Hscan Hgen Hcam Hrec. destruct p.
    by compute_page.
  - destruct (_ && _); [|done]. injection H as <-.
    unfold page_invariant, generateRecipe.
    generalize (recipe_prompt (allIngredients (detectedIngredients p)
                                 (customIngredients p))). intros prompt.
    revert Hscan Hgen Hcam Hrec. destruct (length _ =? 0)%nat;
      destruct p as [w ca d cu cr n att pe lg]; open_world w; intros;
      repeat split; try apply Hcam; try (by apply Hrec); try done.
    intros _. exists prompt. apply elem_of_app. right. by left.
  - destruct (settle _ _) as [rest|] eqn:E; [|done]. injection H as <-.
    unfold page_invariant, generateRecipe_settled.
    revert Hscan Hgen Hcam Hrec E. destruct p as [w ca d cu cr n att pe lg].
    open_world w. intros.
    destruct o; compute_page; repeat split; try apply Hcam; done.
  - destruct (_ && _); [|done]. injection H as <-.
    unfold page_invariant, resetRecipe.
    revert Hscan Hgen Hcam Hrec. destruct p as [w ca d cu cr n att pe lg].
    open_world w. intros. repeat split; try apply Hcam; done.
  - case_decide as Hg; [|done]. injection H as <-.
    destruct Hg as (Hst & Hsome & Hcr & _).
    unfold page_invariant, startVoiceCooking_clicked, start_cooking.
    rewrite Hcr. destruct Hsome as [r Hsome]. rewrite Hsome.
    generalize (stepText c r). intros announced.
    revert Hscan Hgen Hcam Hrec Hst Hsome.
    destruct p as [w ca d cu cr n att pe lg]. open_world w. intros.
    destruct loaded; compute_page; repeat split; try apply Hcam; try done.
    all: intros ?; congruence.
  - destruct (settle _ _) as [rest|] eqn:E; [|done]. cbn in H.
    assert (Hkeep : ∀ b, awaits_start b = false → b ∈ awaiting p → b ∈ rest).
    { intros b Hb Hin. eapply settle_keeps; [exact E| |done].
      intros ->. done. }
    assert (Hscan' : state (voice p) = Scanning → ∃ cam, AwaitScan cam ∈ rest).
    { intros Hs. destruct (Hscan Hs) as [cam ?]. exists cam. by apply Hkeep. }
    assert (Hgen' : state (voice p) = GeneratingRecipe →
                    ∃ prompt, AwaitGenerate prompt ∈ rest).
    { intros Hs. destruct (Hgen Hs) as [pr ?]. exists pr. by apply Hkeep. }
    clear Hscan Hgen Hkeep E. revert H.
    unfold page_invariant, startVoiceCooking_resumed, start_caught,
      start_cooking, start_listening.
    generalize (stepText c). intros announced.
    revert Hscan' Hgen' Hcam Hrec.
    destruct p as [w ca d cu cr n att pe lg]. open_world w. intros.
    destruct stage, o as [[]| | | |err]; try done;
      try destruct (c_recipe c); try done;
      injection H as <-; destruct w_pipelineRef; compute_page;
      repeat split; try apply Hcam; try done.
    all: try (intros Hs; destruct (Hscan' Hs) as [x Hx]; exists x;
              apply elem_of_app; by left).
    all: try (intros Hs; destruct (Hgen' Hs) as [x Hx]; exists x;
              apply elem_of_app; by left).
Qed.

(** X15: what holds on every page that can be reached from the mounted one,
    whatever is clicked, typed, said, answered or fails, and wherever a start
    of voice cooking is overtaken.  The state is scanning only while a scan
    is awaited and generating-recipe only while a reply of the language model
    is awaited; the camera view is shown exactly when the page holds a
    camera; and the state is recipe-ready only when there is a recipe. *)
Theorem X15_reachable_pages (ls : list PageLabel) (p : Page) :
  page_run ls mounted_page = Some p → page_invariant p.
Proof.
  assert (H0 : page_invariant mounted_page).
  { repeat split; try done. by intros [? ?]. }
  revert H0. generalize mounted_page. induction ls as [|l ls IH]; intros p0 H0.
  - by intros [= <-].
  - cbn [page_run]. destruct (page_exec l p0) as [p1|] eqn:E; [|done].
    cbn. apply IH. by eapply page_exec_invariant.
Qed.

Lemma X15_reachable_pages_witness :
  page_invariant
    (default mounted_page (page_run reply_after_stop mounted_page)).
Proof.
  apply (X15_reachable_pages reply_after_stop). vm_compute. reflexivity.
Defined.

(** * The voice session on the page *)

(** ** A start in stages and a start in one piece *)






(** ** What a handler of the page does to the voice session *)

Lemma quiet_wiring (w w' : World) : wiring w' = wiring w → quiet w → quiet w'.
Proof.
  unfold wiring, quiet, capturing. intros [= _ _ Hm Hl Hc]. by rewrite Hm, Hl, Hc.
Qed.

Lemma start_listening_serialized (c : Closure) (mic_ok : bool) (w : World) :
  quiet w → serialized (start_listening c mic_ok w).
Proof.
  intros (Hc & Hl & Hp).
  unfold start_listening, serialized, only_mic, capturing in *.
  revert Hc Hl Hp. open_world w. intros; simplify_eq.
  destruct w_pipelineRef; compute_world;
    (split;
     [ intros k Hk; cbn in Hk; by apply new_mic_is_the_only_one in Hk as ->
     | by apply (Listening _ w_subscriptions c) ]).
Qed.

Lemma start_listening_currentStep (c : Closure) (mic_ok : bool) (w : World) :
  currentStep (start_listening c mic_ok w) = currentStep w.
Proof. unfold start_listening. open_world w. by destruct w_pipelineRef. Qed.

Lemma startVoiceCooking_gate (c : Closure) (loaded ensure_ok : bool)
    (tts : TtsOutcome) (mic_ok : bool) (w : World) :
  loaded || ensure_ok = false →
  wiring (startVoiceCooking c loaded ensure_ok tts mic_ok w) = wiring w.
Proof.
  intros [-> ->]%orb_false_iff. unfold startVoiceCooking.
  destruct (c_recipe c); [|done]. by open_world w.
Qed.

(** The handlers outside the voice session, and the stages of a start before
    it listens, leave the microphones, the listeners and the pending calls as
    they are; only New Recipe writes the step pointer, to 0. *)
Lemma page_exec_voice (l : PageLabel) (p p' : Page) :
  page_exec l p = Some p' →
  match l with
  | Voice l' => exec l' (voice p) = Some (voice p')
  | StartResumes _ c _ mic_ok =>
      if begins_listening l
      then ∃ w, wiring w = wiring (voice p)
                ∧ currentStep w = currentStep (voice p)
                ∧ voice p' = start_listening c mic_ok w
      else wiring (voice p') = wiring (voice p)
           ∧ currentStep (voice p') = currentStep (voice p)
  | ClickNewRecipe =>
      wiring (voice p') = wiring (voice p) ∧ currentStep (voice p') = 0
  | _ =>
      wiring (voice p') = wiring (voice p)
      ∧ currentStep (voice p') = currentStep (voice p)
  end.
Proof.
  destruct l as [l|b|b|cam started|cam o|value| |prompt o| |c loaded
                |stage c o mic_ok];
    cbn [page_exec]; intros H.
  - destruct (exec l (voice p)); [|done]. cbn in H. injection H as <-.
    by destruct p.
  - destruct (_ && _); [|done]. injection H as <-. unfold startCamera.
    destruct (_ && b); [done|]. by destruct p.
  - destruct (_ && _); [|done]. injection H as <-.
    unfold scanIngredients, startCamera, wiring.
    destruct p as [v ca d cu [cam|] n att pe lg], b; by open_world v.
  - destruct (settle _ _); [|done]. injection H as <-.
    unfold startCamera_settled, videoMountRef.
    destruct started; [|by destruct p].
    destruct p. compute_page. by destruct (bool_decide _ && _).
  - destruct (settle _ _); [|done]. injection H as <-.
    unfold scanIngredients_settled, remove_videoElement, wiring.
    destruct p as [v ca d cu cr n att pe lg]. open_world v.
    destruct o; try done. compute_page. by destruct (bool_decide _).
  - destruct (bool_decide _); [|done]. injection H as <-. by destruct p.
  - destruct (_ && _); [|done]. injection H as <-. unfold generateRecipe, wiring.
    destruct (length _ =? 0)%nat; by open_page p.
  - destruct (settle _ _); [|done]. injection H as <-.
    unfold generateRecipe_settled, wiring. destruct o; by open_page p.
  - destruct (_ && _); [|done]. injection H as <-.
    unfold resetRecipe, wiring. by open_page p.
  - case_decide; [|done]. injection H as <-.
    unfold startVoiceCooking_clicked, start_cooking, wiring.
    destruct (c_recipe c); [|done]. destruct loaded; by open_page p.
  - destruct (settle _ _) as [rest|]; [|done]. cbn in H.
    unfold startVoiceCooking_resumed, start_caught, start_cooking in H.
    destruct stage, o as [[]| | | |err]; try done;
      try destruct (c_recipe c); try done;
      injection H as <-; cbn [begins_listening].
    all: try (unfold wiring; by open_page p).
    all: eexists; (split; [|split; [|by destruct p]]); unfold wiring;
      by open_page p.
Qed.

Lemma page_exec_serialized (l : PageLabel) (p p' : Page) :
  (begins_listening l = true → quiet (voice p)) →
  serialized (voice p) → page_exec l p = Some p' → serialized (voice p').
Proof.
  intros Hq Hs H. apply page_exec_voice in H.
  destruct l as [l|b|b|cam started|cam o|value| |prompt o| |c loaded
                |stage c o mic_ok];
    try (match type of H with _ ∧ _ => destruct H as [H _] end;
         by apply (serialized_wiring (voice p))).
  - destruct l as [c loaded ensure_ok tts mic_ok| | | | | | | |];
      try (refine (exec_serialized _ _ _ _ Hs H); exact I).
    cbn [begins_listening] in Hq. cbn [exec] in H.
    case_decide; [|done]. injection H as <-.
    destruct (loaded || ensure_ok) eqn:E.
    + by apply startVoiceCooking_serialized, Hq.
    + apply (serialized_wiring (voice p)); [|done].
      by apply startVoiceCooking_gate.
  - destruct (begins_listening _).
    + destruct H as (w & Hw & _ & ->). apply start_listening_serialized.
      apply (quiet_wiring (voice p)); [done | by apply Hq].
    + destruct H as [H _]. by apply (serialized_wiring (voice p)).
Qed.

Lemma page_run_serialized (ls : list PageLabel) (p p' : Page) :
  serialized (voice p) → listens_when_quiet ls p → page_run ls p = Some p' →
  serialized (voice p').
Proof.
  revert p. induction ls as [|l ls IH]; intros p Hs Hls Hrun.
  - by injection Hrun as <-.
  - destruct Hls as [Hq Hls]. cbn [page_run] in Hrun.
    destruct (page_exec l p) as [p1|] eqn:E; [|done]. cbn in Hrun.
    apply (IH p1); [by apply (page_exec_serialized l p) | done | done].
Qed.

(** ** One turn at a time *)

(** C3 (as the code has it): the handler of a turn stops the microphone of
    [micRef] and removes the subscription of [vadUnsub] before it calls the
    pipeline, and starts a microphone again only once the call has settled
    and its outcome has been applied.  Consequently, whatever the handlers of
    the page that run and wherever they fall between the stages of a start:
    as long as every start begins to listen on a quiet component (no
    microphone capturing, no subscription, no call pending), at most one
    pipeline call is pending at any time, and while it is pending no
    microphone is capturing and no listener is subscribed. *)
Theorem C3_turns_serialized :
  (∀ c r p audioData w,
     c_recipe c = Some r → pipelineRef w = Some p →
     trace (processVoiceCommand c audioData w)
     = trace w ++ stop_events w
       ++ [ProcessTurn (turns w) (length audioData) (systemPrompt c r)]
     ∧ (∀ m, micRef w = Some m →
             mics (processVoiceCommand c audioData w) !! m ≠ Some true)
     ∧ (∀ l, vadUnsub w = Some l →
             l ∉ fst <$> vad_listeners (processVoiceCommand c audioData w)))
  ∧ (∀ c turn o mic_ok w,
       trace (processVoiceCommand_settled c turn o mic_ok w)
       = trace w ++ [TurnSettled turn]
         ++ (if decide (c_state c = CookingVoice)
             then [VadReset; MicStart (length (mics w))] else [])
       ∧ voiceTranscript (processVoiceCommand_settled c turn o mic_ok w)
         = voiceTranscript (apply_outcome o w)
       ∧ voiceResponse (processVoiceCommand_settled c turn o mic_ok w)
         = voiceResponse (apply_outcome o w)
       ∧ error (processVoiceCommand_settled c turn o mic_ok w)
         = error (apply_outcome o w))
  ∧ (∀ ls p p',
       serialized (voice p) → listens_when_quiet ls p →
       page_run ls p = Some p' →
       serialized (voice p')
       ∧ (length (calls (voice p')) ≤ 1)%nat
       ∧ (calls (voice p') ≠ [] →
          capturing (voice p') = false ∧ vad_listeners (voice p') = [])).
Proof.
  split; [|split].
  - intros. by apply (processVoiceCommand_order c r p).
  - intros. apply processVoiceCommand_settled_order.
  - intros ls p p' Hs Hls Hrun.
    pose proof (page_run_serialized ls p p' Hs Hls Hrun) as Hs'.
    split; [done|].
    destruct Hs' as [_ [H1 H2|l c' H1 H2 H3|t c' H1 H2 H3]].
    + rewrite H2. split; [cbn; lia | done].
    + rewrite H3. split; [cbn; lia | done].
    + rewrite H2. split; [cbn; lia | done].
Qed.

Lemma C3_turns_serialized_witness :
  (λ w, (length (calls w) ≤ 1)%nat
        ∧ (calls w ≠ [] → capturing w = false ∧ vad_listeners w = []))
    (voice (default mounted_page (page_run turn_on_page mounted_page))).
Proof.
  destruct C3_turns_serialized as (_ & _ & H).
  apply (H turn_on_page mounted_page
           (default mounted_page (page_run turn_on_page mounted_page))).
  - apply quiet_serialized. by vm_compute.
  - vm_compute. repeat (split; [done|]). done.
  - vm_compute. reflexivity.
Defined.

(** Two starts that overlap break the serialization without any stop.
    Start Voice Cooking clicked twice while the models load gives two
    microphones and two subscriptions; the first utterance is sent to the
    pipeline by the first listener, whose handler stops the second
    microphone, and a later utterance, heard by the microphone that no
    handler stops, is sent while that call is pending. *)
Example overlapping_starts :
  (λ p, (mics (voice p), fst <$> vad_listeners (voice p),
         fst <$> calls (voice p)))
    <$> page_run started_twice mounted_page
  = Some ([true; true], [0%nat; 1%nat], [])
  ∧ (λ p, (mics (voice p), fst <$> vad_listeners (voice p),
           fst <$> calls (voice p)))
      <$> page_run (started_twice ++ page_utterance 2000 ++ page_utterance 2000)
            mounted_page
    = Some ([true; false], [0%nat], [0%nat; 1%nat]).
Proof. split; vm_compute; reflexivity. Qed.

(** ** The step pointer *)

(** C7 (as the code has it): the step pointer is written only by [nextStep]
    and [prevStep], run by a click on the Next or Previous button or by the
    timer that the final-reply callback sets, and by [resetRecipe], which a
    click on New Recipe runs and which sets it to 0; no other handler of the
    page writes it, in particular not the handler of a turn, its callbacks,
    its settlement or a start.  The context given to the pipeline is the
    string built from the step index and the recipe that the handler
    captured, whatever the world is at the call. *)
Theorem C7_step_pointer_writers :
  (∀ l p p', page_exec l p = Some p' →
     currentStep (voice p') ≠ currentStep (voice p) →
     l = Voice TimerFires ∨ l = Voice ClickNext ∨ l = Voice ClickPrevious
     ∨ (l = ClickNewRecipe ∧ currentStep (voice p') = 0))
  ∧ (∀ c r p audioData w,
       c_recipe c = Some r → pipelineRef w = Some p →
       last (trace (processVoiceCommand c audioData w))
       = Some (ProcessTurn (turns w) (length audioData) (systemPrompt c r))).
Proof.
  split.
  - intros l p p' H Hne. apply page_exec_voice in H.
    destruct l as [l|b|b|cam started|cam o|value| |prompt o| |c loaded
                  |stage c o mic_ok];
      try (match type of H with _ = _ ∧ _ = currentStep _ => destruct H as [_ H] end;
           congruence).
    + destruct (exec_step_pointer l (voice p) (voice p') H Hne)
        as [->| [->| ->]]; auto.
    + destruct H as [_ H]. auto.
    + destruct (begins_listening _).
      * destruct H as (w & _ & Hw & Hv). rewrite Hv in Hne.
        rewrite start_listening_currentStep in Hne. congruence.
      * destruct H as [_ H]. congruence.
  - intros c r p audioData w Hr Hp.
    by destruct (processVoiceCommand_invoked c r p audioData w Hr Hp).
Qed.

Lemma C7_step_pointer_writers_witness :
  last (trace (processVoiceCommand (render (recipe_ready soup)) [0; 0]
                 (set_pipelineRef (Some NewVoicePipeline) (recipe_ready soup))))
  = Some (ProcessTurn 0 2 (systemPrompt (render (recipe_ready soup)) soup)).
Proof.
  destruct C7_step_pointer_writers as [_ H].
  apply (H (render (recipe_ready soup)) soup NewVoicePipeline); reflexivity.
Defined.

(** New Recipe writes the step pointer, also while a call is pending: after
    [next_at_last_step] the pointer is on the last step, call 0 has yet to
    settle, and the click puts the pointer back to 0. *)
Example reset_writes_step_pointer :
  (λ p, (fst <$> calls (voice p), currentStep (voice p)))
    <$> page_run next_at_last_step mounted_page
  = Some ([0%nat], 2)
  ∧ (λ p, (fst <$> calls (voice p), currentStep (voice p)))
      <$> page_run (next_at_last_step ++ [ClickNewRecipe]) mounted_page
    = Some ([0%nat], 0).
Proof. split; vm_compute; reflexivity. Qed.

(** C4 fails in the code: [nextStep] and [prevStep] clamp the index that
    their handler captured, not the step pointer.  The timer of a voice
    command runs the handler of the render that made the session's
    [startVoiceCooking].  In [next_at_last_step] the session starts at step
    0 and the pointer is then moved to the last step, 2 of 0..2: the Next of
    the reply moves it to 1.  In [next_into_new_recipe] the Next of the old
    recipe fires after New Recipe, and the recipe generated next, of one
    step, opens with the pointer at 1, outside 0..0. *)
Theorem C4_stale_handler_breaks_clamp :
  (λ p, (stepCount <$> recipe (voice p), currentStep (voice p),
         timers (voice p)))
    <$> page_run next_at_last_step mounted_page
  = Some (Some 3, 2, [CallNextStep omelette_closure])
  ∧ (λ p, (stepCount <$> recipe (voice p), currentStep (voice p)))
      <$> page_run (next_at_last_step ++ [Voice TimerFires]) mounted_page
    = Some (Some 3, 1)
  ∧ (λ p, (stepCount <$> recipe (voice p), currentStep (voice p)))
      <$> page_run next_into_new_recipe mounted_page
    = Some (Some 1, 1).
Proof. repeat split; vm_compute; reflexivity. Qed.

(** ** Stopping *)





(** The state can be cooking-voice without a recipe: the start that New
    Recipe overtakes goes on once the models are there. *)
Example cooking_without_recipe :
  (λ p, (state (voice p), recipe (voice p), awaiting p))
    <$> page_run start_overtaken_by_reset mounted_page
  = Some (CookingVoice, None, [AwaitStart ImportingSpeech omelette_closure]).
Proof. vm_compute. reflexivity. Qed.
